(** * CS-Auto-V1: name reconciliation between a roster and certificate files

    A shallow embedding of [automation.py] (name normalisation, e-mail
    repair, certificate index, three-tier matching, report, sending loop)
    and of [rename.py] (skip-line predicate, name extraction, file-name
    sanitisation, renaming loop), with the fragment of Python's [str],
    [re], [os.path] and [difflib] they rely on.

    Conventions.
    - A Python [str] is a list of 8-bit characters, read as the code points
      U+0000..U+00FF; the character classes below are Python's on that range.
    - A Python [float] produced by [difflib] is the exact rational
      [2*matches/length]; the comparisons against 0.7 and 0.6 agree with the
      floating-point ones for every string shorter than 2^50 characters.
    - [unidecode] (a third-party transliteration table) is a parameter.
    - The two loops that act on the outside world take what the world
      answers as parameters: whether a path exists, what sending a message
      or writing a file comes to.  A folder is the list of the names in it,
      compared as the strings they are. *)

From Stdlib Require Import Ascii String List Bool Arith NArith ZArith QArith Lia.
From Stdlib Require DecimalString DecimalNat.
Import ListNotations.
Local Close Scope Q_scope.
Local Open Scope nat_scope.
Local Open Scope list_scope.

(** ** Python strings *)
Module Py.

Definition str := list ascii.

(** String literals. *)
Definition py (s : string) : str := list_ascii_of_string s.

Definition code (c : ascii) : nat := nat_of_ascii c.

Definition between (lo hi : nat) (c : ascii) : bool :=
  (lo <=? code c) && (code c <=? hi).

(** [str.isspace], also the class [\s] and what [strip] and [split] remove. *)
Definition is_space (c : ascii) : bool :=
  between 9 13 c || between 28 32 c || (code c =? 133) || (code c =? 160).

(** The class [\d]. *)
Definition is_digit (c : ascii) : bool := between 48 57 c.

Definition is_upper_az (c : ascii) : bool := between 65 90 c.
Definition is_lower_az (c : ascii) : bool := between 97 122 c.
Definition is_ascii_letter (c : ascii) : bool := is_upper_az c || is_lower_az c.

(** [str.isalpha] on one character. *)
Definition is_alpha_char (c : ascii) : bool :=
  is_ascii_letter c || (code c =? 170) || (code c =? 181) || (code c =? 186)
  || between 192 214 c || between 216 246 c || between 248 255 c.

(** The class [\w]. *)
Definition is_word (c : ascii) : bool :=
  is_alpha_char c || is_digit c || (code c =? 95)
  || between 178 179 c || (code c =? 185) || between 188 190 c.

Definition is_ascii (c : ascii) : bool := code c <? 128.

Definition lower_char (c : ascii) : ascii :=
  if is_upper_az c || between 192 214 c || between 216 222 c
  then ascii_of_nat (code c + 32) else c.

(** [str.lower]. *)
Definition lower (s : str) : str := map lower_char s.

Definition char_eqb : ascii -> ascii -> bool := Ascii.eqb.

Fixpoint str_eqb (s t : str) : bool :=
  match s, t with
  | [], [] => true
  | c :: s', d :: t' => char_eqb c d && str_eqb s' t'
  | _, _ => false
  end.

(** [s < t] on strings: lexicographic on code points. *)
Fixpoint str_ltb (s t : str) : bool :=
  match s, t with
  | _, [] => false
  | [], _ :: _ => true
  | c :: s', d :: t' =>
      (code c <? code d) || ((code c =? code d) && str_ltb s' t')
  end.

Fixpoint dropwhile {A} (p : A -> bool) (l : list A) : list A :=
  match l with
  | [] => []
  | x :: l' => if p x then dropwhile p l' else l
  end.

Fixpoint takewhile {A} (p : A -> bool) (l : list A) : list A :=
  match l with
  | [] => []
  | x :: l' => if p x then x :: takewhile p l' else []
  end.

Definition lstrip (s : str) : str := dropwhile is_space s.
Definition rstrip (s : str) : str := rev (dropwhile is_space (rev s)).

(** [str.strip()]. *)
Definition strip (s : str) : str := rstrip (lstrip s).

(** [s.startswith(p)]. *)
Fixpoint startswith (s p : str) : bool :=
  match p, s with
  | [], _ => true
  | d :: p', c :: s' => char_eqb c d && startswith s' p'
  | _ :: _, [] => false
  end.

(** [s.endswith(p)]. *)
Definition endswith (s p : str) : bool := startswith (rev s) (rev p).

(** [sub in s]. *)
Fixpoint contains (sub s : str) : bool :=
  startswith s sub ||
  match s with
  | [] => false
  | _ :: s' => contains sub s'
  end.

(** [s.split()]: the maximal runs of non-whitespace characters, in order. *)
Definition starts_with_space (s : str) : bool :=
  match s with
  | c :: _ => is_space c
  | [] => true
  end.

Fixpoint split (s : str) : list str :=
  match s with
  | [] => []
  | c :: s' =>
      if is_space c then split s'
      else match split s' with
           | w :: ws =>
               if starts_with_space s' then [c] :: w :: ws else (c :: w) :: ws
           | [] => [[c]]
           end
  end.

(** [str.isalpha()]: at least one character, all alphabetic. *)
Definition isalpha (s : str) : bool :=
  match s with
  | [] => false
  | _ => forallb is_alpha_char s
  end.

(** [x in l] for a list of strings. *)
Definition str_in (x : str) (l : list str) : bool := existsb (str_eqb x) l.

(** [s.strip(chars)]: remove the characters of [chars] from both ends. *)
Definition strip_chars (chars : str) (s : str) : str :=
  let drop := fun c => existsb (char_eqb c) chars in
  rev (dropwhile drop (rev (dropwhile drop s))).

(** [s.split(sep)] for a one-character separator: the pieces between the
    separators, empty pieces included. *)
Fixpoint split_on (sep : ascii) (s : str) : list str :=
  match s with
  | [] => [[]]
  | c :: s' =>
      if char_eqb c sep then [] :: split_on sep s'
      else match split_on sep s' with
           | piece :: pieces => (c :: piece) :: pieces
           | [] => [[c]]
           end
  end.

(** [str(n)] for a natural number: its decimal digits. *)
Definition str_of_nat (n : nat) : str :=
  list_ascii_of_string (DecimalString.NilEmpty.string_of_uint (Nat.to_uint n)).

End Py.
Import Py.

(** ** The fragment of [re] used by the program *)
Module Re.

(** A compiled pattern, as seen by [re.sub]: from the character before the
    current position ([None] at the start of the string) and the text from
    the current position on, the length of the match there, if any.  None of
    the patterns of the program matches the empty string. *)
Definition pattern := option ascii -> str -> option nat.

(** [re.sub(p, repl, s)]: scan left to right; at a match, emit [repl] and
    resume after the match; otherwise copy one character.  [skip] counts the
    characters of the current match still to be passed over. *)
Fixpoint sub_from (p : pattern) (repl : str) (prev : option ascii) (skip : nat)
         (s : str) : str :=
  match s with
  | [] => []
  | c :: s' =>
      match skip with
      | S n => sub_from p repl (Some c) n s'
      | O =>
          match p prev s with
          | Some (S n) => repl ++ sub_from p repl (Some c) n s'
          | _ => c :: sub_from p repl (Some c) 0 s'
          end
      end
  end.

Definition sub (p : pattern) (repl : str) (s : str) : str :=
  sub_from p repl None 0 s.

(** [\b]: exactly one of the two neighbours is a word character. *)
Definition is_word_opt (c : option ascii) : bool :=
  match c with Some c => is_word c | None => false end.

Definition word_boundary (prev next : option ascii) : bool :=
  xorb (is_word_opt prev) (is_word_opt next).

(** Remove a literal prefix. *)
Fixpoint strip_prefix (p s : str) : option str :=
  match p, s with
  | [], _ => Some s
  | d :: p', c :: s' => if char_eqb c d then strip_prefix p' s' else None
  | _ :: _, [] => None
  end.

(** Remove a literal prefix, ignoring case (flag [re.IGNORECASE]; the
    literal is lower case). *)
Fixpoint strip_prefix_nocase (p s : str) : option str :=
  match p, s with
  | [], _ => Some s
  | d :: p', c :: s' =>
      if char_eqb (lower_char c) d then strip_prefix_nocase p' s' else None
  | _ :: _, [] => None
  end.

(** [$] without [re.MULTILINE]: the end, or just before a final newline. *)
Definition at_end (s : str) : bool :=
  match s with
  | [] => true
  | [c] => code c =? 10
  | _ => false
  end.

(** [(t1|t2|...)\b]: the alternatives are tried in order and one is kept
    only if a word boundary follows it.  Returns the text after it. *)
Fixpoint alternation_b (alts : list str) (s : str) : option str :=
  match alts with
  | [] => None
  | t :: alts' =>
      match strip_prefix t s with
      | Some rest =>
          if word_boundary (Some (last t "000"%char)) (hd_error rest)
          then Some rest else alternation_b alts' s
      | None => alternation_b alts' s
      end
  end.

(** [\b(t1|t2|...)\b\.?\s*]. *)
Definition words_dot_spaces (alts : list str) : pattern := fun prev s =>
  if word_boundary prev (hd_error s) then
    match alternation_b alts s with
    | Some rest =>
        let rest' := match rest with
                     | c :: r => if code c =? 46 then r else rest
                     | [] => rest
                     end in
        Some (length s - length (dropwhile is_space rest'))
    | None => None
    end
  else None.

(** A one-character class. *)
Definition char_class (cls : ascii -> bool) : pattern := fun _ s =>
  match s with
  | c :: _ => if cls c then Some 1 else None
  | [] => None
  end.

(** [cls+] for a character class. *)
Definition class_plus (cls : ascii -> bool) : pattern := fun _ s =>
  match length (takewhile cls s) with
  | O => None
  | n => Some n
  end.

(** [^lit cls*] with [re.IGNORECASE]. *)
Definition anchored_nocase_then (lit : str) (cls : ascii -> bool) : pattern :=
  fun prev s =>
    match prev with
    | Some _ => None
    | None =>
        match strip_prefix_nocase lit s with
        | Some rest => Some (length s - length (dropwhile cls rest))
        | None => None
        end
    end.

(** [lit\d+$]. *)
Definition lit_digits_end (lit : str) : pattern := fun _ s =>
  match strip_prefix lit s with
  | Some rest =>
      let rest' := dropwhile is_digit rest in
      if (length rest' <? length rest) && at_end rest'
      then Some (length s - length rest') else None
  | None => None
  end.

(** A literal. *)
Definition literal (lit : str) : pattern := fun _ s =>
  match strip_prefix lit s with
  | Some rest => Some (length s - length rest)
  | None => None
  end.

(** [l1\s+l2]. *)
Definition lit_spaces_lit (l1 l2 : str) : pattern := fun _ s =>
  match strip_prefix l1 s with
  | Some rest =>
      let rest' := dropwhile is_space rest in
      if length rest' <? length rest then
        match strip_prefix l2 rest' with
        | Some rest'' => Some (length s - length rest'')
        | None => None
        end
      else None
  | None => None
  end.

End Re.

(** ** The fragment of [os.path] used by the program *)
Module Os.

(** [s.rfind(c)], with [None] for -1. *)
Fixpoint rfind_from (c : ascii) (s : str) (i : nat) (found : option nat)
  : option nat :=
  match s with
  | [] => found
  | d :: s' => rfind_from c s' (S i) (if char_eqb d c then Some i else found)
  end.

Definition rfind (c : ascii) (s : str) : option nat := rfind_from c s 0 None.

(** [posixpath.splitext]: split at the last dot of the last path component,
    unless that component consists of leading dots only up to there. *)
Definition splitext (p : str) : str * str :=
  let sepIndex := rfind "/" p in
  let dotIndex := rfind "." p in
  match dotIndex with
  | None => (p, [])
  | Some d =>
      let filenameIndex := match sepIndex with None => 0 | Some i => S i end in
      if (filenameIndex <=? d)
         && existsb (fun c => negb (char_eqb c "."))
                    (firstn (d - filenameIndex) (skipn filenameIndex p))
      then (firstn d p, skipn d p)
      else (p, [])
  end.

(** [posixpath.join(a, b)] *)
Definition join (a b : str) : str :=
  if startswith b (py "/") then b
  else if match a with [] => true | _ => false end || endswith a (py "/")
       then a ++ b
       else a ++ py "/" ++ b.

End Os.

(** ** [automation.py]: utility functions *)
Module Automation.

(** A spreadsheet cell or a function argument: a missing value (NaN, for
    which [pd.isna] holds) or anything else, through its [str()]. *)
Inductive cell : Type :=
| NA
| Text (s : str).

(** [str(x)] *)
Definition str_of (x : cell) : str :=
  match x with
  | NA => py "nan"
  | Text s => s
  end.

(** The alternatives of the title pattern, in the order of the source. *)
Definition titles : list str :=
  map py ["mr"; "mrs"; "ms"; "miss"; "dr"; "prof"; "sir"; "dame"; "jr"; "sr";
          "ii"; "iii"; "iv"; "v"; "phd"; "md"; "dds"; "dvm"]%string.

Definition titles_re : Re.pattern := Re.words_dot_spaces titles.

(** [[^a-z\s]] *)
Definition not_letter_or_space (c : ascii) : bool :=
  negb (is_lower_az c || is_space c).

Section Normalize.

(** The transliteration of the [unidecode] package. *)
Variable unidecode : str -> str.

Definition normalize_name (name : cell) : str :=
  match name with
  | NA => []
  | Text name =>
      let name := strip name in
      let name := lower (unidecode name) in
      let name := Re.sub titles_re [] name in
      let name := Re.sub (Re.char_class not_letter_or_space) [] name in
      let name := strip (Re.sub (Re.class_plus is_space) (py " ") name) in
      name
  end.

End Normalize.

(** [[a-zA-Z0-9._%+-]] *)
Definition local_char (c : ascii) : bool :=
  is_ascii_letter c || is_digit c || (code c =? 46) || (code c =? 95)
  || (code c =? 37) || (code c =? 43) || (code c =? 45).

(** [[a-zA-Z0-9.-]] *)
Definition domain_char (c : ascii) : bool :=
  is_ascii_letter c || is_digit c || (code c =? 46) || (code c =? 45).

(** [\.[a-zA-Z]{2,}$] at the start of [t]. *)
Definition tld_end (t : str) : bool :=
  match t with
  | c :: u =>
      (code c =? 46) &&
      let r := dropwhile is_ascii_letter u in
      (2 <=? length u - length r) && Re.at_end r
  | [] => false
  end.

(** [re.match(r"^[a-zA-Z0-9._%+-]+@[a-zA-Z0-9.-]+\.[a-zA-Z]{2,}$", s)]: the
    local part is the longest run of its class; the domain run is tried from
    its longest length down to one character. *)
Definition email_re_match (s : str) : bool :=
  let rest := dropwhile local_char s in
  (length rest <? length s) &&
  match rest with
  | c :: r =>
      (code c =? 64) &&
      existsb (fun k => tld_end (skipn k r))
              (rev (seq 1 (length (takewhile domain_char r))))
  | [] => false
  end.

Definition is_valid_email (email : cell) : bool :=
  match email with
  | NA => false
  | Text email => email_re_match (lower (strip email))
  end.

(** The table [corrections], in insertion order. *)
Definition corrections : list (Re.pattern * str) :=
  [ (Re.literal (py "gmsil.com"), py "gmail.com");
    (Re.literal (py "gnail.com"), py "gmail.com");
    (Re.literal (py "@gmail,com"), py "@gmail.com");
    (Re.literal (py "@yahoo,com"), py "@yahoo.com");
    (Re.literal (py "@outlook,com"), py "@outlook.com");
    (Re.lit_spaces_lit (py "yahoo") (py "com"), py "yahoo.com");
    (Re.lit_spaces_lit (py "hotmail") (py "com"), py "hotmail.com");
    (Re.lit_spaces_lit (py "outlook") (py "com"), py "outlook.com") ].

Definition clean_email (email : cell) : str :=
  match email with
  | NA => []
  | Text email =>
      let email := lower (strip email) in
      let email := Re.sub (Re.class_plus is_space) [] email in
      let email :=
        fold_left (fun email '(pattern, repl) => Re.sub pattern repl email)
                  corrections email in
      if is_valid_email (Text email) then email else []
  end.

(** A [dict] from strings to strings, in insertion order. *)
Definition dict := list (str * str).

Fixpoint dict_get (d : dict) (k : str) : option str :=
  match d with
  | [] => None
  | (k', v) :: d' => if str_eqb k' k then Some v else dict_get d' k
  end.

(** [k in d] *)
Definition dict_mem (d : dict) (k : str) : bool :=
  match dict_get d k with Some _ => true | None => false end.

(** [d[k] = v]: a present key keeps its place and takes the new value; a
    new key goes to the end. *)
Fixpoint dict_set (d : dict) (k v : str) : dict :=
  match d with
  | [] => [(k, v)]
  | (k', v') :: d' =>
      if str_eqb k' k then (k', v) :: d' else (k', v') :: dict_set d' k v
  end.

(** [list(d.keys())] *)
Definition dict_keys (d : dict) : list str := map fst d.

(** [[_\-\s]] *)
Definition separator_char (c : ascii) : bool :=
  (code c =? 95) || (code c =? 45) || is_space c.

Section Index.

Variable unidecode : str -> str.

(** The body of the loop of [build_cert_map] up to the insertion: the key
    under which a directory entry is filed, or [None] where the loop skips
    the entry. *)
Definition cert_key (filename : str) : option str :=
  if negb (endswith (lower filename) (py ".pdf")) then None
  else
    let base := fst (Os.splitext filename) in
    let cleaned :=
      Re.sub (Re.anchored_nocase_then (py "certificate") separator_char) [] base in
    let cleaned := Re.sub (Re.lit_digits_end (py "_pg")) [] cleaned in
    let cleaned := Re.sub (Re.lit_digits_end (py "_")) [] cleaned in
    let cleaned := strip cleaned in
    let norm_key := normalize_name unidecode (Text cleaned) in
    match norm_key with
    | [] => None
    | _ => Some norm_key
    end.

(** [build_cert_map(folder)], from the listing of the folder: [None] when
    the folder does not exist, else [os.listdir(folder)] in its order. *)
Definition build_cert_map (listing : option (list str)) : dict :=
  match listing with
  | None => []
  | Some files =>
      fold_left (fun certs filename =>
                   match cert_key filename with
                   | Some norm_key => dict_set certs norm_key filename
                   | None => certs
                   end)
                files []
  end.

End Index.

(** [extract_first_last_tokens(name)] *)
Definition extract_first_last_tokens (name : str) : str :=
  let parts := split name in
  if 2 <=? length parts then hd [] parts ++ py " " ++ last parts []
  else match parts with
       | p :: _ => p
       | [] => []
       end.

End Automation.

(** ** The fragment of [difflib] used by the program *)
Module Difflib.

(** [_calculate_ratio(matches, length)] *)
Definition calculate_ratio (matches length : nat) : Q :=
  match length with
  | O => 1%Q
  | S _ => Qmake (Z.of_nat (2 * matches)) (Pos.of_nat length)
  end.

(** [x >= y] on scores. *)
Definition Qgeb (x y : Q) : bool := Qle_bool y x.

(** A [Match(a, b, size)] triple. *)
Definition Match := (nat * nat * nat)%type.

Definition match_size (m : Match) : nat := snd m.

(** [SequenceMatcher(None, a, b)]: no junk predicate, [autojunk] on. *)
Section SequenceMatcher.

Variables a b : str.

Definition count (c : ascii) (s : str) : nat := length (filter (char_eqb c) s).

(** [__chain_b]: with at least 200 characters in [b], a character filling
    more than 1% + 1 of its positions is popular and leaves [b2j]. *)
Definition bpopular (c : ascii) : bool :=
  (200 <=? length b) && (length b / 100 + 1 <? count c b).

Fixpoint indices_from (c : ascii) (s : str) (j : nat) : list nat :=
  match s with
  | [] => []
  | d :: s' =>
      if char_eqb d c then j :: indices_from c s' (S j)
      else indices_from c s' (S j)
  end.

(** [b2j.get(c, nothing)]: the positions of [c] in [b], ascending. *)
Definition b2j_get (c : ascii) : list nat :=
  if bpopular c then [] else indices_from c b 0.

(** [bjunk] stays empty, since [isjunk] is [None]. *)
Definition isbjunk (c : ascii) : bool := false.

Definition item (s : str) (i : nat) : ascii := nth i s "000"%char.

Fixpoint lookup (j : nat) (m : list (nat * nat)) : option nat :=
  match m with
  | [] => None
  | (j', k) :: m' => if j' =? j then Some k else lookup j m'
  end.

(** [j2len.get(j-1, 0)]; the key -1 is never present. *)
Definition j2lenget_pred (j2len : list (nat * nat)) (j : nat) : nat :=
  match j with
  | O => 0
  | S j' => match lookup j' j2len with Some k => k | None => 0 end
  end.

Section FindLongestMatch.

Variables alo ahi blo bhi : nat.

(** The loop over [j] in [b2j.get(a[i], nothing)].  The lengths [k] never
    exceed [i - alo + 1], so [i-k+1] and [j-k+1] are [i+1-k] and [j+1-k]. *)
Fixpoint scan_row (i : nat) (j2len : list (nat * nat)) (js : list nat)
         (newj2len : list (nat * nat)) (best : Match)
  : list (nat * nat) * Match :=
  match js with
  | [] => (newj2len, best)
  | j :: js' =>
      if j <? blo then scan_row i j2len js' newj2len best
      else if bhi <=? j then (newj2len, best)
      else
        let k := j2lenget_pred j2len j + 1 in
        let best' := if match_size best <? k then (i + 1 - k, j + 1 - k, k)
                     else best in
        scan_row i j2len js' ((j, k) :: newj2len) best'
  end.

(** The loop over [i] in [range(alo, ahi)]. *)
Definition scan_rows : Match :=
  snd (fold_left
         (fun '(j2len, best) i => scan_row i j2len (b2j_get (item a i)) [] best)
         (seq alo (ahi - alo))
         ([], (alo, blo, 0))).

(** The two loops that extend a match backwards; [junk] selects the loop
    over non-junk ([false]) or junk ([true]) elements.  The recursion is
    on [besti], which the loop decrements. *)
Fixpoint extend_back (junk : bool) (besti bestj bestsize : nat) : Match :=
  match besti with
  | O => (besti, bestj, bestsize)
  | S i' =>
      if (alo <? besti) && (blo <? bestj)
         && Bool.eqb (isbjunk (item b (bestj - 1))) junk
         && char_eqb (item a i') (item b (bestj - 1))
      then extend_back junk i' (bestj - 1) (bestsize + 1)
      else (besti, bestj, bestsize)
  end.

(** The two loops that extend a match forwards; [gap] is
    [ahi - (besti + bestsize)], which the loop decrements. *)
Fixpoint extend_forward (junk : bool) (gap : nat) (besti bestj bestsize : nat)
  : Match :=
  match gap with
  | O => (besti, bestj, bestsize)
  | S gap' =>
      if (besti + bestsize <? ahi) && (bestj + bestsize <? bhi)
         && Bool.eqb (isbjunk (item b (bestj + bestsize))) junk
         && char_eqb (item a (besti + bestsize)) (item b (bestj + bestsize))
      then extend_forward junk gap' besti bestj (bestsize + 1)
      else (besti, bestj, bestsize)
  end.

Definition find_longest_match : Match :=
  let '(besti, bestj, bestsize) := scan_rows in
  let '(besti, bestj, bestsize) := extend_back false besti bestj bestsize in
  let '(besti, bestj, bestsize) :=
    extend_forward false (ahi - (besti + bestsize)) besti bestj bestsize in
  let '(besti, bestj, bestsize) := extend_back true besti bestj bestsize in
  extend_forward true (ahi - (besti + bestsize)) besti bestj bestsize.

End FindLongestMatch.

(** The [while queue] loop of [get_matching_blocks]; the head of the list is
    the top of the stack.  Every round lowers the sum of [2*(ahi-alo)+1]
    over the queue, so [2*len(a)+1] rounds are enough. *)
Fixpoint blocks_loop (fuel : nat) (queue : list (nat * nat * nat * nat))
         (matching_blocks : list Match) : list Match :=
  match fuel, queue with
  | S fuel', (alo, ahi, blo, bhi) :: queue' =>
      let x := find_longest_match alo ahi blo bhi in
      let '(i, j, k) := x in
      match k with
      | O => blocks_loop fuel' queue' matching_blocks
      | S _ =>
          let queue1 :=
            if (alo <? i) && (blo <? j) then (alo, i, blo, j) :: queue'
            else queue' in
          let queue2 :=
            if (i + k <? ahi) && (j + k <? bhi) then (i + k, ahi, j + k, bhi) :: queue1
            else queue1 in
          blocks_loop fuel' queue2 (matching_blocks ++ [x])
      end
  | _, _ => matching_blocks
  end.

(** Order of tuples. *)
Definition match_leb (x y : Match) : bool :=
  let '(i1, j1, k1) := x in
  let '(i2, j2, k2) := y in
  (i1 <? i2) || ((i1 =? i2) && ((j1 <? j2) || ((j1 =? j2) && (k1 <=? k2)))).

Fixpoint insert_sorted (x : Match) (l : list Match) : list Match :=
  match l with
  | [] => [x]
  | y :: l' => if match_leb x y then x :: l else y :: insert_sorted x l'
  end.

(** [matching_blocks.sort()] *)
Definition sort_blocks (l : list Match) : list Match :=
  fold_right insert_sorted [] l.

(** The loop that collapses adjacent blocks. *)
Fixpoint collapse_adjacent (cur : Match) (blocks non_adjacent : list Match)
  : list Match * Match :=
  match blocks with
  | [] => (non_adjacent, cur)
  | (i2, j2, k2) :: blocks' =>
      let '(i1, j1, k1) := cur in
      if (i1 + k1 =? i2) && (j1 + k1 =? j2)
      then collapse_adjacent (i1, j1, k1 + k2) blocks' non_adjacent
      else
        let non_adjacent' :=
          match k1 with O => non_adjacent | S _ => non_adjacent ++ [cur] end in
        collapse_adjacent (i2, j2, k2) blocks' non_adjacent'
  end.

Definition get_matching_blocks : list Match :=
  let la := length a in
  let lb := length b in
  let matching_blocks :=
    sort_blocks (blocks_loop (2 * la + 1) [(0, la, 0, lb)] []) in
  let '(non_adjacent, cur) := collapse_adjacent (0, 0, 0) matching_blocks [] in
  let non_adjacent :=
    match match_size cur with O => non_adjacent | S _ => non_adjacent ++ [cur] end in
  non_adjacent ++ [(la, lb, 0)].

Definition ratio : Q :=
  let matches := list_sum (map match_size get_matching_blocks) in
  calculate_ratio matches (length a + length b).

(** [fullbcount.get(elt, 0)] *)
Definition fullbcount (elt : ascii) : Z := Z.of_nat (count elt b).

Fixpoint avail_get (elt : ascii) (avail : list (ascii * Z)) : option Z :=
  match avail with
  | [] => None
  | (e, n) :: avail' => if char_eqb e elt then Some n else avail_get elt avail'
  end.

(** The loop of [quick_ratio]; a later binding of [avail] shadows an
    earlier one. *)
Fixpoint quick_loop (s : str) (avail : list (ascii * Z)) (matches : nat) : nat :=
  match s with
  | [] => matches
  | elt :: s' =>
      let numb := match avail_get elt avail with
                  | Some n => n
                  | None => fullbcount elt
                  end in
      quick_loop s' ((elt, (numb - 1)%Z) :: avail)
                 (if (0 <? numb)%Z then matches + 1 else matches)
  end.

Definition quick_ratio : Q :=
  calculate_ratio (quick_loop a [] 0) (length a + length b).

Definition real_quick_ratio : Q :=
  calculate_ratio (Nat.min (length a) (length b)) (length a + length b).

End SequenceMatcher.

(** [(s1, x1) > (s2, x2)] on (score, word) pairs. *)
Definition pair_gtb (p q : Q * str) : bool :=
  let '(s1, x1) := p in
  let '(s2, x2) := q in
  if Qeq_bool s1 s2 then str_ltb x2 x1 else negb (Qle_bool s1 s2).

(** [max(l)], with [None] for the empty list: the first of the greatest. *)
Fixpoint max_from (best : Q * str) (l : list (Q * str)) : Q * str :=
  match l with
  | [] => best
  | p :: l' => max_from (if pair_gtb p best then p else best) l'
  end.

(** [heapq.nlargest(1, result)] *)
Definition nlargest1 (result : list (Q * str)) : list (Q * str) :=
  match result with
  | [] => []
  | p :: l => [max_from p l]
  end.

(** The body of [get_close_matches] after its two argument checks, with
    [n = 1]; the matcher has the candidate as its first and [word] as its
    second sequence. *)
Definition close_matches (word : str) (possibilities : list str) (cutoff : Q)
  : list str :=
  let result :=
    flat_map (fun x =>
                if Qgeb (real_quick_ratio x word) cutoff
                   && Qgeb (quick_ratio x word) cutoff
                   && Qgeb (ratio x word) cutoff
                then [(ratio x word, x)] else [])
             possibilities in
  map snd (nlargest1 result).

(** What [get_close_matches] comes to: a list, or [ValueError]. *)
Inductive checked (A : Type) : Type :=
| Valid (x : A)
| ValueError.
Arguments Valid {A} x.
Arguments ValueError {A}.

(** [get_close_matches(word, possibilities, n=1, cutoff)]: [n > 0] holds,
    and a cutoff outside [0, 1] raises [ValueError]. *)
Definition get_close_matches (word : str) (possibilities : list str) (cutoff : Q)
  : checked (list str) :=
  if negb (Qle_bool 0 cutoff && Qle_bool cutoff 1) then ValueError
  else Valid (close_matches word possibilities cutoff).

End Difflib.

(** ** [automation.py]: matching roster rows against the certificate index *)
Module Report.
Import Automation.

(** The values of the field ['match_type'] other than [None]. *)
Inductive tier : Type := exact | fuzzy | partial.

(** The values of the field ['status']. *)
Inductive status_t : Type :=
| pending
| invalid_email
| matched
| low_confidence_match
| certificate_not_found.

(** One entry of [results]. *)
Record record : Type := mk_record {
  index : nat;
  original_name : str;
  original_email : cell;
  cleaned_email : str;
  normalized_name : str;
  valid_email : bool;
  certificate_found : bool;
  certificate_filename : option str;
  match_type : option tier;
  match_confidence : Q;
  status : status_t
}.

(** The exceptions a subscript or [get_close_matches] can raise. *)
Inductive exn : Type := KeyError | IndexError | ValueError.

Inductive outcome (A : Type) : Type :=
| Ok (x : A)
| Raise (e : exn).
Arguments Ok {A} x.
Arguments Raise {A} e.

(** [d[k]] *)
Definition subscript (d : dict) (k : str) : outcome str :=
  match dict_get d k with
  | Some v => Ok v
  | None => Raise KeyError
  end.

Definition bind {A B} (m : outcome A) (f : A -> outcome B) : outcome B :=
  match m with
  | Ok x => f x
  | Raise e => Raise e
  end.

Notation "x <- m ;; k" := (bind m (fun x => k))
  (at level 61, m at next level, right associativity).

(** [fuzzy_match(name, cert_keys, threshold)] *)
Definition fuzzy_match (name : str) (cert_keys : list str) (threshold : Q)
  : outcome (option str) :=
  match Difflib.get_close_matches name cert_keys threshold with
  | Difflib.Valid (k :: _) => Ok (Some k)
  | Difflib.Valid [] => Ok None
  | Difflib.ValueError => Raise ValueError
  end.

(** [max(l, key=key)] from a first element on: a later element wins only
    with a strictly greater key. *)
Fixpoint max_by (key : str -> Q) (best : str) (l : list str) : str :=
  match l with
  | [] => best
  | k :: l' => max_by key (if Qle_bool (key k) (key best) then best else k) l'
  end.

(** The assignments of a successful tier. *)
Definition set_match (r : record) (filename : str) (t : tier) (confidence : Q)
           (st : status_t) : record :=
  {| index := index r;
     original_name := original_name r;
     original_email := original_email r;
     cleaned_email := cleaned_email r;
     normalized_name := normalized_name r;
     valid_email := valid_email r;
     certificate_found := true;
     certificate_filename := Some filename;
     match_type := Some t;
     match_confidence := confidence;
     status := st |}.

(** [result['status'] = st] *)
Definition set_status (r : record) (st : status_t) : record :=
  {| index := index r;
     original_name := original_name r;
     original_email := original_email r;
     cleaned_email := cleaned_email r;
     normalized_name := normalized_name r;
     valid_email := valid_email r;
     certificate_found := certificate_found r;
     certificate_filename := certificate_filename r;
     match_type := match_type r;
     match_confidence := match_confidence r;
     status := st |}.

(** The three tiers of the loop body ("Try 1" to "Try 3"). *)
Definition match_tiers (cert_map : dict) (cert_keys : list str) (norm_name : str)
           (result : record) : outcome record :=
  if dict_mem cert_map norm_name then
    filename <- subscript cert_map norm_name ;;
    Ok (set_match result filename exact 1%Q matched)
  else
    fuzzy_key <- fuzzy_match norm_name cert_keys (7 # 10)%Q ;;
    match fuzzy_key with
    | Some ((_ :: _) as fuzzy_key) =>
        let confidence := Difflib.ratio norm_name fuzzy_key in
        filename <- subscript cert_map fuzzy_key ;;
        Ok (set_match result filename fuzzy confidence
                      (if Difflib.Qgeb confidence (7 # 10)%Q then matched
                       else low_confidence_match))
    | _ =>
        first_name <-
          match norm_name with
          | [] => Ok []
          | _ => match split norm_name with
                 | w :: _ => Ok w
                 | [] => Raise IndexError
                 end
          end ;;
        let partial_match :=
          filter (fun k => startswith k first_name || contains first_name k)
                 cert_keys in
        match partial_match with
        | k0 :: rest =>
            let best_match := max_by (fun k => Difflib.ratio norm_name k) k0 rest in
            let confidence := Difflib.ratio norm_name best_match in
            if Difflib.Qgeb confidence (6 # 10)%Q then
              filename <- subscript cert_map best_match ;;
              Ok (set_match result filename partial confidence matched)
            else Ok (set_status result certificate_not_found)
        | [] => Ok (set_status result certificate_not_found)
        end
    end.

(** A row of the sheet: its first two cells. *)
Definition row : Type := (cell * cell)%type.

Section Validate.

Variable unidecode : str -> str.

(** The body of the [for idx] loop. *)
Definition process_row (cert_map : dict) (cert_keys : list str) (idx : nat)
           (r : row) : outcome record :=
  let name_raw := strip (str_of (fst r)) in
  let email_raw := snd r in
  let email := clean_email email_raw in
  let norm_name := normalize_name unidecode (Text name_raw) in
  let result :=
    {| index := idx;
       original_name := name_raw;
       original_email := email_raw;
       cleaned_email := email;
       normalized_name := norm_name;
       valid_email := match email with [] => false | _ => true end;
       certificate_found := false;
       certificate_filename := None;
       match_type := None;
       match_confidence := 0%Q;
       status := pending |} in
  if negb (valid_email result) then Ok (set_status result invalid_email)
  else match_tiers cert_map cert_keys norm_name result.

Fixpoint rows_loop (cert_map : dict) (cert_keys : list str) (idx : nat)
         (rows : list row) (results : list record) : outcome (list record) :=
  match rows with
  | [] => Ok results
  | r :: rows' =>
      result <- process_row cert_map cert_keys idx r ;;
      rows_loop cert_map cert_keys (S idx) rows' (results ++ [result])
  end.

(** The header test on the first row. *)
Definition looks_like_header (first_row : row) : bool :=
  contains (py "name") (lower (str_of (fst first_row)))
  && contains (py "email") (lower (str_of (snd first_row))).

Definition validate_data_and_certificates (df : list row) (cert_map : dict)
  : outcome (list record) :=
  let cert_keys := dict_keys cert_map in
  match df with
  | [] => Ok []
  | first_row :: _ =>
      let start_idx := if looks_like_header first_row then 1 else 0 in
      rows_loop cert_map cert_keys start_idx (skipn start_idx df) []
  end.

End Validate.

End Report.

(** ** [automation.py]: the sending loop of [main] *)
Module Sender.
Import Automation Report.

(** What a call of [send_certificate] comes to: it returns [True] or
    [False], or raises. *)
Inductive sending : Type := returns_true | returns_false | raises.

(** The reasons written after [FAILED]. *)
Inductive failure : Type := file_missing | send_failed | exception.

(** The lines written to the log file. *)
Inductive log_line : Type :=
| SUCCESS (email name cert_filename : str)
| FAILED (email name : str) (details : failure)
| SKIPPED (email name : str) (st : status_t).

(** The arguments of a call of [send_certificate]. *)
Record call : Type := mk_call {
  to_name : str;
  to_email : str;
  cert_path : str;
  cert_filename : str
}.

(** The counters of the loop, the lines logged and the calls made. *)
Record tally : Type := mk_tally {
  successful : nat;
  failed : nat;
  skipped : nat;
  log : list log_line;
  calls : list call
}.

Definition start : tally :=
  {| successful := 0; failed := 0; skipped := 0; log := []; calls := [] |}.

(** The loop ends, or [os.path.join] raises on a missing filename. *)
Inductive attempt (A : Type) : Type :=
| Finished (x : A)
| TypeError.
Arguments Finished {A} x.
Arguments TypeError {A}.

Section Loop.

Variable cert_folder : str.

(** [os.path.exists(path)] when the loop is at the row of position [pos]. *)
Variable path_exists : nat -> str -> bool.

(** [send_certificate(name, email, cert_path, cert_filename, server)] when
    the loop is at the row of position [pos]. *)
Variable send_certificate : nat -> str -> str -> str -> str -> sending.

(** The body of [for _, row in validation_df.iterrows()]. *)
Definition send_row (pos : nat) (t : tally) (row : record) : attempt tally :=
  match status row with
  | matched | low_confidence_match =>
      match certificate_filename row with
      | None => TypeError
      | Some filename =>
          let path := Os.join cert_folder filename in
          if negb (path_exists pos path) then
            Finished {| successful := successful t;
                        failed := S (failed t);
                        skipped := skipped t;
                        log := log t ++ [FAILED (cleaned_email row)
                                                (original_name row) file_missing];
                        calls := calls t |}
          else
            let made :=
              calls t ++ [mk_call (original_name row) (cleaned_email row)
                                  path filename] in
            match send_certificate pos (original_name row) (cleaned_email row)
                                   path filename with
            | returns_true =>
                Finished {| successful := S (successful t);
                            failed := failed t;
                            skipped := skipped t;
                            log := log t ++ [SUCCESS (cleaned_email row)
                                                     (original_name row) filename];
                            calls := made |}
            | returns_false =>
                Finished {| successful := successful t;
                            failed := S (failed t);
                            skipped := skipped t;
                            log := log t ++ [FAILED (cleaned_email row)
                                                    (original_name row) send_failed];
                            calls := made |}
            | raises =>
                Finished {| successful := successful t;
                            failed := S (failed t);
                            skipped := skipped t;
                            log := log t ++ [FAILED (cleaned_email row)
                                                    (original_name row) exception];
                            calls := made |}
            end
      end
  | st =>
      Finished {| successful := successful t;
                  failed := failed t;
                  skipped := S (skipped t);
                  log := log t ++ [SKIPPED (cleaned_email row) (original_name row) st];
                  calls := calls t |}
  end.

Fixpoint send_loop (pos : nat) (t : tally) (rows : list record) : attempt tally :=
  match rows with
  | [] => Finished t
  | row :: rows' =>
      match send_row pos t row with
      | Finished t' => send_loop (S pos) t' rows'
      | TypeError => TypeError
      end
  end.

End Loop.

End Sender.

(** ** [rename.py]: the skip-line predicate *)
Module Rename.

Definition skip_keywords : list str :=
  map py ["certificate"; "certifies"; "congratulations"; "participant";
          "diploma"; "completion"; "attendance"; "workshop"; "seminar";
          "course"; "training"; "program"; "event"; "this"; "is awarded to";
          "hackathon"; "team darion"; "darion"; "date"; "signed"; "winner";
          "certificate of"; "issued to"; "presented to"; "name"; "student";
          "the"; "and"; "for"; "this is to"; "we present"; "in recognition of";
          "please find"; "below"; "attached"; "email"; "gmail"; "outlook"]%string.

(** The first words that keep a line of plain words from being a name. *)
Definition administrative_words : list str :=
  map py ["certificate"; "this"; "issued"; "presented"; "participant";
          "congratulations"]%string.

Definition should_skip_line (line : str) : bool :=
  let line_lower := strip (lower line) in
  let words := split line in
  if (2 <=? length words) && forallb isalpha words
     && negb (str_in (lower (hd [] words)) administrative_words)
  then false
  else existsb (fun kw => contains kw line_lower) skip_keywords.

(** The outcome of a function that returns or raises [ValueError]. *)
Inductive result (A : Type) : Type :=
| Return (x : A)
| ValueError.
Arguments Return {A} x.
Arguments ValueError {A}.

(** The class of the characters [<], [>], [:], the double quote, [/], the
    backslash, [|], [?] and [*]. *)
Definition reserved_char (c : ascii) : bool :=
  existsb (Nat.eqb (code c)) [60; 62; 58; 34; 47; 92; 124; 63; 42].

(** [[^\w\s\-\_]] *)
Definition unsafe_char (c : ascii) : bool :=
  negb (is_word c || is_space c || (code c =? 45) || (code c =? 95)).

Definition sanitize_filename (name : str) : result str :=
  let name := Re.sub (Re.char_class reserved_char) (py "_") name in
  let name := Re.sub (Re.char_class unsafe_char) [] name in
  let name := strip (Re.sub (Re.class_plus is_space) (py " ") name) in
  let name := strip_chars (py " ._-") name in
  match name with
  | [] => ValueError
  | _ => Return (firstn 50 name)
  end.

(** [[^a-zA-Z\s]] *)
Definition not_ascii_letter_or_space (c : ascii) : bool :=
  negb (is_ascii_letter c || is_space c).

(** The two substitutions and the [strip] that clean a candidate line. *)
Definition clean_line (line : str) : str :=
  let clean_name := Re.sub (Re.char_class not_ascii_letter_or_space) (py " ") line in
  strip (Re.sub (Re.class_plus is_space) (py " ") clean_name).

(** [len(clean_name) >= 2 and clean_name.lower() != 'name'] *)
Definition usable_name (clean_name : str) : bool :=
  (2 <=? length clean_name) && negb (str_eqb (lower clean_name) (py "name")).

(** The scan shared by both attempts: the cleaned text of the first line
    that is not skipped and cleans to a usable name. *)
Fixpoint first_usable_name (lines : list str) : option str :=
  match lines with
  | [] => None
  | line :: lines' =>
      if should_skip_line line then first_usable_name lines'
      else
        let clean_name := clean_line line in
        if usable_name clean_name then Some clean_name
        else first_usable_name lines'
  end.

(** [extract_participant_name_from_page(page)], from what the page gives:
    [text] is [page.extract_text()] ([None] when there is none) and
    [ranked] the line texts of [line_data] after its sort by font size,
    empty when the page has no words or the font analysis raised. *)
Definition extract_participant_name_from_page (text : option str)
           (ranked : list str) : result str :=
  match text with
  | None => ValueError
  | Some [] => ValueError
  | Some text =>
      let lines :=
        filter (fun line => negb (Nat.eqb (length line) 0))
               (map strip (split_on "010"%char text)) in
      match lines with
      | [] => ValueError
      | _ =>
          match first_usable_name (firstn 3 ranked) with
          | Some clean_name => Return clean_name
          | None =>
              match first_usable_name lines with
              | Some clean_name => Return clean_name
              | None => ValueError
              end
          end
      end
  end.

(** *** The renaming loop of [split_and_rename_certificates] *)

(** A page as the loop meets it: opening it or reading it raises, or it
    gives its text and its lines ranked by font size. *)
Inductive page : Type :=
| unreadable
| readable (text : option str) (ranked : list str).

(** What writing the page to [output_path] comes to: the file is written;
    or nothing is created (reading the page or [open] raised); or the file
    is created and [write] raised. *)
Inductive writing : Type := written | not_created | left_unfinished.

(** [used_names]: a [dict] from names to counts. *)
Definition counts := list (str * nat).

Fixpoint counts_get (d : counts) (k : str) : option nat :=
  match d with
  | [] => None
  | (k', v) :: d' => if str_eqb k' k then Some v else counts_get d' k
  end.

Fixpoint counts_set (d : counts) (k : str) (v : nat) : counts :=
  match d with
  | [] => [(k, v)]
  | (k', v') :: d' =>
      if str_eqb k' k then (k', v) :: d' else (k', v') :: counts_set d' k v
  end.

(** The counters of the loop, [used_names], and the names in the output
    folder. *)
Record run : Type := mk_run {
  processed : nat;
  skipped : nat;
  used_names : counts;
  folder : list str
}.

(** [f"{final_name}_{counter}.pdf"] *)
Definition numbered (final_name : str) (counter : nat) : str :=
  final_name ++ py "_" ++ str_of_nat counter ++ py ".pdf".

(** The [while os.path.exists(output_path)] loop from [counter] on, with the
    name of the round before found taken; [None] when [fuel] rounds all
    find their name taken. *)
Fixpoint next_free (files : list str) (final_name : str) (fuel counter : nat)
  : option str :=
  match fuel with
  | O => None
  | S fuel' =>
      let output_filename := numbered final_name counter in
      if str_in output_filename files
      then next_free files final_name fuel' (S counter)
      else Some output_filename
  end.

(** "Create filename" and "Avoid overwriting". *)
Definition free_filename (files : list str) (final_name : str) : option str :=
  let output_filename := final_name ++ py ".pdf" in
  if str_in output_filename files
  then next_free files final_name (S (length files)) 1
  else Some output_filename.

(** The [except] branch. *)
Definition skip_page (st : run) (used : counts) (files : list str) : run :=
  {| processed := processed st;
     skipped := S (skipped st);
     used_names := used;
     folder := files |}.

Section Loop.

(** Writing page [page_idx] to the file of the given name. *)
Variable write_page : nat -> str -> writing.

(** The body of [for page_idx in range(total_pages)]; [None] when the
    search for a free name runs out of fuel. *)
Definition rename_page (page_idx : nat) (st : run) (p : page) : option run :=
  match p with
  | unreadable => Some (skip_page st (used_names st) (folder st))
  | readable text ranked =>
      match extract_participant_name_from_page text ranked with
      | ValueError => Some (skip_page st (used_names st) (folder st))
      | Return raw_name =>
          match sanitize_filename raw_name with
          | ValueError => Some (skip_page st (used_names st) (folder st))
          | Return name =>
              let '(final_name, used) :=
                match counts_get (used_names st) name with
                | Some count =>
                    (name ++ py "_" ++ str_of_nat (S count),
                     counts_set (used_names st) name (S count))
                | None => (name, counts_set (used_names st) name 0)
                end in
              match free_filename (folder st) final_name with
              | None => None
              | Some output_filename =>
                  match write_page page_idx output_filename with
                  | written =>
                      Some {| processed := S (processed st);
                              skipped := skipped st;
                              used_names := used;
                              folder := folder st ++ [output_filename] |}
                  | left_unfinished =>
                      Some (skip_page st used (folder st ++ [output_filename]))
                  | not_created => Some (skip_page st used (folder st))
                  end
              end
          end
      end
  end.

Fixpoint rename_loop (page_idx : nat) (st : run) (pages : list page)
  : option run :=
  match pages with
  | [] => Some st
  | p :: pages' =>
      match rename_page page_idx st p with
      | Some st' => rename_loop (S page_idx) st' pages'
      | None => None
      end
  end.

End Loop.

(** The state before the loop, in a folder that holds [files]. *)
Definition fresh_run (files : list str) : run :=
  {| processed := 0; skipped := 0; used_names := []; folder := files |}.

End Rename.

(** ** Vocabulary of the statements *)
Module Vocabulary.
Import Automation Report.

(** Words joined by single spaces: the shape of a name key. *)
Fixpoint join_sp (ws : list str) : str :=
  match ws with
  | [] => []
  | [w] => w
  | w :: ws' => w ++ py " " ++ join_sp ws'
  end.

(** A line laid out as leading whitespace followed by words, each with the
    whitespace that follows it. *)
Definition flatten (lead : str) (toks : list (str * str)) : str :=
  lead ++ concat (map (fun t => fst t ++ snd t) toks).

Definition all_space (s : str) : bool := forallb is_space s.
Definition no_space (s : str) : bool := forallb (fun c => negb (is_space c)) s.

(** A non-empty run of non-whitespace characters. *)
Definition is_token (w : str) : bool :=
  match w with [] => false | _ => no_space w end.

(** Every word is followed by whitespace, except possibly the last. *)
Fixpoint well_spaced (toks : list (str * str)) : bool :=
  match toks with
  | [] => true
  | [(w, sp)] => is_token w && all_space sp
  | (w, sp) :: toks' =>
      is_token w && all_space sp && negb (Nat.eqb (length sp) 0) && well_spaced toks'
  end.

(** The transliteration restricted to its ASCII fast path: characters
    outside ASCII are dropped.  It stands for [unidecode] in examples whose
    strings are ASCII. *)
Definition unidecode_ascii_range (s : str) : str := filter is_ascii s.

(** The last directory entry that is filed under [k]. *)
Definition last_filed (key_of : str -> option str) (k : str) (files : list str)
  : option str :=
  find (fun f => match key_of f with
                 | Some k' => str_eqb k' k
                 | None => false
                 end) (rev files).

(** The index of the first data row. *)
Definition start_idx_of (df : list row) : nat :=
  match df with
  | first_row :: _ => if looks_like_header first_row then 1 else 0
  | [] => 0
  end.

(** The consistency of the match fields of a record with an index. *)
Definition consistent (cert_map : dict) (r : record) : Prop :=
  (certificate_found r = true <-> certificate_filename r <> None)
  /\ (certificate_found r = true <->
      (status r = matched \/ status r = low_confidence_match))
  /\ (certificate_found r = true ->
      exists k f, certificate_filename r = Some f /\ dict_get cert_map k = Some f)
  /\ (status r = matched -> (6 # 10 <= match_confidence r)%Q).

(** The same with the confidence floor on every found certificate. *)
Definition consistent_floor (cert_map : dict) (r : record) : Prop :=
  (certificate_found r = true <-> certificate_filename r <> None)
  /\ (certificate_found r = true <->
      (status r = matched \/ status r = low_confidence_match))
  /\ (certificate_found r = true ->
      (6 # 10 <= match_confidence r)%Q
      /\ exists k f, certificate_filename r = Some f /\ dict_get cert_map k = Some f).

(** Two dictionaries with the same bindings. *)
Definition dict_equiv (d1 d2 : dict) : Prop :=
  forall k, dict_get d1 k = dict_get d2 k.

(** The directory listing of the index example, the index the example
    expects, and the index the code builds. *)
Definition example_files : list str :=
  [py "Certificate_Harsha_pg001.pdf"; py "Certificate_Amit_Kumar_2.pdf"].

Definition example_index_expected : dict :=
  [(py "harsha", py "Certificate_Harsha_pg001.pdf");
   (py "amit kumar", py "Certificate_Amit_Kumar_2.pdf")].

Definition example_index_built : dict :=
  [(py "harsha", py "Certificate_Harsha_pg001.pdf");
   (py "amitkumar", py "Certificate_Amit_Kumar_2.pdf")].

(** A one-certificate folder and a one-row roster whose name is close to
    the certificate's, in one direction of the comparison only. *)
Definition anna_files : list str := [py "Certificate_Anna_pg001.pdf"].

Definition nana_roster : list row :=
  [(Text (py "Nana"), Text (py "nana@example.com"))].

(** What the transliteration is known to do: nothing on ASCII strings. *)
Definition ascii_fixed (unidecode : str -> str) : Prop :=
  forall s, forallb is_ascii s = true -> unidecode s = s.

(** A sheet whose first row holds the column titles. *)
Definition titled_roster : list row :=
  [(Text (py "Name"), Text (py "Email"));
   (Text (py "Harsha"), Text (py "harsha@gmail.com"))].

(** What identifies the row a record was made from. *)
Definition row_identity (rec : record) : nat * str * cell :=
  (index rec, original_name rec, original_email rec).

Definition identity_of (ir : nat * row) : nat * str * cell :=
  (fst ir, strip (str_of (fst (snd ir))), snd (snd ir)).

(** The rows after the optional header, with their positions in the sheet. *)
Definition data_rows (df : list row) : list (nat * row) :=
  combine (seq (start_idx_of df) (length df - start_idx_of df))
          (skipn (start_idx_of df) df).

(** No word of the string is one of the titles. *)
Definition title_free (s : str) : bool :=
  forallb (fun w => negb (str_in w titles)) (split s).

(** A non-empty word of lower-case ASCII letters. *)
Definition lower_word (w : str) : bool :=
  match w with [] => false | _ => forallb is_lower_az w end.

(** A name written with initials, and a row whose name is a title only. *)
Definition initials_name : cell := Text (py "M.R. Khan").

Definition title_only_row : row := (Text (py "Dr."), Text (py "doc@example.com")).

Definition harsha_row : row := (Text (py "Mr. Harsha"), Text (py "harsha@gmsil.com")).

Definition unreachable_row : row := (Text (py "Harsha"), Text (py "not-an-email")).

Definition cleaned_email_of (r : row) : str := clean_email (snd r).

(** The record the report holds for the row of [nana_roster]. *)
Definition nana_record : record :=
  {| index := 0;
     original_name := py "Nana";
     original_email := Text (py "nana@example.com");
     cleaned_email := py "nana@example.com";
     normalized_name := py "nana";
     valid_email := true;
     certificate_found := true;
     certificate_filename := Some (py "Certificate_Anna_pg001.pdf");
     match_type := Some fuzzy;
     match_confidence := (4 # 8)%Q;
     status := low_confidence_match |}.

Definition ascii_str (s : str) : bool := forallb is_ascii s.

Definition ascii_row (r : row) : bool := ascii_str (str_of (fst r)).

(** The records a run of the three tiers can produce from [result]. *)
Inductive tier_outcome (cert_map : dict) (norm_name : str) (result : record)
  : record -> Prop :=
| by_exact filename :
    dict_get cert_map norm_name = Some filename ->
    tier_outcome cert_map norm_name result
                 (set_match result filename exact 1%Q matched)
| by_fuzzy key filename :
    dict_get cert_map norm_name = None ->
    fuzzy_match norm_name (dict_keys cert_map) (7 # 10)%Q = Ok (Some key) ->
    dict_get cert_map key = Some filename ->
    tier_outcome cert_map norm_name result
                 (set_match result filename fuzzy (Difflib.ratio norm_name key)
                            (if Difflib.Qgeb (Difflib.ratio norm_name key) (7 # 10)%Q
                             then matched else low_confidence_match))
| by_partial key filename :
    dict_get cert_map norm_name = None ->
    In key (dict_keys cert_map) ->
    dict_get cert_map key = Some filename ->
    Difflib.Qgeb (Difflib.ratio norm_name key) (6 # 10)%Q = true ->
    tier_outcome cert_map norm_name result
                 (set_match result filename partial (Difflib.ratio norm_name key)
                            matched)
| by_none :
    dict_get cert_map norm_name = None ->
    tier_outcome cert_map norm_name result
                 (set_status result certificate_not_found).

(** A pattern that does not look behind. *)
Definition ignores_prev (p : Re.pattern) : Prop :=
  forall prev prev' s, p prev s = p prev' s.

(** The start of a word, or the end. *)
Definition word_start (s : str) : bool :=
  match s with
  | c :: _ => negb (is_space c)
  | [] => true
  end.

(** [re.sub(r'\s+', repl, s)] *)
Definition sub_spaces (repl : str) (s : str) : str :=
  Re.sub (Re.class_plus is_space) repl s.

(** What a run of whitespace collapses to. *)
Definition one_space (sp : str) : str :=
  match sp with
  | [] => []
  | _ => py " "
  end.

Definition body (toks : list (str * str)) : str :=
  concat (map (fun t => fst t ++ snd t) toks).

Definition collapsed_body (toks : list (str * str)) : str :=
  concat (map (fun t => fst t ++ one_space (snd t)) toks).

(** The text after a word: the end, or a character that is no letter. *)
Definition word_end (tail : str) : Prop :=
  match tail with
  | [] => True
  | c :: _ => is_lower_az c = false
  end.

(** The characters of a key. *)
Definition key_char (c : ascii) : bool := is_lower_az c || char_eqb c " ".

(** One round of the loop of [build_cert_map]. *)
Definition file_entry (unidecode : str -> str) (certs : dict) (filename : str)
  : dict :=
  match cert_key unidecode filename with
  | Some norm_key => dict_set certs norm_key filename
  | None => certs
  end.

(** What the loop body records about the row itself. *)
Definition records_row (unidecode : str -> str) (idx : nat) (r : row)
           (rec : record) : Prop :=
  index rec = idx
  /\ original_name rec = strip (str_of (fst r))
  /\ original_email rec = snd r
  /\ cleaned_email rec = clean_email (snd r)
  /\ normalized_name rec
     = normalize_name unidecode (Text (strip (str_of (fst r)))).

(** The record of a row stopped at the e-mail check. *)
Definition invalid_record (unidecode : str -> str) (idx : nat) (r : row) : record :=
  {| index := idx;
     original_name := strip (str_of (fst r));
     original_email := snd r;
     cleaned_email := [];
     normalized_name := normalize_name unidecode (Text (strip (str_of (fst r))));
     valid_email := false;
     certificate_found := false;
     certificate_filename := None;
     match_type := None;
     match_confidence := 0%Q;
     status := invalid_email |}.

(** A roster whose second row has no usable e-mail. *)
Definition mixed_roster : list row := [harsha_row; unreachable_row].

(** A name and a file whose similarity, from the name to the file's key, is
    thirteen twentieths. *)
Definition name_065 : str := py "abaaabbabbbbbabbba".
Definition key_065 : str := py "abaaabbbbaaaaaabaababb".
Definition files_065 : list str := [py "abaaabbbbaaaaaabaababb.pdf"].
Definition roster_065 : list row :=
  [(Text (py "Abaaabbabbbbbabbba"), Text (py "a@b.org"))].

(** The measure that every round of the queue loop of
    [get_matching_blocks] lowers, and the ranges the queue holds. *)
Definition range_weight (q : nat * nat * nat * nat) : nat :=
  let '(alo, ahi, _, _) := q in 2 * (ahi - alo) + 1.

Definition queue_weight (queue : list (nat * nat * nat * nat)) : nat :=
  list_sum (map range_weight queue).

Definition range_ok (q : nat * nat * nat * nat) : Prop :=
  let '(alo, ahi, _, _) := q in alo <= ahi.

(** A match lies in the rows from [alo] up to, not including, [ahi]. *)
Definition in_rows (alo ahi : nat) (m : Difflib.Match) : Prop :=
  let '(i, _, k) := m in alo <= i /\ i + k <= ahi.

(** No recorded length exceeds [bound]. *)
Definition lengths_below (bound : nat) (j2len : list (nat * nat)) : Prop :=
  forall j v, Difflib.lookup j j2len = Some v -> v <= bound.

(** A listing with two entries for one name. *)
Definition twice_harsha : list str :=
  [py "Certificate_Harsha_pg001.pdf"; py "Amit Kumar.pdf"; py "Harsha_1.pdf"].

(** A match lies in the columns from [blo] up to, not including, [bhi]. *)
Definition in_cols (blo bhi : nat) (m : Difflib.Match) : Prop :=
  let '(_, j, k) := m in blo <= j /\ j + k <= bhi.

(** Lengths are recorded for columns from [blo] on only, and a length does
    not reach back before [blo]. *)
Definition cols_below (blo : nat) (j2len : list (nat * nat)) : Prop :=
  forall j v, Difflib.lookup j j2len = Some v -> blo <= j /\ v <= j + 1 - blo.

(** The total size of a list of matching blocks. *)
Definition size_sum (blocks : list Difflib.Match) : nat :=
  list_sum (map Difflib.match_size blocks).

(** The rows and the columns still on the queue. *)
Definition queue_rows (queue : list (nat * nat * nat * nat)) : nat :=
  list_sum (map (fun q => let '(alo, ahi, _, _) := q in ahi - alo) queue).

Definition queue_cols (queue : list (nat * nat * nat * nat)) : nat :=
  list_sum (map (fun q => let '(_, _, blo, bhi) := q in bhi - blo) queue).

Definition box_ok (q : nat * nat * nat * nat) : Prop :=
  let '(alo, ahi, blo, bhi) := q in alo <= ahi /\ blo <= bhi.

(** A score between 0 and 1. *)
Definition unit_score (q : Q) : Prop := (0 <= q)%Q /\ (q <= 1)%Q.

(** What the fields of a record say about the tier that produced it. *)
Definition settled (r : record) : Prop :=
  status r <> pending
  /\ (status r = invalid_email <-> valid_email r = false)
  /\ (valid_email r = false <-> cleaned_email r = [])
  /\ (match_type r = None <-> certificate_found r = false)
  /\ (certificate_found r = false -> match_confidence r = 0%Q)
  /\ (match_type r = Some exact ->
      match_confidence r = 1%Q /\ status r = matched)
  /\ (match_type r = Some fuzzy ->
      (status r = matched <-> (7 # 10 <= match_confidence r)%Q))
  /\ (match_type r = Some partial ->
      status r = matched /\ (6 # 10 <= match_confidence r)%Q).

(** No certificate, for one of the two reasons. *)
Definition unmatched (r : record) : Prop :=
  certificate_found r = false
  /\ certificate_filename r = None
  /\ match_type r = None
  /\ match_confidence r = 0%Q
  /\ (status r = invalid_email \/ status r = certificate_not_found).

(** The first word of a name, empty for a name without words. *)
Definition first_word (name : str) : str := hd [] (split name).

(** A record of the partial tier rests on a key of the index that contains
    the first word of the name. *)
Definition partial_on_first_word (cert_map : dict) (r : record) : Prop :=
  match_type r = Some partial ->
  normalized_name r <> []
  /\ dict_get cert_map (normalized_name r) = None
  /\ exists key filename,
       In key (dict_keys cert_map)
       /\ contains (first_word (normalized_name r)) key = true
       /\ dict_get cert_map key = Some filename
       /\ certificate_filename r = Some filename
       /\ match_confidence r = Difflib.ratio (normalized_name r) key.

(** The three tests of [get_close_matches] on a candidate. *)
Definition passes (word : str) (cutoff : Q) (x : str) : bool :=
  Difflib.Qgeb (Difflib.real_quick_ratio x word) cutoff
  && Difflib.Qgeb (Difflib.quick_ratio x word) cutoff
  && Difflib.Qgeb (Difflib.ratio x word) cutoff.

(** The first and the last word of a list of words. *)
Definition two_ends (parts : list str) : list str :=
  match parts with
  | [] => []
  | [p] => [p]
  | p :: _ => [p; last parts []]
  end.

(** A word of ASCII letters. *)
Definition letter_word (w : str) : bool :=
  match w with [] => false | _ => forallb is_ascii_letter w end.

(** A letter or a digit: a word character other than the underscore. *)
Definition alnum (c : ascii) : bool := is_word c && negb (code c =? 95).

(** The characters a sanitised name is made of. *)
Definition safe_char (c : ascii) : bool :=
  is_word c || (code c =? 32) || (code c =? 45).

(** The characters [strip(" ._-")] removes. *)
Definition edge_char (c : ascii) : bool := existsb (char_eqb c) (py " ._-").

(** The first words after which a line is always skipped. *)
Definition always_skipped_words : list str :=
  map py ["certificate"; "this"; "participant"; "congratulations"]%string.

(** An address written out, and what the pattern asks of its parts. *)
Definition address (local domain tld : str) : str :=
  local ++ py "@" ++ domain ++ py "." ++ tld.

Definition well_formed_parts (local domain tld : str) : Prop :=
  local <> [] /\ forallb local_char local = true
  /\ domain <> [] /\ forallb domain_char domain = true
  /\ 2 <= length tld /\ forallb is_ascii_letter tld = true.

(** A character that [lower] leaves alone and that is no whitespace. *)
Definition plain_char (c : ascii) : bool :=
  char_eqb (lower_char c) c && negb (is_space c).

(** The text of a cell without its whitespace. *)
Definition without_spaces (s : str) : str :=
  filter (fun c => negb (is_space c)) s.

(** A call of [send_certificate] that goes to an address [is_valid_email]
    accepts, with a file of the index under the certificate folder. *)
Definition deliverable (cert_map : dict) (cert_folder : str) (c : Sender.call)
  : Prop :=
  is_valid_email (Text (Sender.to_email c)) = true
  /\ Sender.cert_path c = Os.join cert_folder (Sender.cert_filename c)
  /\ exists k, dict_get cert_map k = Some (Sender.cert_filename c).

(** The records a message can be sent for. *)
Definition with_certificate (r : record) : bool :=
  match status r with
  | matched | low_confidence_match => true
  | _ => false
  end.

(** What the loop relies on in a record. *)
Definition sendable (cert_map : dict) (r : record) : Prop :=
  with_certificate r = true ->
  is_valid_email (Text (cleaned_email r)) = true
  /\ exists filename k,
       certificate_filename r = Some filename
       /\ dict_get cert_map k = Some filename.

(** What the report says of the fuzzy tier: a record of tier fuzzy rests on
    a key that [get_close_matches] proposes at the cutoff 0.7, a best one
    among the keys that pass, with the key as first sequence; the
    confidence is the similarity with the name as first sequence, and the
    status follows from it.  No other tier gives the status
    low_confidence_match. *)
Definition fuzzy_on_close_match (cert_map : dict) (r : record) : Prop :=
  (match_type r = Some fuzzy ->
   dict_get cert_map (normalized_name r) = None
   /\ exists key filename,
        In key (dict_keys cert_map)
        /\ passes (normalized_name r) (7 # 10)%Q key = true
        /\ (7 # 10 <= Difflib.ratio key (normalized_name r))%Q
        /\ (forall x, In x (dict_keys cert_map) ->
                      passes (normalized_name r) (7 # 10)%Q x = true ->
                      (Difflib.ratio x (normalized_name r)
                       <= Difflib.ratio key (normalized_name r))%Q)
        /\ dict_get cert_map key = Some filename
        /\ certificate_filename r = Some filename
        /\ certificate_found r = true
        /\ match_confidence r = Difflib.ratio (normalized_name r) key
        /\ (status r = low_confidence_match
            <-> (Difflib.ratio (normalized_name r) key < 7 # 10)%Q)
        /\ (status r = matched
            <-> (7 # 10 <= Difflib.ratio (normalized_name r) key)%Q))
  /\ (status r = low_confidence_match -> match_type r = Some fuzzy).

(** [s] is the similarity of [name] to its nearest key, whichever of the
    two is taken as first sequence. *)
Definition nearest_similarity (cert_map : dict) (name : str) (s : Q) : Prop :=
  (exists key,
      In key (dict_keys cert_map)
      /\ (Difflib.ratio name key == s)%Q
      /\ (Difflib.ratio key name == s)%Q)
  /\ forall k, In k (dict_keys cert_map) ->
               (Difflib.ratio name k <= s)%Q /\ (Difflib.ratio k name <= s)%Q.

(** A name at similarity thirteen twentieths, both ways, from the only key
    of an index, and the record the report holds for it. *)
Definition floor_roster : list row :=
  [(Text (py "abcdefghijklmnopqrst"), Text (py "a@b.org"))].

Definition floor_index : dict := [(py "abcdefghijklmuvwxyzz", py "x.pdf")].

Definition floor_record : record :=
  {| index := 0;
     original_name := py "abcdefghijklmnopqrst";
     original_email := Text (py "a@b.org");
     cleaned_email := py "a@b.org";
     normalized_name := py "abcdefghijklmnopqrst";
     valid_email := true;
     certificate_found := false;
     certificate_filename := None;
     match_type := None;
     match_confidence := 0%Q;
     status := certificate_not_found |}.

End Vocabulary.

(** ** Properties of the string primitives *)
Module PyFacts.

Lemma char_eqb_eq (c d : ascii) : char_eqb c d = true <-> c = d.
Proof. apply Ascii.eqb_eq. Qed.

Lemma char_eqb_refl (c : ascii) : char_eqb c c = true.
Proof. apply Ascii.eqb_refl. Qed.

Lemma str_eqb_eq (s t : str) : str_eqb s t = true <-> s = t.
Proof.
  revert t. induction s as [|c s IH]; intros [|d t]; simpl; split; intro H;
    try reflexivity; try discriminate.
  - apply andb_true_iff in H. destruct H as [H1 H2].
    apply char_eqb_eq in H1. apply IH in H2. now subst.
  - injection H as -> ->. rewrite char_eqb_refl. simpl. now apply IH.
Qed.

Lemma str_eqb_refl (s : str) : str_eqb s s = true.
Proof. now apply str_eqb_eq. Qed.

Lemma str_eqb_neq (s t : str) : str_eqb s t = false <-> s <> t.
Proof.
  split; intro H.
  - intro E. apply str_eqb_eq in E. congruence.
  - destruct (str_eqb s t) eqn:E; [apply str_eqb_eq in E; contradiction | reflexivity].
Qed.

Lemma forallb_dropwhile {A} (P p : A -> bool) (l : list A) :
  forallb P l = true -> forallb P (dropwhile p l) = true.
Proof.
  induction l as [|x l IH]; simpl; [easy|].
  intro H. destruct (p x); [apply IH; now apply andb_true_iff in H | exact H].
Qed.

Lemma forallb_rev {A} (P : A -> bool) (l : list A) :
  forallb P (rev l) = forallb P l.
Proof.
  induction l as [|x l IH]; simpl; [reflexivity|].
  rewrite forallb_app, IH. simpl. rewrite andb_true_r. apply andb_comm.
Qed.

Lemma forallb_strip (P : ascii -> bool) (s : str) :
  forallb P s = true -> forallb P (strip s) = true.
Proof.
  intro H. unfold strip, rstrip, lstrip.
  rewrite forallb_rev. apply forallb_dropwhile. rewrite forallb_rev.
  now apply forallb_dropwhile.
Qed.

Lemma forallb_firstn {A} (P : A -> bool) (n : nat) (l : list A) :
  forallb P l = true -> forallb P (firstn n l) = true.
Proof.
  revert n. induction l as [|x l IH]; intros [|n]; simpl; try easy.
  intro H. apply andb_true_iff in H. destruct H as [H1 H2].
  rewrite H1. simpl. now apply IH.
Qed.

Lemma forallb_sub_from (P : ascii -> bool) (p : Re.pattern) (repl : str) :
  forallb P repl = true ->
  forall s prev skip, forallb P s = true ->
    forallb P (Re.sub_from p repl prev skip s) = true.
Proof.
  intros Hr. induction s as [|c s IH]; intros prev skip H; simpl; [reflexivity|].
  simpl in H. apply andb_true_iff in H. destruct H as [Hc Hs].
  destruct skip as [|n]; [|now apply IH].
  destruct (p prev (c :: s)) as [[|n]|]; simpl.
  - rewrite Hc. now apply IH.
  - rewrite forallb_app, Hr. now apply IH.
  - rewrite Hc. now apply IH.
Qed.

Lemma forallb_sub (P : ascii -> bool) (p : Re.pattern) (repl s : str) :
  forallb P repl = true -> forallb P s = true ->
  forallb P (Re.sub p repl s) = true.
Proof. intros. unfold Re.sub. now apply forallb_sub_from. Qed.

End PyFacts.

(** ** The queue loop of [get_matching_blocks] runs to its end *)
Module DifflibFacts.
Import Vocabulary.

Section Ranges.

Variables a b : str.

Lemma j2lenget_pred_below (bound : nat) (j2len : list (nat * nat)) (j : nat) :
  lengths_below bound j2len -> Difflib.j2lenget_pred j2len j <= bound.
Proof.
  intro H. unfold Difflib.j2lenget_pred. destruct j as [|j]; [lia|].
  destruct (Difflib.lookup j j2len) as [v|] eqn:E; [exact (H _ _ E) | lia].
Qed.

Lemma scan_row_rows (alo blo bhi i : nat) (j2len : list (nat * nat)) :
  alo <= i ->
  lengths_below (i - alo) j2len ->
  forall js newj2len best,
    lengths_below (i + 1 - alo) newj2len ->
    in_rows alo (i + 1) best ->
    lengths_below (i + 1 - alo)
                  (fst (Difflib.scan_row blo bhi i j2len js newj2len best))
    /\ in_rows alo (i + 1)
               (snd (Difflib.scan_row blo bhi i j2len js newj2len best)).
Proof.
  intros Hi Hold. induction js as [|j js IH]; intros newj2len best Hnew Hbest.
  - now split.
  - cbn [Difflib.scan_row].
    destruct (j <? blo); [now apply IH|].
    destruct (bhi <=? j); [now split|].
    pose proof (j2lenget_pred_below _ _ j Hold) as Hk.
    apply IH.
    + intros j' v. cbn [Difflib.lookup].
      destruct (j =? j'); [|apply Hnew].
      intro E. injection E as <-. lia.
    + destruct (Difflib.match_size best <? _); [|exact Hbest].
      unfold in_rows. lia.
Qed.

Lemma scan_fold_rows (alo blo bhi : nat) (n : nat) :
  forall start j2len best,
    alo <= start ->
    lengths_below (start - alo) j2len ->
    in_rows alo start best ->
    in_rows alo (start + n)
      (snd (fold_left
              (fun '(j2len, best) i =>
                 Difflib.scan_row blo bhi i j2len
                                  (Difflib.b2j_get b (Difflib.item a i)) [] best)
              (seq start n) (j2len, best))).
Proof.
  induction n as [|n IH]; intros start j2len best Hstart Hlen Hbest.
  - cbn. now rewrite Nat.add_0_r.
  - cbn [seq fold_left].
    destruct (scan_row_rows alo blo bhi start j2len Hstart Hlen
                (Difflib.b2j_get b (Difflib.item a start)) [] best)
      as [Hnew Hbest'].
    + intros j v E. discriminate.
    + destruct best as [[bi bj] bs]. unfold in_rows in *. lia.
    + destruct (Difflib.scan_row _ _ _ _ _ _ _) as [j2len' best'].
      cbn [fst snd] in *.
      replace (start + S n) with (S start + n) by lia.
      apply IH; [lia | | ].
      * now replace (S start - alo) with (start + 1 - alo) by lia.
      * now replace (S start) with (start + 1) by lia.
Qed.

Lemma scan_rows_rows (alo ahi blo bhi : nat) :
  alo <= ahi -> in_rows alo ahi (Difflib.scan_rows a b alo ahi blo bhi).
Proof.
  intro H. unfold Difflib.scan_rows.
  assert (Hf := scan_fold_rows alo blo bhi (ahi - alo) alo [] (alo, blo, 0)).
  replace (alo + (ahi - alo)) with ahi in Hf by lia.
  apply Hf; [lia | intros j v E; discriminate | unfold in_rows; lia].
Qed.

Lemma extend_back_rows (alo ahi blo : nat) (junk : bool) (besti : nat) :
  forall bestj bestsize,
    in_rows alo ahi (besti, bestj, bestsize) ->
    in_rows alo ahi (Difflib.extend_back a b alo blo junk besti bestj bestsize).
Proof.
  induction besti as [|i IH]; intros bestj bestsize H; [exact H|].
  cbn [Difflib.extend_back].
  destruct (_ && _) eqn:E; [|exact H].
  apply IH. repeat (apply andb_true_iff in E; destruct E as [E ?]).
  apply Nat.ltb_lt in E. unfold in_rows in *. lia.
Qed.

Lemma extend_forward_rows (alo ahi bhi : nat) (junk : bool) (gap : nat) :
  forall besti bestj bestsize,
    in_rows alo ahi (besti, bestj, bestsize) ->
    in_rows alo ahi
            (Difflib.extend_forward a b ahi bhi junk gap besti bestj bestsize).
Proof.
  induction gap as [|gap IH]; intros besti bestj bestsize H; [exact H|].
  cbn [Difflib.extend_forward].
  destruct (_ && _) eqn:E; [|exact H].
  apply IH. repeat (apply andb_true_iff in E; destruct E as [E ?]).
  apply Nat.ltb_lt in E. unfold in_rows in *. lia.
Qed.

(** The longest match lies in the rows it was asked for. *)
Lemma find_longest_match_rows (alo ahi blo bhi : nat) :
  alo <= ahi ->
  in_rows alo ahi (Difflib.find_longest_match a b alo ahi blo bhi).
Proof.
  intro H. unfold Difflib.find_longest_match.
  pose proof (scan_rows_rows alo ahi blo bhi H) as H0.
  destruct (Difflib.scan_rows a b alo ahi blo bhi) as [[i0 j0] k0].
  pose proof (extend_back_rows alo ahi blo false i0 j0 k0 H0) as H1.
  destruct (Difflib.extend_back a b alo blo false i0 j0 k0) as [[i1 j1] k1].
  pose proof (extend_forward_rows alo ahi bhi false (ahi - (i1 + k1)) i1 j1 k1 H1)
    as H2.
  destruct (Difflib.extend_forward a b ahi bhi false _ i1 j1 k1) as [[i2 j2] k2].
  pose proof (extend_back_rows alo ahi blo true i2 j2 k2 H2) as H3.
  destruct (Difflib.extend_back a b alo blo true i2 j2 k2) as [[i3 j3] k3].
  now apply extend_forward_rows.
Qed.

Lemma queue_weight_cons (q : nat * nat * nat * nat)
      (queue : list (nat * nat * nat * nat)) :
  queue_weight (q :: queue) = range_weight q + queue_weight queue.
Proof. reflexivity. Qed.

Lemma blocks_loop_round (fuel alo ahi blo bhi : nat)
      (queue : list (nat * nat * nat * nat)) (matching_blocks : list Difflib.Match) :
  Difflib.blocks_loop a b (S fuel) ((alo, ahi, blo, bhi) :: queue) matching_blocks
  = let x := Difflib.find_longest_match a b alo ahi blo bhi in
    let '(i, j, k) := x in
    match k with
    | O => Difflib.blocks_loop a b fuel queue matching_blocks
    | S _ =>
        let queue1 :=
          if (alo <? i) && (blo <? j) then (alo, i, blo, j) :: queue else queue in
        let queue2 :=
          if (i + k <? ahi) && (j + k <? bhi) then (i + k, ahi, j + k, bhi) :: queue1
          else queue1 in
        Difflib.blocks_loop a b fuel queue2 (matching_blocks ++ [x])
    end.
Proof. reflexivity. Qed.

(** With fuel for the weight of the queue, more fuel changes nothing: the
    loop has emptied the queue. *)
Lemma blocks_loop_enough (n : nat) :
  forall queue matching_blocks,
    Forall range_ok queue ->
    queue_weight queue <= n ->
    Difflib.blocks_loop a b (S n) queue matching_blocks
    = Difflib.blocks_loop a b n queue matching_blocks.
Proof.
  induction n as [|n IH]; intros queue blocks Hok Hw.
  - destruct queue as [|[[[alo ahi] blo] bhi] queue]; [reflexivity|].
    unfold queue_weight in Hw. cbn in Hw. lia.
  - destruct queue as [|[[[alo ahi] blo] bhi] queue]; [reflexivity|].
    rewrite (blocks_loop_round (S n)), (blocks_loop_round n). cbv zeta.
    inversion Hok as [|q0 l0 Hq Hrest]; subst. cbn in Hq.
    pose proof (find_longest_match_rows alo ahi blo bhi Hq) as Hm.
    destruct (Difflib.find_longest_match a b alo ahi blo bhi) as [[i j] k].
    cbn in Hm. rewrite queue_weight_cons in Hw. cbn [range_weight] in Hw.
    destruct k as [|k].
    + apply IH; [exact Hrest | lia].
    + apply IH.
      * destruct ((alo <? i) && (blo <? j)); destruct (_ && _);
          repeat constructor; cbn; try lia; exact Hrest.
      * destruct ((alo <? i) && (blo <? j)); destruct (_ && _);
          rewrite ?queue_weight_cons; cbn [range_weight]; lia.
Qed.

(** [get_matching_blocks] gives its loop enough rounds. *)
Lemma blocks_loop_fuel (extra : nat) :
  Difflib.blocks_loop a b (2 * length a + 1 + extra)
                      [(0, length a, 0, length b)] []
  = Difflib.blocks_loop a b (2 * length a + 1)
                        [(0, length a, 0, length b)] [].
Proof.
  induction extra as [|extra IH]; [now rewrite Nat.add_0_r|].
  rewrite Nat.add_succ_r, blocks_loop_enough; [exact IH | |].
  - repeat constructor. cbn. lia.
  - unfold queue_weight. cbn. lia.
Qed.

End Ranges.

End DifflibFacts.

(** ** The program on ASCII input does not depend on the transliteration *)
Module AsciiInput.
Import Automation Report Vocabulary PyFacts.

Section Transliteration.

Variable unidecode : str -> str.
Hypothesis unidecode_ascii : forall s, ascii_str s = true -> unidecode s = s.

Lemma normalize_name_ascii (s : str) :
  ascii_str s = true ->
  normalize_name unidecode (Text s) = normalize_name (fun x => x) (Text s).
Proof.
  intro H. unfold normalize_name.
  rewrite unidecode_ascii; [reflexivity|].
  now apply forallb_strip.
Qed.

Lemma splitext_ascii (f : str) :
  ascii_str f = true -> ascii_str (fst (Os.splitext f)) = true.
Proof.
  intro H. unfold Os.splitext.
  destruct (Os.rfind "." f) as [d|]; [|exact H].
  match goal with |- context [if ?c then _ else _] => destruct c end; simpl;
    [now apply forallb_firstn | exact H].
Qed.

Lemma cert_key_ascii (f : str) :
  ascii_str f = true -> cert_key unidecode f = cert_key (fun x => x) f.
Proof.
  intro H. unfold cert_key.
  destruct (negb (endswith (lower f) (py ".pdf"))); [reflexivity|].
  rewrite normalize_name_ascii; [reflexivity|].
  apply forallb_strip.
  repeat (apply forallb_sub; [reflexivity|]).
  now apply splitext_ascii.
Qed.

Lemma build_cert_map_ascii (files : list str) :
  forallb ascii_str files = true ->
  build_cert_map unidecode (Some files) = build_cert_map (fun x => x) (Some files).
Proof.
  unfold build_cert_map. generalize (@nil (str * str)).
  induction files as [|f files IH]; intros acc H; simpl; [reflexivity|].
  simpl in H. apply andb_true_iff in H. destruct H as [Hf Hfs].
  rewrite (cert_key_ascii f Hf). now apply IH.
Qed.

Lemma process_row_ascii (cert_map : dict) (cert_keys : list str) (idx : nat) (r : row) :
  ascii_row r = true ->
  process_row unidecode cert_map cert_keys idx r
  = process_row (fun x => x) cert_map cert_keys idx r.
Proof.
  intro H. unfold process_row.
  rewrite normalize_name_ascii; [reflexivity|].
  now apply forallb_strip.
Qed.

Lemma rows_loop_ascii (cert_map : dict) (cert_keys : list str) (rows : list row) :
  forallb ascii_row rows = true ->
  forall idx results,
    rows_loop unidecode cert_map cert_keys idx rows results
    = rows_loop (fun x => x) cert_map cert_keys idx rows results.
Proof.
  induction rows as [|r rows IH]; intros H idx results; simpl; [reflexivity|].
  simpl in H. apply andb_true_iff in H. destruct H as [Hr Hrs].
  rewrite (process_row_ascii _ _ _ _ Hr).
  destruct (process_row (fun x => x) cert_map cert_keys idx r); simpl;
    [now apply IH | reflexivity].
Qed.

Lemma forallb_skipn {A} (P : A -> bool) (n : nat) (l : list A) :
  forallb P l = true -> forallb P (skipn n l) = true.
Proof.
  revert n. induction l as [|x l IH]; intros [|n]; simpl; try easy.
  intro H. apply andb_true_iff in H. now apply IH.
Qed.

Lemma validate_ascii (df : list row) (cert_map : dict) :
  forallb ascii_row df = true ->
  validate_data_and_certificates unidecode df cert_map
  = validate_data_and_certificates (fun x => x) df cert_map.
Proof.
  intro H. unfold validate_data_and_certificates.
  destruct df as [|first_row df']; [reflexivity|].
  apply rows_loop_ascii. now apply forallb_skipn.
Qed.

End Transliteration.

Lemma unidecode_ascii_range_id (s : str) :
  ascii_str s = true -> unidecode_ascii_range s = s.
Proof.
  unfold unidecode_ascii_range, ascii_str.
  induction s as [|c s IH]; simpl; [reflexivity|].
  intro H. apply andb_true_iff in H. destruct H as [Hc Hs].
  rewrite Hc. now rewrite IH.
Qed.

End AsciiInput.

(** ** What the three tiers can return *)
Module Tiers.
Import Automation Report Vocabulary PyFacts.

Lemma dropwhile_head {A} (p : A -> bool) (l : list A) (x : A) (l' : list A) :
  dropwhile p l = x :: l' -> p x = false.
Proof.
  induction l as [|y l IH]; simpl; [discriminate|].
  destruct (p y) eqn:E; [exact IH|]. intro H. injection H as -> _. exact E.
Qed.

Lemma split_nonempty (s : str) (x : ascii) :
  In x s -> is_space x = false -> split s <> [].
Proof.
  induction s as [|c s IH]; simpl; [easy|].
  intros [->|Hin] Hx.
  - rewrite Hx. destruct (split s); [discriminate|].
    destruct (starts_with_space s); discriminate.
  - destruct (is_space c); [now apply IH|].
    destruct (split s); [discriminate|].
    destruct (starts_with_space s); discriminate.
Qed.

(** A stripped string that is not empty has a word. *)
Lemma split_strip_nonempty (s : str) : strip s <> [] -> split (strip s) <> [].
Proof.
  unfold strip, rstrip. intro H.
  destruct (dropwhile is_space (rev (lstrip s))) as [|x l] eqn:E;
    [now elim H|].
  apply (split_nonempty _ x).
  - simpl. apply in_or_app. right. now left.
  - exact (dropwhile_head _ _ _ _ E).
Qed.

Lemma normalize_name_has_word (unidecode : str -> str) (x : cell) :
  normalize_name unidecode x <> [] -> split (normalize_name unidecode x) <> [].
Proof.
  destruct x as [|s]; simpl; [easy|]. apply split_strip_nonempty.
Qed.

Lemma dict_get_in_keys (d : dict) (k : str) :
  In k (dict_keys d) -> exists v, dict_get d k = Some v.
Proof.
  induction d as [|[k' v'] d IH]; simpl; [easy|].
  intros [->|Hin].
  - rewrite str_eqb_refl. now exists v'.
  - destruct (str_eqb k' k); [now exists v' | now apply IH].
Qed.

Lemma max_from_in (l : list (Q * str)) (best : Q * str) :
  In (Difflib.max_from best l) (best :: l).
Proof.
  revert best. induction l as [|p l IH]; intro best; simpl; [now left|].
  destruct (IH (if Difflib.pair_gtb p best then p else best)) as [H|H].
  - destruct (Difflib.pair_gtb p best); rewrite <- H; auto.
  - right. now right.
Qed.

Lemma get_close_matches_in (word : str) (possibilities : list str) (cutoff : Q)
      (k : str) :
  In k (Difflib.close_matches word possibilities cutoff) ->
  In k possibilities.
Proof.
  unfold Difflib.close_matches, Difflib.nlargest1.
  set (result := flat_map _ possibilities).
  assert (Hres : forall p, In p result -> In (snd p) possibilities).
  { intros p Hp. apply in_flat_map in Hp. destruct Hp as [x [Hx Hp]].
    destruct (_ && _) in Hp; [|easy].
    destruct Hp as [<-|[]]. exact Hx. }
  destruct result as [|p l]; simpl; [easy|].
  intros [<-|[]]. apply Hres. apply max_from_in.
Qed.

Lemma fuzzy_match_in (name : str) (cert_keys : list str) (threshold : Q) (k : str) :
  fuzzy_match name cert_keys threshold = Ok (Some k) -> In k cert_keys.
Proof.
  unfold fuzzy_match, Difflib.get_close_matches.
  destruct (negb _); [discriminate|].
  destruct (Difflib.close_matches name cert_keys threshold) as [|k' l] eqn:E;
    [discriminate|].
  intro H. injection H as <-.
  apply (get_close_matches_in name cert_keys threshold). rewrite E. now left.
Qed.

(** At the cutoff of the program [get_close_matches] does not raise. *)
Lemma fuzzy_match_runs (name : str) (cert_keys : list str) (e : exn) :
  fuzzy_match name cert_keys (7 # 10)%Q <> Raise e.
Proof.
  unfold fuzzy_match, Difflib.get_close_matches.
  change (negb (Qle_bool 0 (7 # 10) && Qle_bool (7 # 10) 1)) with false.
  cbv iota. now destruct (Difflib.close_matches name cert_keys (7 # 10)).
Qed.

Lemma max_by_in (key : str -> Q) (l : list str) (best : str) :
  In (max_by key best l) (best :: l).
Proof.
  revert best. induction l as [|k l IH]; intro best; simpl; [now left|].
  destruct (IH (if Qle_bool (key k) (key best) then best else k)) as [H|H].
  - destruct (Qle_bool (key k) (key best)); rewrite <- H; auto.
  - right. now right.
Qed.

(** The partial tier, once the first word is known. *)
Ltac partial_tier :=
  cbn [bind];
  lazymatch goal with
  | |- context [filter ?f (dict_keys ?cm)] =>
      let k0 := fresh "k0" in
      let rest := fresh "rest" in
      let Hfilter := fresh "Hfilter" in
      destruct (filter f (dict_keys cm)) as [|k0 rest] eqn:Hfilter;
      [ eexists; split; [reflexivity | now constructor]
      | lazymatch goal with
        | |- context [max_by ?key k0 rest] =>
            let Hin := fresh "Hin" in
            let v := fresh "v" in
            let Hv := fresh "Hv" in
            let Hc := fresh "Hc" in
            assert (Hin : In (max_by key k0 rest) (dict_keys cm))
              by (pose proof (max_by_in key rest k0) as Hin;
                  rewrite <- Hfilter in Hin; apply filter_In in Hin; tauto);
            destruct (dict_get_in_keys _ _ Hin) as [v Hv];
            destruct (Difflib.Qgeb (Difflib.ratio _ (max_by key k0 rest)) _) eqn:Hc;
            [ rewrite Hv; cbn [bind]; eexists; split;
              [reflexivity | now apply (by_partial _ _ _ (max_by key k0 rest) v)]
            | eexists; split; [reflexivity | now constructor] ]
        end ]
  end.

(** The tiers raise no exception on a name that has a word when it is not
    empty, and return one of the records above. *)
Lemma match_tiers_outcome (cert_map : dict) (norm_name : str) (result : record) :
  (norm_name <> [] -> split norm_name <> []) ->
  exists rec,
    match_tiers cert_map (dict_keys cert_map) norm_name result = Ok rec
    /\ tier_outcome cert_map norm_name result rec.
Proof.
  intro Hword. unfold match_tiers, dict_mem, subscript.
  destruct (dict_get cert_map norm_name) as [filename|] eqn:Hget.
  { cbn [bind]. eexists. split; [reflexivity | now constructor]. }
  assert (Hfirst : exists first_name,
             match norm_name with
             | [] => Ok []
             | _ :: _ => match split norm_name with
                         | w :: _ => Ok w
                         | [] => Raise IndexError
                         end
             end = Ok first_name).
  { destruct norm_name as [|n0 name']; [now exists []|].
    destruct (split (n0 :: name')) as [|w ws] eqn:Hsplit;
      [exfalso; now apply Hword | now exists w]. }
  destruct Hfirst as [first_name Hfirst].
  destruct (fuzzy_match norm_name (dict_keys cert_map) (7 # 10)%Q)
    as [[[|c key]|]|e] eqn:Hfuzzy; cbn [bind].
  - rewrite Hfirst. partial_tier.
  - destruct (dict_get_in_keys _ _ (fuzzy_match_in _ _ _ _ Hfuzzy)) as [v Hv].
    rewrite Hv. cbn [bind]. eexists. split; [reflexivity|].
    now apply (by_fuzzy _ _ _ (c :: key) v).
  - rewrite Hfirst. partial_tier.
  - now apply fuzzy_match_runs in Hfuzzy.
Qed.

End Tiers.

(** ** Words and whitespace *)
Module Words.
Import Vocabulary PyFacts.

Lemma split_spaces (lead rest : str) :
  all_space lead = true -> split (lead ++ rest) = split rest.
Proof.
  induction lead as [|c lead IH]; simpl; [reflexivity|].
  intro H. apply andb_true_iff in H. destruct H as [Hc Hl].
  rewrite Hc. now apply IH.
Qed.

(** A word followed by the end or by whitespace is the first word. *)
Lemma split_word (w rest : str) :
  is_token w = true -> starts_with_space rest = true ->
  split (w ++ rest) = w :: split rest.
Proof.
  intros Hw Hrest. destruct w as [|a w]; [discriminate|].
  cbn [is_token] in Hw. revert a Hw.
  induction w as [|b w IH]; intros a Hw; cbn [no_space forallb] in Hw;
    apply andb_true_iff in Hw; destruct Hw as [Ha Hw];
    apply negb_true_iff in Ha.
  - cbn [app split]. rewrite Ha, Hrest. now destruct (split rest).
  - change ((a :: b :: w) ++ rest) with (a :: (b :: w) ++ rest).
    cbn [split]. rewrite Ha. fold split.
    rewrite (IH b Hw). cbn [app starts_with_space].
    cbn [forallb] in Hw. apply andb_true_iff in Hw. destruct Hw as [Hb _].
    apply negb_true_iff in Hb. now rewrite Hb.
Qed.

Lemma starts_with_space_app (sp rest : str) :
  all_space sp = true -> sp <> [] -> starts_with_space (sp ++ rest) = true.
Proof.
  destruct sp as [|c sp]; [easy|]. simpl. intros H _.
  now apply andb_true_iff in H.
Qed.

(** The words of a laid-out line are its tokens. *)
Lemma split_flatten (lead : str) (toks : list (str * str)) :
  all_space lead = true -> well_spaced toks = true ->
  split (flatten lead toks) = map fst toks.
Proof.
  intros Hlead Htoks. unfold flatten. rewrite (split_spaces _ _ Hlead).
  clear lead Hlead. induction toks as [|[w sp] toks IH]; [reflexivity|].
  cbn [map concat fst snd]. rewrite <- app_assoc.
  destruct toks as [|t toks].
  - cbn [well_spaced] in Htoks. apply andb_true_iff in Htoks.
    destruct Htoks as [Hw Hsp]. cbn [map concat]. rewrite app_nil_r.
    rewrite split_word; [| exact Hw |].
    + now rewrite <- (app_nil_r sp), (split_spaces _ _ Hsp).
    + destruct sp as [|c sp]; [reflexivity|]. simpl in *.
      now apply andb_true_iff in Hsp.
  - cbn [well_spaced] in Htoks. destruct t as [w' sp'].
    repeat (apply andb_true_iff in Htoks; destruct Htoks as [Htoks ?]).
    rename Htoks into Hw.
    assert (Hne : sp <> []) by (destruct sp; [discriminate | easy]).
    rewrite split_word; [| exact Hw | now apply starts_with_space_app].
    rewrite split_spaces by assumption.
    f_equal. now apply IH.
Qed.

End Words.

(** ** Substitution by patterns that look at the text only *)
Module SubFacts.
Import Vocabulary PyFacts Words.

(** Case analysis on the 256 characters. *)
Ltac each_char c :=
  destruct c as [[] [] [] [] [] [] [] []]; vm_compute; try reflexivity;
  try discriminate; try (intros; discriminate); auto.

Lemma lower_az_word (c : ascii) : is_lower_az c = true -> is_word c = true.
Proof. each_char c. Qed.

Lemma lower_az_no_space (c : ascii) : is_lower_az c = true -> is_space c = false.
Proof. each_char c. Qed.

Lemma lower_az_ascii (c : ascii) : is_lower_az c = true -> is_ascii c = true.
Proof. each_char c. Qed.

Lemma lower_az_lower (c : ascii) : is_lower_az c = true -> lower_char c = c.
Proof. each_char c. Qed.

(** [re.sub] of a one-character class by nothing is a filter. *)
Lemma sub_class_filter (cls : ascii -> bool) (s : str) :
  forall prev,
    Re.sub_from (Re.char_class cls) [] prev 0 s
    = filter (fun c => negb (cls c)) s.
Proof.
  induction s as [|c s IH]; intro prev; [reflexivity|].
  cbn [Re.sub_from Re.char_class filter].
  destruct (cls c); cbn [negb app]; [apply IH | now rewrite IH].
Qed.

Lemma sub_from_ignores_prev (p : Re.pattern) (repl : str) :
  ignores_prev p ->
  forall s prev prev' skip,
    Re.sub_from p repl prev skip s = Re.sub_from p repl prev' skip s.
Proof.
  intros Hp. induction s as [|c s IH]; intros prev prev' skip; [reflexivity|].
  cbn [Re.sub_from]. destruct skip as [|n]; [|reflexivity].
  now rewrite (Hp prev prev').
Qed.

(** Passing over the rest of a match. *)
Lemma sub_from_skip (p : Re.pattern) (repl : str) :
  ignores_prev p ->
  forall l rest prev,
    Re.sub_from p repl prev (length l) (l ++ rest)
    = Re.sub_from p repl prev 0 rest.
Proof.
  intros Hp. induction l as [|c l IH]; intros rest prev.
  - reflexivity.
  - cbn [length app Re.sub_from]. rewrite IH.
    now apply sub_from_ignores_prev.
Qed.

Lemma class_plus_ignores_prev (cls : ascii -> bool) :
  ignores_prev (Re.class_plus cls).
Proof. intros prev prev' s. reflexivity. Qed.

Lemma takewhile_spaces (sp rest : str) :
  all_space sp = true -> word_start rest = true ->
  takewhile is_space (sp ++ rest) = sp.
Proof.
  intros Hsp Hrest. induction sp as [|c sp IH]; cbn [app].
  - destruct rest as [|d rest]; [reflexivity|]. cbn in *.
    apply negb_true_iff in Hrest. now rewrite Hrest.
  - cbn in Hsp. apply andb_true_iff in Hsp. destruct Hsp as [Hc Hsp].
    cbn [takewhile]. rewrite Hc. now rewrite IH.
Qed.

(** A run of whitespace before a word, or before the end, becomes [repl]. *)
Lemma sub_spaces_run (repl sp rest : str) :
  all_space sp = true -> sp <> [] -> word_start rest = true ->
  sub_spaces repl (sp ++ rest) = repl ++ sub_spaces repl rest.
Proof.
  intros Hsp Hne Hrest. unfold sub_spaces, Re.sub.
  destruct sp as [|c sp]; [now elim Hne|].
  cbn [app Re.sub_from]. unfold Re.class_plus at 1.
  change (c :: sp ++ rest) with ((c :: sp) ++ rest).
  rewrite (takewhile_spaces _ _ Hsp Hrest). cbn [length].
  rewrite sub_from_skip by apply class_plus_ignores_prev.
  f_equal. apply sub_from_ignores_prev, class_plus_ignores_prev.
Qed.

(** A word is copied. *)
Lemma sub_spaces_word (repl w rest : str) :
  no_space w = true ->
  sub_spaces repl (w ++ rest) = w ++ sub_spaces repl rest.
Proof.
  intros Hw. unfold sub_spaces, Re.sub. generalize (@None ascii) at 1.
  induction w as [|c w IH]; intro prev.
  - apply sub_from_ignores_prev, class_plus_ignores_prev.
  - cbn in Hw. apply andb_true_iff in Hw. destruct Hw as [Hc Hw].
    apply negb_true_iff in Hc.
    cbn [app Re.sub_from]. unfold Re.class_plus at 1. cbn [takewhile].
    rewrite Hc. cbn [length]. f_equal. now apply IH.
Qed.

End SubFacts.

(** ** Collapsing and trimming whitespace *)
Module Spacing.
Import Vocabulary PyFacts Words SubFacts.

(** Every string is a laid-out line. *)
Lemma layout_exists (s : str) :
  exists lead toks,
    s = flatten lead toks /\ all_space lead = true /\ well_spaced toks = true.
Proof.
  induction s as [|c s IH].
  - now exists [], [].
  - destruct IH as (lead & toks & -> & Hlead & Htoks).
    destruct (is_space c) eqn:Hc.
    + exists (c :: lead), toks. repeat split; [| exact Htoks].
      cbn. now rewrite Hc.
    + destruct lead as [|l0 lead].
      * destruct toks as [|[w sp] toks].
        -- exists [], [([c], [])]. repeat split. cbn. now rewrite Hc.
        -- exists [], ((c :: w, sp) :: toks). repeat split.
           destruct toks as [|t toks]; cbn in *; rewrite Hc; cbn;
             destruct w; try discriminate; exact Htoks.
      * exists [], (([c], l0 :: lead) :: toks). split; [reflexivity|].
        split; [reflexivity|].
        destruct toks as [|t toks]; cbn [well_spaced is_token no_space forallb];
          rewrite Hc; cbn [negb andb]; [exact Hlead|].
        rewrite Hlead. cbn. exact Htoks.
Qed.

Lemma token_head (w : str) :
  is_token w = true -> exists c w', w = c :: w' /\ is_space c = false.
Proof.
  destruct w as [|c w]; [discriminate|]. cbn. intro H.
  apply andb_true_iff in H. destruct H as [Hc _].
  exists c, w. split; [reflexivity | now apply negb_true_iff].
Qed.

Lemma token_no_space (w : str) : is_token w = true -> no_space w = true.
Proof. destruct w; [discriminate | easy]. Qed.

Lemma well_spaced_head (w sp : str) (toks : list (str * str)) :
  well_spaced ((w, sp) :: toks) = true ->
  is_token w = true /\ all_space sp = true /\ well_spaced toks = true
  /\ (toks <> [] -> sp <> []).
Proof.
  destruct toks as [|t toks]; cbn [well_spaced]; intro H.
  - apply andb_true_iff in H. destruct H as [H1 H2]. now repeat split.
  - destruct t as [w' sp'].
    repeat (apply andb_true_iff in H; destruct H as [H ?]).
    repeat split; try assumption.
    intros _. destruct sp; [discriminate | easy].
Qed.

Lemma body_word_start (toks : list (str * str)) :
  well_spaced toks = true -> word_start (body toks) = true.
Proof.
  destruct toks as [|[w sp] toks]; [reflexivity|]. intro H.
  apply well_spaced_head in H. destruct H as (Hw & _).
  destruct (token_head w Hw) as (c & w' & -> & Hc).
  cbn. now rewrite Hc.
Qed.

Lemma sub_spaces_body (toks : list (str * str)) :
  well_spaced toks = true ->
  sub_spaces (py " ") (body toks) = collapsed_body toks.
Proof.
  induction toks as [|[w sp] toks IH]; intro H; [reflexivity|].
  apply well_spaced_head in H. destruct H as (Hw & Hsp & Htoks & Hne).
  unfold body, collapsed_body. cbn [map concat fst snd].
  rewrite <- !app_assoc.
  rewrite sub_spaces_word by now apply token_no_space.
  f_equal. fold (body toks). fold (collapsed_body toks).
  destruct sp as [|c sp]; [now apply IH|].
  rewrite sub_spaces_run;
    [| exact Hsp | easy | now apply body_word_start].
  cbn [one_space]. f_equal. now apply IH.
Qed.

Lemma sub_spaces_flatten (lead : str) (toks : list (str * str)) :
  all_space lead = true -> well_spaced toks = true ->
  sub_spaces (py " ") (flatten lead toks) = one_space lead ++ collapsed_body toks.
Proof.
  intros Hlead Htoks. unfold flatten. fold (body toks).
  destruct lead as [|c lead]; [now apply sub_spaces_body|].
  rewrite sub_spaces_run;
    [| exact Hlead | easy | now apply body_word_start].
  cbn [one_space]. f_equal. now apply sub_spaces_body.
Qed.

Lemma dropwhile_all {A} (p : A -> bool) (l1 l2 : list A) :
  forallb p l1 = true -> dropwhile p (l1 ++ l2) = dropwhile p l2.
Proof.
  induction l1 as [|x l1 IH]; [reflexivity|]. cbn. intro H.
  apply andb_true_iff in H. destruct H as [Hx Hl]. rewrite Hx. now apply IH.
Qed.

Lemma dropwhile_keeps {A} (p : A -> bool) (l1 l2 : list A) :
  dropwhile p l1 <> [] -> dropwhile p (l1 ++ l2) = dropwhile p l1 ++ l2.
Proof.
  induction l1 as [|x l1 IH]; [easy|]. cbn.
  destruct (p x); [exact IH | reflexivity].
Qed.

Lemma rstrip_app (a b : str) :
  rstrip b <> [] -> rstrip (a ++ b) = a ++ rstrip b.
Proof.
  unfold rstrip. intro H. rewrite rev_app_distr.
  rewrite dropwhile_keeps.
  - now rewrite rev_app_distr, rev_involutive.
  - intro E. apply H. now rewrite E.
Qed.

Lemma rstrip_token (w sp : str) :
  is_token w = true -> all_space sp = true -> rstrip (w ++ sp) = w.
Proof.
  intros Hw Hsp. unfold rstrip. rewrite rev_app_distr.
  rewrite dropwhile_all by (unfold all_space in Hsp; now rewrite forallb_rev).
  destruct (rev w) as [|x l] eqn:E.
  - apply (f_equal (@rev _)) in E. rewrite rev_involutive in E. now subst.
  - cbn [dropwhile].
    assert (Hx : is_space x = false).
    { apply token_no_space in Hw. unfold no_space in Hw.
      rewrite forallb_forall in Hw. apply negb_true_iff, Hw.
      apply in_rev. rewrite E. now left. }
    rewrite Hx. rewrite <- E. apply rev_involutive.
Qed.

Lemma one_space_all_space (sp : str) : all_space (one_space sp) = true.
Proof. now destruct sp. Qed.

Lemma join_sp_cons (w : str) (v : str) (ws : list str) :
  join_sp (w :: v :: ws) = w ++ py " " ++ join_sp (v :: ws).
Proof. reflexivity. Qed.

Lemma join_sp_nonempty (w : str) (ws : list str) :
  w <> [] -> join_sp (w :: ws) <> [].
Proof.
  intro H. destruct ws; cbn [join_sp]; [exact H|].
  destruct w; [now elim H | discriminate].
Qed.

Lemma rstrip_collapsed_body (toks : list (str * str)) :
  well_spaced toks = true ->
  rstrip (collapsed_body toks) = join_sp (map fst toks).
Proof.
  induction toks as [|[w sp] toks IH]; intro H; [reflexivity|].
  apply well_spaced_head in H. destruct H as (Hw & Hsp & Htoks & Hne).
  unfold collapsed_body. cbn [map concat fst snd]. fold (collapsed_body toks).
  destruct toks as [|[w' sp'] toks].
  - cbn [collapsed_body map concat]. rewrite app_nil_r.
    apply rstrip_token; [exact Hw | apply one_space_all_space].
  - specialize (IH Htoks).
    assert (Hsp1 : one_space sp = py " ")
      by (destruct sp; [now elim Hne | reflexivity]).
    rewrite Hsp1, <- app_assoc.
    cbn [map fst]. rewrite join_sp_cons.
    rewrite rstrip_app.
    + rewrite rstrip_app; [now rewrite IH|].
      rewrite IH. cbn [map fst]. apply join_sp_nonempty.
      apply well_spaced_head in Htoks. destruct Htoks as (Hw' & _).
      destruct w'; [discriminate | easy].
    + rewrite rstrip_app; [discriminate|].
      rewrite IH. cbn [map fst]. apply join_sp_nonempty.
      apply well_spaced_head in Htoks. destruct Htoks as (Hw' & _).
      destruct w'; [discriminate | easy].
Qed.

Lemma collapsed_body_word_start (toks : list (str * str)) :
  well_spaced toks = true -> word_start (collapsed_body toks) = true.
Proof.
  destruct toks as [|[w sp] toks]; [reflexivity|]. intro H.
  apply well_spaced_head in H. destruct H as (Hw & _).
  destruct (token_head w Hw) as (c & w' & -> & Hc).
  cbn. now rewrite Hc.
Qed.

Lemma lstrip_word_start (s : str) : word_start s = true -> lstrip s = s.
Proof.
  destruct s as [|c s]; [reflexivity|]. cbn. intro H.
  apply negb_true_iff in H. now rewrite H.
Qed.

(** Collapsing the whitespace of a string and trimming it leaves its words
    joined by single spaces. *)
Lemma strip_sub_spaces (s : str) :
  strip (sub_spaces (py " ") s) = join_sp (split s).
Proof.
  destruct (layout_exists s) as (lead & toks & -> & Hlead & Htoks).
  rewrite sub_spaces_flatten, split_flatten by assumption.
  unfold strip. unfold lstrip at 1.
  rewrite dropwhile_all by apply one_space_all_space.
  fold (lstrip (collapsed_body toks)).
  rewrite lstrip_word_start by now apply collapsed_body_word_start.
  now apply rstrip_collapsed_body.
Qed.

(** The words of words joined by single spaces. *)
Lemma split_join_sp (ws : list str) :
  forallb is_token ws = true -> split (join_sp ws) = ws.
Proof.
  induction ws as [|w ws IH]; [reflexivity|]. cbn [forallb]. intro H.
  apply andb_true_iff in H. destruct H as [Hw Hws].
  destruct ws as [|v ws].
  - cbn [join_sp]. rewrite <- (app_nil_r w) at 1. now rewrite split_word.
  - rewrite join_sp_cons. rewrite split_word; [| exact Hw | reflexivity].
    f_equal. change (py " " ++ join_sp (v :: ws)) with (" "%char :: join_sp (v :: ws)).
    cbn [split]. change (is_space " ") with true. cbn iota. now apply IH.
Qed.

(** The words of a string are tokens made of its characters. *)
Lemma split_tokens (s : str) : forallb is_token (split s) = true.
Proof.
  destruct (layout_exists s) as (lead & toks & -> & Hlead & Htoks).
  rewrite split_flatten by assumption. clear lead Hlead.
  induction toks as [|[w sp] toks IH]; [reflexivity|].
  apply well_spaced_head in Htoks. destruct Htoks as (Hw & _ & Htoks & _).
  cbn [map fst forallb]. rewrite Hw. now apply IH.
Qed.

Lemma split_chars (s w : str) (c : ascii) :
  In w (split s) -> In c w -> In c s.
Proof.
  destruct (layout_exists s) as (lead & toks & -> & Hlead & Htoks).
  rewrite split_flatten by assumption. unfold flatten.
  intros Hw Hc. apply in_or_app. right. clear lead Hlead Htoks.
  apply in_map_iff in Hw. destruct Hw as ([w0 sp] & <- & Ht).
  apply in_concat. exists (w0 ++ sp). split.
  - apply in_map_iff. now exists (w0, sp).
  - apply in_or_app. now left.
Qed.

End Spacing.

(** ** The title pattern on name keys *)
Module Titles.
Import Automation Vocabulary PyFacts Words SubFacts Spacing.

Lemma strip_prefix_app (t s rest : str) :
  Re.strip_prefix t s = Some rest -> s = t ++ rest.
Proof.
  revert s. induction t as [|d t IH]; intros s; cbn.
  - intro H. now injection H as ->.
  - destruct s as [|c s]; [discriminate|].
    destruct (char_eqb c d) eqn:E; [|discriminate].
    apply char_eqb_eq in E. subst d. intro H. f_equal. now apply IH.
Qed.

Lemma last_lower (t : str) (d : ascii) :
  t <> [] -> forallb is_lower_az t = true -> is_lower_az (last t d) = true.
Proof.
  intros Hne H. rewrite forallb_forall in H. apply H.
  destruct t as [|c t]; [now elim Hne|].
  clear. revert c. induction t as [|b t IH]; intro c; [now left|].
  right. apply IH.
Qed.

Lemma last_cons (w : str) : forall d p, last (d :: w) p = last w d.
Proof.
  induction w as [|a w IH]; intros d p; [reflexivity|].
  change (last (d :: a :: w) p) with (last (a :: w) p).
  now rewrite !IH.
Qed.

(** No alternative matches at the start of a word that is none of them. *)
Lemma alternation_b_none (alts : list str) (w tail : str) :
  (forall t, In t alts -> t <> [] /\ forallb is_lower_az t = true) ->
  forallb is_lower_az w = true ->
  ~ In w alts ->
  word_end tail ->
  Re.alternation_b alts (w ++ tail) = None.
Proof.
  intros Halts Hw Hnot Htail.
  induction alts as [|t alts IH]; [reflexivity|].
  cbn [Re.alternation_b].
  assert (IH' : Re.alternation_b alts (w ++ tail) = None).
  { apply IH.
    - intros t' Ht'. apply Halts. now right.
    - intro Hin. apply Hnot. now right. }
  destruct (Re.strip_prefix t (w ++ tail)) as [rest|] eqn:E; [|exact IH'].
  destruct (Halts t (or_introl eq_refl)) as [Hne Hlow].
  apply strip_prefix_app in E. apply app_eq_app in E.
  destruct E as [l [[-> ->]|[-> ->]]].
  - destruct l as [|c l].
    + exfalso. apply Hnot. left. now rewrite app_nil_r.
    + rewrite forallb_app in Hw. apply andb_true_iff in Hw.
      destruct Hw as [_ Hl]. cbn in Hl. apply andb_true_iff in Hl.
      destruct Hl as [Hc _].
      cbn [app hd_error]. unfold Re.word_boundary. cbn [Re.is_word_opt].
      rewrite (lower_az_word _ (last_lower t _ Hne Hlow)).
      rewrite (lower_az_word _ Hc). exact IH'.
  - destruct l as [|c l].
    + exfalso. apply Hnot. left. now rewrite app_nil_r.
    + exfalso. cbn in Htail.
      rewrite forallb_app in Hlow. apply andb_true_iff in Hlow.
      destruct Hlow as [_ Hl]. cbn in Hl. apply andb_true_iff in Hl.
      destruct Hl as [Hc _]. congruence.
Qed.

Lemma titles_lower (t : str) :
  In t titles -> t <> [] /\ forallb is_lower_az t = true.
Proof.
  assert (H : forallb lower_word titles = true) by reflexivity.
  rewrite forallb_forall in H. intro Hin. specialize (H t Hin).
  destruct t; [discriminate|]. split; [discriminate | exact H].
Qed.

Lemma alternation_b_space (rest : str) :
  Re.alternation_b titles (" "%char :: rest) = None.
Proof. reflexivity. Qed.

(** Inside a word the pattern finds no boundary to start at. *)
Lemma sub_titles_inside (tail w : str) :
  forall prevc,
    is_word prevc = true -> forallb is_lower_az w = true ->
    Re.sub_from titles_re [] (Some prevc) 0 (w ++ tail)
    = w ++ Re.sub_from titles_re [] (Some (last w prevc)) 0 tail.
Proof.
  induction w as [|d w IH]; intros prevc Hprev Hw; [reflexivity|].
  cbn in Hw. apply andb_true_iff in Hw. destruct Hw as [Hd Hw].
  cbn [app Re.sub_from].
  unfold titles_re at 1, Re.words_dot_spaces, Re.word_boundary.
  cbn [hd_error Re.is_word_opt]. rewrite Hprev, (lower_az_word _ Hd).
  cbn [xorb]. f_equal. rewrite (IH d (lower_az_word _ Hd) Hw).
  now rewrite last_cons.
Qed.

(** A word that is no title is copied. *)
Lemma sub_titles_word (w tail : str) (prev : option ascii) :
  lower_word w = true -> ~ In w titles -> word_end tail ->
  Re.sub_from titles_re [] prev 0 (w ++ tail)
  = w ++ Re.sub_from titles_re [] (Some (last w "000"%char)) 0 tail.
Proof.
  intros Hw Hnot Htail. destruct w as [|c w]; [discriminate|].
  cbn [lower_word] in Hw.
  pose proof Hw as Hcw. cbn in Hcw. apply andb_true_iff in Hcw.
  destruct Hcw as [Hc Hw'].
  change ((c :: w) ++ tail) with (c :: w ++ tail) at 1.
  cbn [Re.sub_from].
  assert (Hnone : titles_re prev (c :: w ++ tail) = None).
  { unfold titles_re, Re.words_dot_spaces.
    change (c :: w ++ tail) with ((c :: w) ++ tail).
    rewrite (alternation_b_none titles (c :: w) tail titles_lower Hw Hnot Htail).
    now destruct (Re.word_boundary _ _). }
  rewrite Hnone. cbn [app]. f_equal.
  rewrite (sub_titles_inside tail w c (lower_az_word _ Hc) Hw').
  now rewrite last_cons.
Qed.

(** The title pattern leaves a key without titles as it is. *)
Lemma sub_titles_join (ws : list str) :
  forallb lower_word ws = true ->
  (forall w, In w ws -> ~ In w titles) ->
  forall prev, Re.sub_from titles_re [] prev 0 (join_sp ws) = join_sp ws.
Proof.
  induction ws as [|w ws IH]; intros Hws Hnot prev; [reflexivity|].
  cbn [forallb] in Hws. apply andb_true_iff in Hws. destruct Hws as [Hw Hws].
  assert (Hw_not : ~ In w titles) by (apply Hnot; now left).
  assert (Hnot' : forall v, In v ws -> ~ In v titles)
    by (intros v Hv; apply Hnot; now right).
  destruct ws as [|v ws].
  - cbn [join_sp]. rewrite <- (app_nil_r w) at 1.
    rewrite (sub_titles_word w [] prev Hw Hw_not I). cbn. apply app_nil_r.
  - rewrite join_sp_cons.
    rewrite (sub_titles_word w _ prev Hw Hw_not); [|reflexivity].
    f_equal. change (py " " ++ join_sp (v :: ws)) with (" "%char :: join_sp (v :: ws)).
    cbn [Re.sub_from].
    assert (Hnone : forall p, titles_re p (" "%char :: join_sp (v :: ws)) = None).
    { intro p. unfold titles_re, Re.words_dot_spaces.
      rewrite alternation_b_space. now destruct (Re.word_boundary _ _). }
    rewrite Hnone. f_equal. now apply IH.
Qed.

Lemma key_char_ascii (c : ascii) : key_char c = true -> is_ascii c = true.
Proof. each_char c. Qed.

Lemma key_char_lower (c : ascii) : key_char c = true -> lower_char c = c.
Proof. each_char c. Qed.

Lemma key_char_kept (c : ascii) :
  key_char c = true -> negb (not_letter_or_space c) = true.
Proof. each_char c. Qed.

Lemma lower_word_key_chars (w : str) :
  lower_word w = true -> forallb key_char w = true.
Proof.
  intro H. destruct w as [|c w]; [discriminate|]. cbn [lower_word] in H.
  rewrite forallb_forall in *. intros d Hd. unfold key_char.
  now rewrite (H d Hd).
Qed.

Lemma join_sp_key_chars (ws : list str) :
  forallb lower_word ws = true -> forallb key_char (join_sp ws) = true.
Proof.
  induction ws as [|w ws IH]; [reflexivity|]. cbn [forallb]. intro H.
  apply andb_true_iff in H. destruct H as [Hw Hws].
  destruct ws as [|v ws]; [now apply lower_word_key_chars|].
  rewrite join_sp_cons, !forallb_app.
  rewrite (lower_word_key_chars _ Hw), (IH Hws). reflexivity.
Qed.

Lemma lower_word_token (w : str) : lower_word w = true -> is_token w = true.
Proof.
  destruct w as [|c w]; [discriminate|]. cbn [lower_word is_token no_space].
  intro H. apply forallb_forall. intros d Hd.
  rewrite forallb_forall in H. now rewrite (lower_az_no_space _ (H d Hd)).
Qed.

Lemma lower_words_tokens (ws : list str) :
  forallb lower_word ws = true -> forallb is_token ws = true.
Proof.
  intro H. rewrite forallb_forall in *. intros w Hw.
  now apply lower_word_token, H.
Qed.

Lemma strip_join_sp (ws : list str) :
  forallb is_token ws = true -> strip (join_sp ws) = join_sp ws.
Proof.
  intro H. unfold strip.
  assert (Hl : lstrip (join_sp ws) = join_sp ws).
  { apply lstrip_word_start. destruct ws as [|w ws]; [reflexivity|].
    cbn [forallb] in H. apply andb_true_iff in H. destruct H as [Hw _].
    destruct (token_head w Hw) as (c & w' & -> & Hc).
    destruct ws; cbn; now rewrite Hc. }
  rewrite Hl. clear Hl.
  induction ws as [|w ws IH]; [reflexivity|].
  cbn [forallb] in H. apply andb_true_iff in H. destruct H as [Hw Hws].
  destruct ws as [|v ws].
  - cbn [join_sp]. rewrite <- (app_nil_r w) at 1. now apply rstrip_token.
  - rewrite join_sp_cons.
    assert (Hne : rstrip (join_sp (v :: ws)) <> []).
    { rewrite (IH Hws). apply join_sp_nonempty.
      cbn [forallb] in Hws. apply andb_true_iff in Hws.
      destruct Hws as [Hv _]. destruct v; [discriminate | easy]. }
    rewrite rstrip_app; [rewrite rstrip_app; [now rewrite IH | exact Hne]|].
    rewrite rstrip_app; [discriminate | exact Hne].
Qed.

(** A substitution by at most one character does not lengthen the text. *)
Lemma sub_from_length (p : Re.pattern) (repl : str) :
  length repl <= 1 ->
  forall s prev skip, length (Re.sub_from p repl prev skip s) <= length s.
Proof.
  intros Hr. induction s as [|c s IH]; intros prev skip; [cbn; lia|].
  cbn [Re.sub_from length]. destruct skip as [|n].
  - destruct (p prev (c :: s)) as [[|n]|]; cbn [length].
    + specialize (IH (Some c) 0). lia.
    + rewrite length_app. specialize (IH (Some c) n). lia.
    + specialize (IH (Some c) 0). lia.
  - specialize (IH (Some c) n). lia.
Qed.

Lemma dropwhile_length {A} (p : A -> bool) (l : list A) :
  length (dropwhile p l) <= length l.
Proof.
  induction l as [|x l IH]; cbn; [lia|]. destruct (p x); cbn; lia.
Qed.

Lemma strip_length (s : str) : length (strip s) <= length s.
Proof.
  unfold strip, rstrip, lstrip. rewrite length_rev.
  etransitivity; [apply dropwhile_length|]. rewrite length_rev.
  apply dropwhile_length.
Qed.

(** At the start of a word that is a title, some alternative matches. *)
Lemma alternation_b_some (alts : list str) (w tail : str) :
  (forall t, In t alts -> t <> [] /\ forallb is_lower_az t = true) ->
  In w alts ->
  Re.is_word_opt (hd_error tail) = false ->
  exists rest,
    Re.alternation_b alts (w ++ tail) = Some rest
    /\ length rest < length (w ++ tail).
Proof.
  intros Halts Hin Htail. induction alts as [|t alts IH]; [easy|].
  cbn [Re.alternation_b].
  destruct (Halts t (or_introl eq_refl)) as [Hne Hlow].
  assert (Hshort : forall rest, Re.strip_prefix t (w ++ tail) = Some rest ->
                                length rest < length (w ++ tail)).
  { intros rest E. apply strip_prefix_app in E. rewrite E, length_app.
    destruct t; [now elim Hne | cbn; lia]. }
  assert (Hlater : In w alts ->
                   exists rest, Re.alternation_b alts (w ++ tail) = Some rest
                                /\ length rest < length (w ++ tail)).
  { intro H. apply IH; [|exact H]. intros t' Ht'. apply Halts. now right. }
  destruct (Re.strip_prefix t (w ++ tail)) as [rest|] eqn:E.
  - destruct (Re.word_boundary _ (hd_error rest)) eqn:Eb;
      [exists rest; split; [reflexivity | now apply Hshort]|].
    destruct Hin as [->|Hin]; [|now apply Hlater].
    exfalso. apply strip_prefix_app, app_inv_head in E. subst rest.
    unfold Re.word_boundary in Eb. cbn [Re.is_word_opt] in Eb.
    rewrite (lower_az_word _ (last_lower w _ Hne Hlow)), Htail in Eb.
    discriminate.
  - destruct Hin as [->|Hin]; [|now apply Hlater].
    exfalso. clear - E. induction w as [|c w IHw]; cbn in E; [discriminate|].
    rewrite char_eqb_refl in E. now apply IHw.
Qed.

(** At the start of a word that is a title, the title pattern matches. *)
Lemma titles_re_some (w tail : str) (prev : option ascii) :
  In w titles ->
  Re.is_word_opt prev = false ->
  Re.is_word_opt (hd_error tail) = false ->
  exists n, titles_re prev (w ++ tail) = Some (S n).
Proof.
  intros Hin Hprev Htail.
  destruct (titles_lower w Hin) as [Hne Hlow].
  destruct (alternation_b_some titles w tail titles_lower Hin Htail)
    as [rest [Hrest Hlen]].
  unfold titles_re, Re.words_dot_spaces. rewrite Hrest.
  assert (Hb : Re.word_boundary prev (hd_error (w ++ tail)) = true).
  { destruct w as [|c w]; [now elim Hne|]. cbn [app hd_error].
    unfold Re.word_boundary. rewrite Hprev. cbn [Re.is_word_opt].
    cbn in Hlow. apply andb_true_iff in Hlow. destruct Hlow as [Hc _].
    now rewrite (lower_az_word _ Hc). }
  rewrite Hb.
  set (rest' := match rest with [] => rest | _ => _ end).
  assert (Hrest' : length rest' <= length rest).
  { subst rest'. destruct rest as [|c r]; [lia|].
    destruct (code c =? 46); cbn; lia. }
  pose proof (dropwhile_length is_space rest') as Hd.
  exists (length (w ++ tail) - length (dropwhile is_space rest') - 1).
  f_equal. lia.
Qed.

(** The title pattern shortens a key that has a title among its words. *)
Lemma sub_titles_shortens (ws : list str) :
  forallb lower_word ws = true ->
  (exists w, In w ws /\ In w titles) ->
  forall prev,
    Re.is_word_opt prev = false ->
    length (Re.sub_from titles_re [] prev 0 (join_sp ws)) < length (join_sp ws).
Proof.
  induction ws as [|w ws IH]; intros Hws [t [Ht Htitle]] prev Hprev; [easy|].
  cbn [forallb] in Hws. apply andb_true_iff in Hws. destruct Hws as [Hw Hws].
  assert (Htail : forall tail,
             tail = [] \/ (exists s, tail = " "%char :: s) ->
             In w titles ->
             length (Re.sub_from titles_re [] prev 0 (w ++ tail))
             < length (w ++ tail)).
  { intros tail Hshape Hwt.
    destruct (titles_re_some w tail prev Hwt Hprev) as [n Hn].
    { destruct Hshape as [->|[s ->]]; reflexivity. }
    destruct w as [|c w]; [discriminate|].
    cbn [app Re.sub_from]. cbn [app] in Hn. rewrite Hn. cbn [app length].
    pose proof (sub_from_length titles_re [] (Nat.le_0_l 1) (w ++ tail)
                  (Some c) n). lia. }
  destruct (in_dec (list_eq_dec ascii_dec) w titles) as [Hwt|Hwt].
  - destruct ws as [|v ws].
    + cbn [join_sp]. rewrite <- (app_nil_r w). apply Htail; [now left | exact Hwt].
    + rewrite join_sp_cons. apply Htail; [right; now eexists | exact Hwt].
  - destruct Ht as [->|Ht]; [contradiction|].
    destruct ws as [|v ws]; [easy|].
    rewrite join_sp_cons.
    rewrite (sub_titles_word w _ prev Hw Hwt); [|reflexivity].
    change (py " " ++ join_sp (v :: ws)) with (" "%char :: join_sp (v :: ws)).
    cbn [Re.sub_from].
    assert (Hnone : forall p, titles_re p (" "%char :: join_sp (v :: ws)) = None).
    { intro p. unfold titles_re, Re.words_dot_spaces.
      rewrite alternation_b_space. now destruct (Re.word_boundary _ _). }
    rewrite Hnone. rewrite !length_app. cbn [length].
    specialize (IH Hws (ex_intro _ t (conj Ht Htitle)) (Some " "%char) eq_refl).
    lia.
Qed.

(** A key is a sequence of lower-case words joined by single spaces. *)
Lemma normalize_name_shape (unidecode : str -> str) (x : cell) :
  exists ws,
    normalize_name unidecode x = join_sp ws /\ forallb lower_word ws = true.
Proof.
  destruct x as [|s]; [now exists []|].
  unfold normalize_name.
  set (t := Re.sub titles_re [] _).
  change (Re.sub (Re.class_plus is_space) (py " ")) with (sub_spaces (py " ")).
  rewrite strip_sub_spaces.
  unfold Re.sub. rewrite sub_class_filter.
  set (z := filter _ t).
  exists (split z). split; [reflexivity|].
  pose proof (split_tokens z) as Htok.
  rewrite forallb_forall in *. intros w Hw. specialize (Htok w Hw).
  destruct w as [|c w]; [discriminate|].
  cbn [lower_word]. cbn [is_token] in Htok. unfold no_space in Htok.
  apply forallb_forall. intros d Hd.
  rewrite forallb_forall in Htok.
  specialize (Htok d Hd). apply negb_true_iff in Htok.
  pose proof (split_chars z _ d Hw Hd) as Hz.
  apply filter_In in Hz. destruct Hz as [_ Hz].
  unfold not_letter_or_space in Hz. rewrite negb_involutive, Htok in Hz.
  now rewrite orb_false_r in Hz.
Qed.

End Titles.

(** ** The index as a dictionary *)
Module IndexFacts.
Import Automation Report Vocabulary PyFacts.

Lemma dict_get_set (d : dict) (k v k' : str) :
  dict_get (dict_set d k v) k' = if str_eqb k k' then Some v else dict_get d k'.
Proof.
  induction d as [|[k0 v0] d IH]; simpl.
  - reflexivity.
  - destruct (str_eqb k0 k) eqn:E0; simpl.
    + apply str_eqb_eq in E0. subst k0.
      destruct (str_eqb k k'); reflexivity.
    + rewrite IH. destruct (str_eqb k0 k') eqn:E1; [|reflexivity].
      apply str_eqb_eq in E1. subst k0.
      destruct (str_eqb k k') eqn:E2; [|reflexivity].
      apply str_eqb_eq in E2. subst k'. rewrite str_eqb_refl in E0. discriminate.
Qed.

Lemma dict_keys_set (d : dict) (k v : str) :
  dict_keys (dict_set d k v)
  = if existsb (fun k0 => str_eqb k0 k) (dict_keys d) then dict_keys d
    else dict_keys d ++ [k].
Proof.
  induction d as [|[k0 v0] d IH]; simpl; [reflexivity|].
  destruct (str_eqb k0 k); simpl; [reflexivity|].
  rewrite IH. now destruct (existsb _ (dict_keys d)).
Qed.

Lemma dict_keys_set_nodup (d : dict) (k v : str) :
  NoDup (dict_keys d) -> NoDup (dict_keys (dict_set d k v)).
Proof.
  intro H. rewrite dict_keys_set.
  destruct (existsb _ (dict_keys d)) eqn:E; [exact H|].
  apply NoDup_rev in H. rewrite <- (rev_involutive (_ ++ _)).
  apply NoDup_rev. rewrite rev_app_distr. simpl. constructor; [|exact H].
  intro Hin. apply in_rev in Hin.
  assert (existsb (fun k0 => str_eqb k0 k) (dict_keys d) = true)
    by (apply existsb_exists; exists k; split; [exact Hin | apply str_eqb_refl]).
  congruence.
Qed.

Lemma dict_get_some_in (d : dict) (k v : str) :
  dict_get d k = Some v -> In k (dict_keys d).
Proof.
  induction d as [|[k0 v0] d IH]; simpl; [discriminate|].
  destruct (str_eqb k0 k) eqn:E; [apply str_eqb_eq in E; now left|].
  intro H. right. now apply IH.
Qed.

Lemma find_append {A} (p : A -> bool) (l1 l2 : list A) :
  find p (l1 ++ l2)
  = match find p l1 with Some x => Some x | None => find p l2 end.
Proof.
  induction l1 as [|x l1 IH]; simpl; [reflexivity|].
  now destruct (p x).
Qed.

Lemma find_absent {A} (p : A -> bool) (l : list A) :
  (forall x, In x l -> p x = false) -> find p l = None.
Proof.
  induction l as [|x l IH]; intro H; [reflexivity|]. cbn.
  rewrite (H x (or_introl eq_refl)). apply IH. intros y Hy. apply H. now right.
Qed.

Section Filing.

Variable unidecode : str -> str.

Lemma build_cert_map_fold (files : list str) :
  build_cert_map unidecode (Some files) = fold_left (file_entry unidecode) files [].
Proof. reflexivity. Qed.

Lemma fold_file_entry_get (files : list str) (certs : dict) (k : str) :
  dict_get (fold_left (file_entry unidecode) files certs) k
  = match last_filed (cert_key unidecode) k files with
    | Some f => Some f
    | None => dict_get certs k
    end.
Proof.
  revert certs. induction files as [|f files IH]; intro certs; [reflexivity|].
  cbn [fold_left]. rewrite IH. unfold last_filed. cbn [rev].
  rewrite find_append.
  destruct (find _ (rev files)); [reflexivity|].
  unfold file_entry. cbn [find].
  destruct (cert_key unidecode f) as [k'|]; [|reflexivity].
  rewrite dict_get_set. now destruct (str_eqb k' k).
Qed.

Lemma fold_file_entry_nodup (files : list str) (certs : dict) :
  NoDup (dict_keys certs) -> NoDup (dict_keys (fold_left (file_entry unidecode) files certs)).
Proof.
  revert certs. induction files as [|f files IH]; intros certs H; [exact H|].
  cbn [fold_left]. apply IH. unfold file_entry.
  destruct (cert_key unidecode f); [now apply dict_keys_set_nodup | exact H].
Qed.

Lemma cert_key_nonempty (f k : str) : cert_key unidecode f = Some k -> k <> [].
Proof.
  unfold cert_key. destruct (negb _); [discriminate|].
  destruct (normalize_name unidecode _); [discriminate|].
  intro H. injection H as <-. discriminate.
Qed.

Lemma fold_file_entry_nonempty (files : list str) (certs : dict) :
  Forall (fun k => k <> []) (dict_keys certs) ->
  Forall (fun k => k <> []) (dict_keys (fold_left (file_entry unidecode) files certs)).
Proof.
  revert certs. induction files as [|f files IH]; intros certs H; [exact H|].
  cbn [fold_left]. apply IH. unfold file_entry.
  destruct (cert_key unidecode f) as [k|] eqn:E; [|exact H].
  rewrite dict_keys_set. destruct (existsb _ _); [exact H|].
  apply Forall_app. split; [exact H|].
  constructor; [exact (cert_key_nonempty _ _ E) | constructor].
Qed.

(** No key of a built index is the empty string. *)
Lemma build_cert_map_keys_nonempty (listing : option (list str)) :
  Forall (fun k => k <> []) (dict_keys (build_cert_map unidecode listing)).
Proof.
  destruct listing as [files|]; [|constructor].
  rewrite build_cert_map_fold. apply fold_file_entry_nonempty. constructor.
Qed.

End Filing.

End IndexFacts.

(** ** The report, row by row *)
Module ReportFacts.
Import Automation Report Vocabulary PyFacts Tiers.

Lemma Forall2_in_left {A B} (P : A -> B -> Prop) (l1 : list A) (l2 : list B)
      (x : A) :
  Forall2 P l1 l2 -> In x l1 -> exists y, In y l2 /\ P x y.
Proof.
  induction 1 as [|a b l1 l2 Hab _ IH]; [easy|].
  intros [->|Hin].
  - exists b. split; [now left | exact Hab].
  - destruct (IH Hin) as [y [Hy Hp]]. exists y. split; [now right | exact Hp].
Qed.

Lemma Qgeb_le (x y : Q) : Difflib.Qgeb x y = true -> (y <= x)%Q.
Proof. unfold Difflib.Qgeb. apply Qle_bool_iff. Qed.

Lemma tier_outcome_consistent (cert_map : dict) (norm_name : str)
      (result rec : record) :
  certificate_found result = false ->
  certificate_filename result = None ->
  tier_outcome cert_map norm_name result rec ->
  consistent cert_map rec.
Proof.
  intros Hfound Hfile H. unfold consistent.
  destruct H as [f Hf | k f Hn Hk Hf | k f Hn Hin Hf Hc | Hn]; cbn.
  - repeat split; try easy; try (intros _; now left).
    intros _. now exists norm_name, f.
  - repeat split; try easy.
    + intros _. destruct (Difflib.Qgeb _ _); [now left | now right].
    + intros _. now exists k, f.
    + destruct (Difflib.Qgeb _ _) eqn:Hc; [|discriminate].
      intros _. apply Qgeb_le in Hc.
      apply Qle_trans with (7 # 10)%Q; [easy | exact Hc].
  - repeat split; try easy; try (intros _; now left).
    + intros _. now exists k, f.
    + intros _. now apply Qgeb_le.
  - rewrite Hfound, Hfile. repeat split; try easy.
    intros [H|H]; discriminate.
Qed.

(** Against anything but the empty string, the empty string has
    similarity 0, and [get_close_matches] proposes nothing for it. *)
Lemma ratio_empty_left (c : ascii) (k : str) :
  Difflib.ratio [] (c :: k) = Qmake 0 (Pos.of_nat (S (length k))).
Proof. reflexivity. Qed.

Lemma ratio_empty_below (k : str) (floor : Q) :
  k <> [] -> (0 < floor)%Q -> Difflib.Qgeb (Difflib.ratio [] k) floor = false.
Proof.
  intros Hk Hfloor. destruct k as [|c k]; [now elim Hk|].
  rewrite ratio_empty_left. unfold Difflib.Qgeb.
  destruct (Qle_bool floor _) eqn:E; [|reflexivity].
  apply Qle_bool_iff in E. exfalso.
  apply (Qlt_not_le _ _ Hfloor). apply (Qle_trans _ _ _ E).
  unfold Qle. simpl. lia.
Qed.

Lemma get_close_matches_empty (cert_keys : list str) (cutoff : Q) :
  Forall (fun k => k <> []) cert_keys -> (0 < cutoff)%Q ->
  Difflib.close_matches [] cert_keys cutoff = [].
Proof.
  intros Hkeys Hcut. unfold Difflib.close_matches.
  replace (flat_map _ cert_keys) with (@nil (Q * str)); [reflexivity|].
  induction Hkeys as [|k keys Hk _ IH]; [reflexivity|].
  cbn [flat_map]. rewrite <- IH.
  destruct k as [|c k]; [now elim Hk|].
  replace (Difflib.Qgeb (Difflib.real_quick_ratio (c :: k) []) cutoff) with false;
    [reflexivity|].
  unfold Difflib.real_quick_ratio, Difflib.Qgeb. cbn [length Nat.min].
  rewrite Nat.add_0_r. cbn [Difflib.calculate_ratio].
  destruct (Qle_bool cutoff _) eqn:E; [|reflexivity].
  apply Qle_bool_iff in E. exfalso.
  apply (Qlt_not_le _ _ Hcut). apply (Qle_trans _ _ _ E).
  unfold Qle. simpl. lia.
Qed.

Section Rows.

Variable unidecode : str -> str.
Variable cert_map : dict.

Lemma tier_outcome_keeps (norm_name : str) (result rec : record) :
  tier_outcome cert_map norm_name result rec ->
  index rec = index result
  /\ original_name rec = original_name result
  /\ original_email rec = original_email result
  /\ cleaned_email rec = cleaned_email result
  /\ normalized_name rec = normalized_name result
  /\ valid_email rec = valid_email result.
Proof. intro H. destruct H; cbn; repeat split. Qed.

(** The loop body raises nothing, records the row, and leaves the match
    fields consistent. *)
Lemma process_row_outcome (idx : nat) (r : row) :
  exists rec,
    process_row unidecode cert_map (dict_keys cert_map) idx r = Ok rec
    /\ records_row unidecode idx r rec
    /\ consistent cert_map rec
    /\ (valid_email rec = false -> status rec = invalid_email).
Proof.
  unfold process_row.
  set (norm_name := normalize_name unidecode _).
  set (result := mk_record _ _ _ _ _ _ _ _ _ _ _).
  destruct (valid_email result) eqn:Hvalid; cbn [negb].
  - destruct (match_tiers_outcome cert_map norm_name result
                (normalize_name_has_word unidecode _)) as [rec [Hrec Hout]].
    exists rec. split; [exact Hrec|].
    pose proof (tier_outcome_keeps _ _ _ Hout) as (H1 & H2 & H3 & H4 & H5 & H6).
    split; [|split].
    + unfold records_row. rewrite H1, H2, H3, H4, H5. now repeat split.
    + now apply (tier_outcome_consistent _ norm_name result).
    + rewrite H6, Hvalid. discriminate.
  - eexists. split; [reflexivity|]. split; [now repeat split|]. split.
    + unfold consistent. cbn. repeat split; try easy.
      intros [H|H]; discriminate.
    + reflexivity.
Qed.

(** The loop appends one record per row, built from the row and its
    position. *)
Lemma rows_loop_outcome (rows : list row) :
  forall idx results,
  exists recs,
    rows_loop unidecode cert_map (dict_keys cert_map) idx rows results
    = Ok (results ++ recs)
    /\ Forall2 (fun ir rec =>
                  process_row unidecode cert_map (dict_keys cert_map)
                              (fst ir) (snd ir) = Ok rec)
               (combine (seq idx (length rows)) rows) recs.
Proof.
  induction rows as [|r rows IH]; intros idx results.
  - exists []. rewrite app_nil_r. split; [reflexivity | constructor].
  - destruct (process_row_outcome idx r) as [rec [Hrec _]].
    destruct (IH (S idx) (results ++ [rec])) as [recs [Hloop Hall]].
    exists (rec :: recs). split.
    + cbn [rows_loop]. rewrite Hrec. cbn [bind]. rewrite Hloop.
      now rewrite <- app_assoc.
    + cbn [length seq combine]. now constructor.
Qed.

Lemma validate_outcome (df : list row) :
  exists recs,
    validate_data_and_certificates unidecode df cert_map = Ok recs
    /\ Forall2 (fun ir rec =>
                  process_row unidecode cert_map (dict_keys cert_map)
                              (fst ir) (snd ir) = Ok rec)
               (data_rows df) recs.
Proof.
  unfold validate_data_and_certificates, data_rows.
  destruct df as [|first_row df']; [exists []; split; [reflexivity | constructor]|].
  cbn [start_idx_of].
  set (start := if looks_like_header first_row then 1 else 0).
  destruct (rows_loop_outcome (skipn start (first_row :: df')) start [])
    as [recs [Hloop Hall]].
  exists recs. split; [exact Hloop|].
  now rewrite length_skipn in Hall.
Qed.

End Rows.

End ReportFacts.

(** ** Statements about the index, the tiers and the report *)
Module Claims.
Import Automation Report Vocabulary PyFacts AsciiInput Tiers ReportFacts.

Section Transliteration.

Variable unidecode : str -> str.
Hypothesis unidecode_ascii : ascii_fixed unidecode.

(** C3, as the code has it: from the listing
    ["Certificate_Harsha_pg001.pdf"; "Certificate_Amit_Kumar_2.pdf"] the
    index is {"harsha": first file, "amitkumar": second file}, in this
    order: the underscore between the name words is deleted with the other
    characters that are neither letters nor whitespace. *)
Theorem index_example_built :
  build_cert_map unidecode (Some example_files) = example_index_built.
Proof.
  rewrite (build_cert_map_ascii unidecode unidecode_ascii) by reflexivity.
  vm_compute. reflexivity.
Qed.

(** C4: a row whose e-mail is still invalid after repair is stopped before
    the tiers: whatever the index holds, its record in the report has
    status invalid_email, no tier, confidence 0, certificate_found false
    and no filename. *)
Theorem invalid_email_short_circuit (df : list row) (cert_map : dict)
        (idx : nat) (r : row) :
  In (idx, r) (data_rows df) ->
  clean_email (snd r) = [] ->
  process_row unidecode cert_map (dict_keys cert_map) idx r
  = Ok (invalid_record unidecode idx r)
  /\ exists recs,
       validate_data_and_certificates unidecode df cert_map = Ok recs
       /\ In (invalid_record unidecode idx r) recs.
Proof.
  intros Hin He.
  assert (Hrow : process_row unidecode cert_map (dict_keys cert_map) idx r
                 = Ok (invalid_record unidecode idx r))
    by (unfold process_row; rewrite He; reflexivity).
  split; [exact Hrow|].
  destruct (validate_outcome unidecode cert_map df) as [recs [Hv Hall]].
  exists recs. split; [exact Hv|].
  destruct (Forall2_in_left _ _ _ _ Hall Hin) as [rec [Hrec Hp]].
  cbn [fst snd] in Hp. rewrite Hrow in Hp. now injection Hp as <-.
Qed.

(** C8: a row with a valid e-mail whose normalised name is a key of the
    index is matched by the exact tier: tier exact, confidence 1.0, status
    matched, and the filename the index holds for the key. *)
Theorem exact_tier (cert_map : dict) (cert_keys : list str) (idx : nat)
        (r : row) (filename : str) :
  clean_email (snd r) <> [] ->
  dict_get cert_map (normalize_name unidecode (Text (strip (str_of (fst r)))))
  = Some filename ->
  exists rec,
    process_row unidecode cert_map cert_keys idx r = Ok rec
    /\ match_type rec = Some exact
    /\ match_confidence rec = 1%Q
    /\ certificate_filename rec = Some filename
    /\ certificate_found rec = true
    /\ status rec = matched.
Proof.
  intros He Hk. unfold process_row.
  destruct (clean_email (snd r)) as [|c e] eqn:E; [congruence|].
  cbn [valid_email negb]. unfold match_tiers, dict_mem, subscript.
  rewrite Hk. cbn [bind]. eexists. split; [reflexivity|].
  repeat split; reflexivity.
Qed.

(** C5, as the code has it: the report has one record per row of the sheet
    after the optional header row (the first row, when its first cell
    contains "name" and its second "email", whatever the case), in the
    order of the sheet; each record carries the position, the stripped name
    and the e-mail cell of its row, whatever the outcome of the match. *)
Theorem report_rows_in_order (df : list row) (cert_map : dict) :
  exists recs,
    validate_data_and_certificates unidecode df cert_map = Ok recs
    /\ map row_identity recs = map identity_of (data_rows df)
    /\ length recs = length df - start_idx_of df.
Proof.
  destruct (validate_outcome unidecode cert_map df) as [recs [Hv Hall]].
  exists recs. split; [exact Hv|].
  assert (Hmap : map row_identity recs = map identity_of (data_rows df)).
  { clear Hv. induction Hall as [|ir rec irs recs' Hrow _ IH]; [reflexivity|].
    cbn [map]. rewrite IH. f_equal.
    destruct (process_row_outcome unidecode cert_map (fst ir) (snd ir))
      as [rec' [Hrec' [(H1 & H2 & H3 & _) _]]].
    rewrite Hrow in Hrec'. injection Hrec' as <-.
    unfold row_identity, identity_of. now rewrite H1, H2, H3. }
  split; [exact Hmap|].
  apply (f_equal (@length _)) in Hmap. rewrite !length_map in Hmap.
  rewrite Hmap. unfold data_rows.
  rewrite length_combine, length_seq, length_skipn. apply Nat.min_id.
Qed.

(** C6: the built index has no key twice; it maps each key to the last
    entry of the listing that is filed under this key; so of two entries
    with the same key the later one is the value, the earlier one being
    overwritten. *)
Theorem index_last_write_wins (files : list str) :
  NoDup (dict_keys (build_cert_map unidecode (Some files)))
  /\ (forall k,
        dict_get (build_cert_map unidecode (Some files)) k
        = last_filed (cert_key unidecode) k files)
  /\ (forall before earlier between later after k,
        files = before ++ earlier :: between ++ later :: after ->
        cert_key unidecode earlier = Some k ->
        cert_key unidecode later = Some k ->
        (forall f, In f after -> cert_key unidecode f <> Some k) ->
        dict_get (build_cert_map unidecode (Some files)) k = Some later).
Proof.
  rewrite IndexFacts.build_cert_map_fold.
  assert (Hget : forall k,
             dict_get (fold_left (file_entry unidecode) files []) k
             = last_filed (cert_key unidecode) k files).
  { intro k. rewrite IndexFacts.fold_file_entry_get.
    now destruct (last_filed _ k files). }
  split; [apply IndexFacts.fold_file_entry_nodup; constructor|].
  split; [exact Hget|].
  intros before earlier between later after k -> _ Hlater Hafter.
  rewrite Hget. unfold last_filed.
  rewrite rev_app_distr. cbn [rev]. rewrite rev_app_distr. cbn [rev].
  rewrite <- !app_assoc. rewrite IndexFacts.find_append.
  assert (Hnone : find (fun f => match cert_key unidecode f with
                                 | Some k' => str_eqb k' k
                                 | None => false
                                 end) (rev after) = None).
  { apply IndexFacts.find_absent. intros f Hf. apply in_rev in Hf.
    specialize (Hafter f Hf).
    destruct (cert_key unidecode f) as [k'|]; [|reflexivity].
    apply str_eqb_neq. congruence. }
  rewrite Hnone. cbn [app find]. rewrite Hlater. now rewrite str_eqb_refl.
Qed.

(** C10, as the code has it: every row is given a record in which
    certificate_found holds exactly when a filename is present and exactly
    when the status is matched or low_confidence_match; a present filename
    is a value of the index; and the confidence is at least 0.6 whenever
    the status is matched. *)
Theorem report_records_consistent (df : list row) (cert_map : dict) :
  exists recs,
    validate_data_and_certificates unidecode df cert_map = Ok recs
    /\ Forall (consistent cert_map) recs.
Proof.
  destruct (validate_outcome unidecode cert_map df) as [recs [Hv Hall]].
  exists recs. split; [exact Hv|]. clear Hv.
  induction Hall as [|ir rec irs recs' Hrow _ IH]; constructor; [|exact IH].
  destruct (process_row_outcome unidecode cert_map (fst ir) (snd ir))
    as [rec' [Hrec' [_ [Hc _]]]].
  rewrite Hrow in Hrec'. now injection Hrec' as <-.
Qed.

(** C7: against an index built by [build_cert_map], a row with a valid
    e-mail whose normalised name is empty is given no certificate: the
    record has certificate_found false, no filename, no tier, confidence 0
    and status certificate_not_found. *)
Theorem empty_key_matches_nothing (listing : option (list str)) (idx : nat)
        (r : row) :
  clean_email (snd r) <> [] ->
  normalize_name unidecode (Text (strip (str_of (fst r)))) = [] ->
  exists rec,
    process_row unidecode (build_cert_map unidecode listing)
                (dict_keys (build_cert_map unidecode listing)) idx r = Ok rec
    /\ certificate_found rec = false
    /\ certificate_filename rec = None
    /\ match_type rec = None
    /\ match_confidence rec = 0%Q
    /\ status rec = certificate_not_found.
Proof.
  intros Hemail Hname.
  set (cert_map := build_cert_map unidecode listing).
  assert (Hkeys : Forall (fun k => k <> []) (dict_keys cert_map))
    by apply IndexFacts.build_cert_map_keys_nonempty.
  unfold process_row. rewrite Hname.
  destruct (clean_email (snd r)) as [|e0 e] eqn:E; [congruence|].
  cbn [valid_email negb].
  set (result := mk_record _ _ _ _ _ _ _ _ _ _ _).
  destruct (match_tiers_outcome cert_map [] result) as [rec [Hrec Hout]];
    [congruence|].
  exists rec. split; [exact Hrec|].
  assert (Hin : forall key, In key (dict_keys cert_map) -> key <> [])
    by (now apply Forall_forall).
  inversion Hout as [f Hf | k f Hn Hk Hf | k f Hn Hk Hf Hc | Hn]; subst.
  - exfalso. apply IndexFacts.dict_get_some_in in Hf. now apply (Hin []).
  - exfalso. unfold fuzzy_match, Difflib.get_close_matches in Hk.
    rewrite get_close_matches_empty in Hk; [|easy..].
    now destruct (negb _).
  - exfalso. rewrite ratio_empty_below in Hc; [discriminate | now apply Hin | easy].
  - now repeat split.
Qed.

(** A key is normalised by the title pattern, the filter and the
    whitespace rules alone. *)
Lemma normalize_key (ws : list str) :
  forallb lower_word ws = true ->
  normalize_name unidecode (Text (join_sp ws))
  = join_sp (split (filter (fun c => negb (not_letter_or_space c))
                           (Re.sub titles_re [] (join_sp ws)))).
Proof.
  intro Hws.
  pose proof (Titles.lower_words_tokens ws Hws) as Htok.
  pose proof (Titles.join_sp_key_chars ws Hws) as Hchars.
  unfold normalize_name.
  rewrite (Titles.strip_join_sp ws Htok).
  rewrite unidecode_ascii.
  2:{ apply forallb_forall. intros c Hc. rewrite forallb_forall in Hchars.
      now apply Titles.key_char_ascii, Hchars. }
  assert (Hlower : lower (join_sp ws) = join_sp ws).
  { unfold lower. rewrite <- (map_id (join_sp ws)) at 2.
    apply map_ext_in. intros c Hc. rewrite forallb_forall in Hchars.
    now apply Titles.key_char_lower, Hchars. }
  rewrite Hlower.
  unfold Re.sub at 2. rewrite SubFacts.sub_class_filter.
  change (Re.sub (Re.class_plus is_space) (py " ")) with (sub_spaces (py " ")).
  now rewrite Spacing.strip_sub_spaces.
Qed.

Lemma forallb_false {A} (f : A -> bool) (l : list A) :
  forallb f l = false -> exists x, In x l /\ f x = false.
Proof.
  induction l as [|x l IH]; cbn; [discriminate|].
  destruct (f x) eqn:E; cbn.
  - intro H. destruct (IH H) as [y [Hy Hf]]. exists y. split; [now right | exact Hf].
  - intros _. exists x. split; [now left | exact E].
Qed.

(** C2, as the code has it: normalising a key again gives the same key
    exactly when no word of the key is one of the titles or suffixes the
    normaliser removes (mr, mrs, ms, miss, dr, prof, sir, dame, jr, sr, ii,
    iii, iv, v, phd, md, dds, dvm). *)
Theorem normalize_name_idempotent_iff_title_free (x : cell) :
  normalize_name unidecode (Text (normalize_name unidecode x))
  = normalize_name unidecode x
  <-> title_free (normalize_name unidecode x) = true.
Proof.
  destruct (Titles.normalize_name_shape unidecode x) as [ws [-> Hws]].
  pose proof (Titles.lower_words_tokens ws Hws) as Htok.
  pose proof (Titles.join_sp_key_chars ws Hws) as Hchars.
  rewrite (normalize_key ws Hws).
  unfold title_free. rewrite (Spacing.split_join_sp ws Htok).
  split.
  - (* a title among the words makes the key shorter *)
    intro Heq.
    destruct (forallb (fun w => negb (str_in w titles)) ws) eqn:Hfree;
      [reflexivity|]. exfalso.
    apply forallb_false in Hfree. destruct Hfree as [w [Hw Hin]].
    apply negb_false_iff, existsb_exists in Hin.
    destruct Hin as [t [Ht Hwt]]. apply str_eqb_eq in Hwt. subst t.
    pose proof (Titles.sub_titles_shortens ws Hws
                  (ex_intro _ w (conj Hw Ht)) None eq_refl) as Hshort.
    fold (Re.sub titles_re [] (join_sp ws)) in Hshort.
    apply (f_equal (@length _)) in Heq.
    rewrite <- Spacing.strip_sub_spaces in Heq.
    pose proof (Titles.strip_length
                  (sub_spaces (py " ")
                     (filter (fun c => negb (not_letter_or_space c))
                             (Re.sub titles_re [] (join_sp ws))))) as H1.
    pose proof (Titles.sub_from_length (Re.class_plus is_space) (py " ")
                  (Nat.le_refl 1)
                  (filter (fun c => negb (not_letter_or_space c))
                          (Re.sub titles_re [] (join_sp ws))) None 0) as H2.
    fold (Re.sub (Re.class_plus is_space) (py " ")
                 (filter (fun c => negb (not_letter_or_space c))
                         (Re.sub titles_re [] (join_sp ws)))) in H2.
    fold (sub_spaces (py " ")
                     (filter (fun c => negb (not_letter_or_space c))
                             (Re.sub titles_re [] (join_sp ws)))) in H2.
    pose proof (filter_length_le (fun c => negb (not_letter_or_space c))
                  (Re.sub titles_re [] (join_sp ws))) as H3.
    lia.
  - (* without titles every step leaves the key as it is *)
    intro Hfree.
    assert (Hnot : forall w, In w ws -> ~ In w titles).
    { intros w Hw Hin. rewrite forallb_forall in Hfree.
      specialize (Hfree w Hw). apply negb_true_iff in Hfree.
      assert (str_in w titles = true); [|congruence].
      apply existsb_exists. exists w. split; [exact Hin | apply str_eqb_refl]. }
    unfold Re.sub. rewrite (Titles.sub_titles_join ws Hws Hnot).
    assert (Hfilter : filter (fun c => negb (not_letter_or_space c)) (join_sp ws)
                      = join_sp ws).
    { apply forallb_filter_id. apply forallb_forall. intros c Hc.
      rewrite forallb_forall in Hchars. now apply Titles.key_char_kept, Hchars. }
    rewrite Hfilter. now rewrite (Spacing.split_join_sp ws Htok).
Qed.

End Transliteration.

(** *** The statements at concrete inputs *)

Lemma unidecode_ascii_range_fixed : ascii_fixed unidecode_ascii_range.
Proof. exact unidecode_ascii_range_id. Qed.

Lemma index_example_built_witness :
  build_cert_map unidecode_ascii_range (Some example_files) = example_index_built.
Proof.
  apply (index_example_built unidecode_ascii_range).
  exact unidecode_ascii_range_fixed.
Defined.

(** C3 as stated fails: the index built from the two files of the example
    is not the mapping with the key "amit kumar". *)
Lemma index_example_expected_fails :
  ~ (forall unidecode, ascii_fixed unidecode ->
       dict_equiv (build_cert_map unidecode (Some example_files))
                  example_index_expected).
Proof.
  intro H.
  specialize (H unidecode_ascii_range unidecode_ascii_range_fixed (py "amit kumar")).
  vm_compute in H. discriminate.
Qed.

Lemma invalid_email_short_circuit_witness :
  clean_email (snd unreachable_row) = []
  /\ dict_mem example_index_built (py "harsha") = true
  /\ process_row unidecode_ascii_range example_index_built
                 (dict_keys example_index_built) 1 unreachable_row
     = Ok (invalid_record unidecode_ascii_range 1 unreachable_row)
  /\ exists recs,
       validate_data_and_certificates unidecode_ascii_range mixed_roster
                                      example_index_built = Ok recs
       /\ In (invalid_record unidecode_ascii_range 1 unreachable_row) recs.
Proof.
  split; [reflexivity|]. split; [reflexivity|].
  apply (invalid_email_short_circuit unidecode_ascii_range mixed_roster
           example_index_built 1 unreachable_row).
  - right. left. reflexivity.
  - reflexivity.
Defined.

Lemma exact_tier_witness :
  cleaned_email_of harsha_row = py "harsha@gmail.com"
  /\ exists rec,
       process_row unidecode_ascii_range example_index_built
                   (dict_keys example_index_built) 0 harsha_row = Ok rec
       /\ match_type rec = Some exact
       /\ match_confidence rec = 1%Q
       /\ certificate_filename rec = Some (py "Certificate_Harsha_pg001.pdf")
       /\ certificate_found rec = true
       /\ status rec = matched.
Proof.
  split; [reflexivity|].
  apply (exact_tier unidecode_ascii_range example_index_built
           (dict_keys example_index_built) 0 harsha_row).
  - vm_compute. discriminate.
  - vm_compute. reflexivity.
Defined.

Lemma index_last_write_wins_witness :
  dict_get (build_cert_map unidecode_ascii_range (Some twice_harsha)) (py "harsha")
  = Some (py "Harsha_1.pdf").
Proof.
  apply (proj2 (proj2 (index_last_write_wins unidecode_ascii_range twice_harsha))
           [] (py "Certificate_Harsha_pg001.pdf") [py "Amit Kumar.pdf"]
           (py "Harsha_1.pdf") [] (py "harsha")).
  - reflexivity.
  - reflexivity.
  - reflexivity.
  - intros f [].
Defined.

(** C5 as stated fails: a sheet of two rows whose first row holds the
    column titles yields one record. *)
Lemma report_skips_header_row :
  ~ (forall unidecode, ascii_fixed unidecode ->
     forall df cert_map, exists recs,
       validate_data_and_certificates unidecode df cert_map = Ok recs
       /\ length recs = length df).
Proof.
  intro H.
  destruct (H unidecode_ascii_range unidecode_ascii_range_fixed
              titled_roster example_index_built) as [recs [Hv Hlen]].
  vm_compute in Hv. injection Hv as <-. discriminate.
Qed.

Lemma nana_report :
  validate_data_and_certificates unidecode_ascii_range nana_roster
    (build_cert_map unidecode_ascii_range (Some anna_files)) = Ok [nana_record].
Proof. vm_compute. reflexivity. Qed.

(** C10 as stated fails: the record of the row ("Nana", ...) against the
    folder holding Anna's certificate has certificate_found true and
    confidence one half, below 0.6. *)
Lemma found_below_floor :
  ~ (forall unidecode, ascii_fixed unidecode ->
     forall df cert_map recs,
       validate_data_and_certificates unidecode df cert_map = Ok recs ->
       Forall (consistent_floor cert_map) recs).
Proof.
  intro H.
  pose proof (H unidecode_ascii_range unidecode_ascii_range_fixed nana_roster
                _ _ nana_report) as Hall.
  inversion Hall as [|r l [_ [_ Hfloor]] _]; subst.
  destruct (Hfloor eq_refl) as [Hle _]. now apply Hle.
Qed.

Lemma empty_key_matches_nothing_witness :
  normalize_name unidecode_ascii_range (Text (py "Dr.")) = []
  /\ exists rec,
       process_row unidecode_ascii_range
         (build_cert_map unidecode_ascii_range (Some example_files))
         (dict_keys (build_cert_map unidecode_ascii_range (Some example_files)))
         3 title_only_row = Ok rec
       /\ certificate_found rec = false
       /\ certificate_filename rec = None
       /\ match_type rec = None
       /\ match_confidence rec = 0%Q
       /\ status rec = certificate_not_found.
Proof.
  split; [reflexivity|].
  apply (empty_key_matches_nothing unidecode_ascii_range (Some example_files)
           3 title_only_row).
  - vm_compute. discriminate.
  - reflexivity.
Defined.

(** C2 as stated fails: "M.R. Khan" is normalised to "mr khan", and
    "mr khan" to "khan". *)
Lemma normalize_name_not_idempotent :
  ~ (forall unidecode, ascii_fixed unidecode ->
     forall x, normalize_name unidecode (Text (normalize_name unidecode x))
               = normalize_name unidecode x).
Proof.
  intro H.
  specialize (H unidecode_ascii_range unidecode_ascii_range_fixed initials_name).
  vm_compute in H. discriminate.
Qed.

Lemma normalize_name_idempotent_iff_title_free_witness :
  normalize_name unidecode_ascii_range (Text (py "Dr. Jane O'Connor Jr."))
  = py "jane oconnor"
  /\ normalize_name unidecode_ascii_range
       (Text (normalize_name unidecode_ascii_range
                (Text (py "Dr. Jane O'Connor Jr."))))
     = normalize_name unidecode_ascii_range (Text (py "Dr. Jane O'Connor Jr.")).
Proof.
  split; [reflexivity|].
  apply (normalize_name_idempotent_iff_title_free unidecode_ascii_range
           unidecode_ascii_range_fixed (Text (py "Dr. Jane O'Connor Jr."))).
  reflexivity.
Defined.

End Claims.

(** ** The skip-line predicate on lines of plain words *)
Module SkipLine.
Import Vocabulary PyFacts Words Rename.

(** C9: a line made of two or more alphabetic words separated by
    whitespace, whose first word is, whatever its case, none of
    certificate, this, issued, presented, participant, congratulations, is
    not skipped, whether or not it contains a keyword of the skip list. *)
Theorem plain_words_not_skipped (lead : str) (toks : list (str * str)) :
  all_space lead = true ->
  well_spaced toks = true ->
  2 <= length toks ->
  forallb isalpha (map fst toks) = true ->
  str_in (lower (hd [] (map fst toks))) administrative_words = false ->
  should_skip_line (flatten lead toks) = false.
Proof.
  intros Hlead Hspaced Hlen Halpha Hfirst. unfold should_skip_line.
  rewrite (split_flatten lead toks Hlead Hspaced).
  rewrite length_map, Halpha, Hfirst.
  apply Nat.leb_le in Hlen. now rewrite Hlen.
Qed.

Lemma plain_words_not_skipped_witness :
  should_skip_line (py "Theodore Anderson") = false
  /\ existsb (fun kw => contains kw (strip (lower (py "Theodore Anderson"))))
             skip_keywords = true.
Proof.
  split.
  - apply (plain_words_not_skipped [] [(py "Theodore", py " "); (py "Anderson", [])]).
    + reflexivity.
    + reflexivity.
    + simpl. lia.
    + reflexivity.
    + reflexivity.
  - reflexivity.
Defined.

End SkipLine.

(** ** The matching blocks fit into both sequences *)
Module DifflibBounds.
Import Vocabulary DifflibFacts.

Section Blocks.

Variables a b : str.

Lemma j2lenget_pred_cols (blo : nat) (j2len : list (nat * nat)) (j : nat) :
  cols_below blo j2len -> blo <= j ->
  Difflib.j2lenget_pred j2len j + 1 <= j + 1 - blo.
Proof.
  intros H Hj. unfold Difflib.j2lenget_pred. destruct j as [|j]; [lia|].
  destruct (Difflib.lookup j j2len) as [v|] eqn:E; [|lia].
  destruct (H _ _ E). lia.
Qed.

Lemma scan_row_cols (blo bhi i : nat) (j2len : list (nat * nat)) :
  cols_below blo j2len ->
  forall js newj2len best,
    cols_below blo newj2len ->
    in_cols blo bhi best ->
    cols_below blo (fst (Difflib.scan_row blo bhi i j2len js newj2len best))
    /\ in_cols blo bhi (snd (Difflib.scan_row blo bhi i j2len js newj2len best)).
Proof.
  intros Hold. induction js as [|j js IH]; intros newj2len best Hnew Hbest.
  - now split.
  - cbn [Difflib.scan_row].
    destruct (j <? blo) eqn:Ej; [now apply IH|].
    destruct (bhi <=? j) eqn:Eb; [now split|].
    apply Nat.ltb_ge in Ej. apply Nat.leb_gt in Eb.
    pose proof (j2lenget_pred_cols blo j2len j Hold Ej) as Hk.
    apply IH.
    + intros j' v. cbn [Difflib.lookup].
      destruct (j =? j') eqn:E; [|apply Hnew].
      apply Nat.eqb_eq in E. subst j'. intro Ev. injection Ev as <-. lia.
    + destruct (Difflib.match_size best <? _); [|exact Hbest].
      unfold in_cols. lia.
Qed.

Lemma scan_fold_cols (blo bhi : nat) (rows : list nat) :
  forall j2len best,
    cols_below blo j2len ->
    in_cols blo bhi best ->
    in_cols blo bhi
      (snd (fold_left
              (fun '(j2len, best) i =>
                 Difflib.scan_row blo bhi i j2len
                                  (Difflib.b2j_get b (Difflib.item a i)) [] best)
              rows (j2len, best))).
Proof.
  induction rows as [|i rows IH]; intros j2len best Hlen Hbest; [exact Hbest|].
  cbn [fold_left].
  destruct (scan_row_cols blo bhi i j2len Hlen
              (Difflib.b2j_get b (Difflib.item a i)) [] best) as [Hnew Hbest'];
    [intros j v E; discriminate | exact Hbest |].
  destruct (Difflib.scan_row _ _ _ _ _ _ _) as [j2len' best'].
  now apply IH.
Qed.

Lemma extend_back_cols (alo blo bhi : nat) (junk : bool) (besti : nat) :
  forall bestj bestsize,
    in_cols blo bhi (besti, bestj, bestsize) ->
    in_cols blo bhi (Difflib.extend_back a b alo blo junk besti bestj bestsize).
Proof.
  induction besti as [|i IH]; intros bestj bestsize H; [exact H|].
  cbn [Difflib.extend_back].
  destruct (_ && _) eqn:E; [|exact H].
  apply andb_true_iff in E. destruct E as [E _].
  apply andb_true_iff in E. destruct E as [E _].
  apply andb_true_iff in E. destruct E as [_ E]. apply Nat.ltb_lt in E.
  pose proof (IH (bestj - 1) (bestsize + 1)) as IH'. unfold in_cols in *.
  destruct (Difflib.extend_back a b alo blo junk i (bestj - 1) (bestsize + 1))
    as [[i' j'] k']. apply IH'. lia.
Qed.

Lemma extend_forward_cols (ahi blo bhi : nat) (junk : bool) (gap : nat) :
  forall besti bestj bestsize,
    in_cols blo bhi (besti, bestj, bestsize) ->
    in_cols blo bhi
            (Difflib.extend_forward a b ahi bhi junk gap besti bestj bestsize).
Proof.
  induction gap as [|gap IH]; intros besti bestj bestsize H; [exact H|].
  cbn [Difflib.extend_forward].
  destruct (_ && _) eqn:E; [|exact H].
  apply andb_true_iff in E. destruct E as [E _].
  apply andb_true_iff in E. destruct E as [E _].
  apply andb_true_iff in E. destruct E as [_ E]. apply Nat.ltb_lt in E.
  apply IH. unfold in_cols in *. lia.
Qed.

(** The longest match lies in the columns it was asked for. *)
Lemma find_longest_match_cols (alo ahi blo bhi : nat) :
  blo <= bhi ->
  in_cols blo bhi (Difflib.find_longest_match a b alo ahi blo bhi).
Proof.
  intro H. unfold Difflib.find_longest_match.
  assert (H0 : in_cols blo bhi (Difflib.scan_rows a b alo ahi blo bhi)).
  { unfold Difflib.scan_rows. apply scan_fold_cols.
    - intros j v E. discriminate.
    - unfold in_cols. lia. }
  destruct (Difflib.scan_rows a b alo ahi blo bhi) as [[i0 j0] k0].
  pose proof (extend_back_cols alo blo bhi false i0 j0 k0 H0) as H1.
  destruct (Difflib.extend_back a b alo blo false i0 j0 k0) as [[i1 j1] k1].
  pose proof (extend_forward_cols ahi blo bhi false (ahi - (i1 + k1)) i1 j1 k1 H1)
    as H2.
  destruct (Difflib.extend_forward a b ahi bhi false _ i1 j1 k1) as [[i2 j2] k2].
  pose proof (extend_back_cols alo blo bhi true i2 j2 k2 H2) as H3.
  destruct (Difflib.extend_back a b alo blo true i2 j2 k2) as [[i3 j3] k3].
  now apply extend_forward_cols.
Qed.

Lemma size_sum_app (l1 l2 : list Difflib.Match) :
  size_sum (l1 ++ l2) = size_sum l1 + size_sum l2.
Proof. unfold size_sum. now rewrite map_app, list_sum_app. Qed.

Lemma size_sum_snoc (l : list Difflib.Match) (x : Difflib.Match) :
  size_sum (l ++ [x]) = size_sum l + Difflib.match_size x.
Proof. rewrite size_sum_app. unfold size_sum at 2. cbn. lia. Qed.

Lemma queue_rows_cons (q : nat * nat * nat * nat) queue :
  queue_rows (q :: queue)
  = (let '(alo, ahi, _, _) := q in ahi - alo) + queue_rows queue.
Proof. reflexivity. Qed.

Lemma queue_cols_cons (q : nat * nat * nat * nat) queue :
  queue_cols (q :: queue)
  = (let '(_, _, blo, bhi) := q in bhi - blo) + queue_cols queue.
Proof. reflexivity. Qed.

(** The blocks found never add up to more than the rows, or the columns,
    that were on the queue. *)
Lemma blocks_loop_sizes (fuel : nat) :
  forall queue matching_blocks,
    Forall box_ok queue ->
    size_sum (Difflib.blocks_loop a b fuel queue matching_blocks)
    <= size_sum matching_blocks + queue_rows queue
    /\ size_sum (Difflib.blocks_loop a b fuel queue matching_blocks)
       <= size_sum matching_blocks + queue_cols queue.
Proof.
  induction fuel as [|fuel IH]; intros queue blocks Hok.
  - cbn [Difflib.blocks_loop]. lia.
  - destruct queue as [|[[[alo ahi] blo] bhi] queue];
      [cbn [Difflib.blocks_loop]; lia|].
    rewrite blocks_loop_round. cbv zeta.
    inversion Hok as [|q0 l0 Hq Hrest]; subst. cbn in Hq. destruct Hq as [Hr Hc].
    pose proof (find_longest_match_rows a b alo ahi blo bhi Hr) as Hrows.
    pose proof (find_longest_match_cols alo ahi blo bhi Hc) as Hcols.
    rewrite queue_rows_cons, queue_cols_cons.
    destruct (Difflib.find_longest_match a b alo ahi blo bhi) as [[i j] k].
    cbn in Hrows, Hcols. destruct Hrows as [Hr1 Hr2]. destruct Hcols as [Hc1 Hc2].
    destruct k as [|k].
    + destruct (IH queue blocks Hrest). lia.
    + set (queue2 := if _ && _ then _ else _).
      assert (Hok2 : Forall box_ok queue2).
      { subst queue2.
        destruct ((alo <? i) && (blo <? j)); destruct (_ && _);
          repeat constructor; cbn; try lia; exact Hrest. }
      assert (Hq : queue_rows queue2 + S k <= ahi - alo + queue_rows queue
                   /\ queue_cols queue2 + S k <= bhi - blo + queue_cols queue).
      { subst queue2.
        destruct ((alo <? i) && (blo <? j)); destruct (_ && _);
          rewrite ?queue_rows_cons, ?queue_cols_cons; split; lia. }
      clearbody queue2.
      destruct (IH queue2 (blocks ++ [(i, j, S k)]) Hok2) as [H1 H2].
      rewrite size_sum_snoc in H1, H2. cbn [Difflib.match_size snd] in H1, H2.
      destruct Hq as [Hq1 Hq2].
      split; [apply (Nat.le_trans _ _ _ H1) | apply (Nat.le_trans _ _ _ H2)]; lia.
Qed.

Lemma size_sum_cons (x : Difflib.Match) (l : list Difflib.Match) :
  size_sum (x :: l) = Difflib.match_size x + size_sum l.
Proof. reflexivity. Qed.

Lemma size_sum_insert (x : Difflib.Match) (l : list Difflib.Match) :
  size_sum (Difflib.insert_sorted x l) = Difflib.match_size x + size_sum l.
Proof.
  induction l as [|y l IH]; [reflexivity|]. cbn [Difflib.insert_sorted].
  destruct (Difflib.match_leb x y); [reflexivity|].
  rewrite !size_sum_cons, IH. lia.
Qed.

Lemma size_sum_sort (l : list Difflib.Match) :
  size_sum (Difflib.sort_blocks l) = size_sum l.
Proof.
  induction l as [|x l IH]; [reflexivity|].
  unfold Difflib.sort_blocks in *. cbn [fold_right].
  now rewrite size_sum_insert, IH.
Qed.

Lemma collapse_adjacent_sizes (blocks : list Difflib.Match) :
  forall cur non_adjacent,
    size_sum (fst (Difflib.collapse_adjacent cur blocks non_adjacent))
    + Difflib.match_size (snd (Difflib.collapse_adjacent cur blocks non_adjacent))
    = size_sum non_adjacent + Difflib.match_size cur + size_sum blocks.
Proof.
  induction blocks as [|[[i2 j2] k2] blocks IH]; intros [[i1 j1] k1] non_adjacent.
  - cbn [Difflib.collapse_adjacent fst snd]. change (size_sum []) with 0. lia.
  - cbn [Difflib.collapse_adjacent]. rewrite size_sum_cons.
    cbn [Difflib.match_size snd].
    destruct ((i1 + k1 =? i2) && (j1 + k1 =? j2)).
    + rewrite IH. cbn [Difflib.match_size snd]. lia.
    + rewrite IH. cbn [Difflib.match_size snd].
      destruct k1; [lia|]. rewrite size_sum_snoc. cbn [Difflib.match_size snd]. lia.
Qed.

(** The matched characters are no more than either sequence has. *)
Lemma matching_blocks_sizes :
  size_sum (Difflib.get_matching_blocks a b) <= length a
  /\ size_sum (Difflib.get_matching_blocks a b) <= length b.
Proof.
  unfold Difflib.get_matching_blocks.
  set (found := Difflib.blocks_loop a b _ _ []).
  pose proof (collapse_adjacent_sizes (Difflib.sort_blocks found) (0, 0, 0) [])
    as Hc.
  destruct (Difflib.collapse_adjacent (0, 0, 0) (Difflib.sort_blocks found) [])
    as [non_adjacent cur].
  cbn [fst snd] in Hc. rewrite size_sum_sort in Hc.
  assert (Hsum : size_sum
                   ((match Difflib.match_size cur with
                     | O => non_adjacent
                     | S _ => non_adjacent ++ [cur]
                     end) ++ [(length a, length b, 0)])
                 = size_sum found).
  { rewrite size_sum_snoc. cbn [Difflib.match_size snd].
    change (size_sum []) with 0 in Hc. change (Difflib.match_size (0, 0, 0)) with 0 in Hc.
    destruct (Difflib.match_size cur) eqn:E; [lia|].
    rewrite size_sum_snoc. lia. }
  rewrite Hsum. subst found.
  destruct (blocks_loop_sizes (2 * length a + 1)
              [(0, length a, 0, length b)] []) as [H1 H2].
  - repeat constructor; cbn; lia.
  - change (size_sum []) with 0 in H1, H2.
    rewrite queue_rows_cons in H1. rewrite queue_cols_cons in H2.
    change (queue_rows []) with 0 in H1. change (queue_cols []) with 0 in H2.
    split; [apply (Nat.le_trans _ _ _ H1) | apply (Nat.le_trans _ _ _ H2)]; lia.
Qed.

(** [ratio()] is a number between 0 and 1. *)
Lemma ratio_unit : unit_score (Difflib.ratio a b).
Proof.
  unfold Difflib.ratio. fold (size_sum (Difflib.get_matching_blocks a b)).
  destruct matching_blocks_sizes as [H1 H2].
  set (m := size_sum _) in *. unfold Difflib.calculate_ratio.
  destruct (length a + length b) as [|n] eqn:E; [split; discriminate|].
  unfold unit_score, Qle. cbn [Qnum Qden].
  rewrite <- Pos.of_nat_succ, Zpos_P_of_succ_nat. lia.
Qed.

End Blocks.

End DifflibBounds.

(** ** More on the tiers and the report *)
Module ReportMore.
Import Automation Report Vocabulary PyFacts Tiers ReportFacts.

(** What holds of every record the loop body can return holds of every
    record of the report. *)
Lemma report_forall (unidecode : str -> str) (cert_map : dict)
      (P : record -> Prop) :
  (forall idx r rec,
      process_row unidecode cert_map (dict_keys cert_map) idx r = Ok rec -> P rec) ->
  forall df, exists recs,
    validate_data_and_certificates unidecode df cert_map = Ok recs
    /\ Forall P recs.
Proof.
  intros HP df.
  destruct (validate_outcome unidecode cert_map df) as [recs [Hv Hall]].
  exists recs. split; [exact Hv|]. clear Hv.
  induction Hall as [|ir rec irs recs' Hrow _ IH]; constructor; [|exact IH].
  exact (HP _ _ _ Hrow).
Qed.

Lemma tier_outcome_unit (cert_map : dict) (norm_name : str) (result rec : record) :
  match_confidence result = 0%Q ->
  tier_outcome cert_map norm_name result rec ->
  unit_score (match_confidence rec).
Proof.
  intros H0 H. destruct H; cbn.
  - split; discriminate.
  - apply DifflibBounds.ratio_unit.
  - apply DifflibBounds.ratio_unit.
  - rewrite H0. split; discriminate.
Qed.

Lemma tier_outcome_settled (cert_map : dict) (norm_name : str)
      (result rec : record) :
  valid_email result = true -> cleaned_email result <> [] ->
  certificate_found result = false -> match_type result = None ->
  match_confidence result = 0%Q ->
  tier_outcome cert_map norm_name result rec ->
  settled rec.
Proof.
  intros Hv He Hf Ht Hc H. unfold settled.
  destruct H as [f Hf' | k f Hn Hk Hf' | k f Hn Hin Hf' Hq | Hn]; cbn;
    rewrite ?Hv, ?Hf, ?Ht, ?Hc.
  - repeat split; try easy.
  - repeat split; try easy;
      try (destruct (Difflib.Qgeb _ _); easy).
    + destruct (Difflib.Qgeb _ _) eqn:E; [|discriminate].
      intros _. now apply Qgeb_le.
    + intros Hle. destruct (Difflib.Qgeb _ _) eqn:E; [reflexivity|].
      apply Qle_bool_iff in Hle. unfold Difflib.Qgeb in E. congruence.
  - repeat split; try easy. now apply Qgeb_le.
  - repeat split; try easy.
Qed.

Section Rows.

Variable unidecode : str -> str.
Variable cert_map : dict.

(** The two ways the loop body ends. *)
Lemma process_row_cases (idx : nat) (r : row) (rec : record) :
  process_row unidecode cert_map (dict_keys cert_map) idx r = Ok rec ->
  (clean_email (snd r) = [] /\ rec = invalid_record unidecode idx r)
  \/ (clean_email (snd r) <> []
      /\ exists result,
           valid_email result = true
           /\ cleaned_email result = clean_email (snd r)
           /\ certificate_found result = false
           /\ certificate_filename result = None
           /\ match_type result = None
           /\ match_confidence result = 0%Q
           /\ normalized_name result
              = normalize_name unidecode (Text (strip (str_of (fst r))))
           /\ match_tiers cert_map (dict_keys cert_map)
                          (normalized_name result) result = Ok rec
           /\ tier_outcome cert_map (normalized_name result) result rec).
Proof.
  unfold process_row.
  set (norm_name := normalize_name unidecode _).
  destruct (clean_email (snd r)) as [|e0 e] eqn:E; cbn [valid_email negb].
  - intro H. injection H as <-. left. split; reflexivity.
  - set (result := mk_record _ _ _ _ _ _ _ _ _ _ _). intro H. right.
    split; [discriminate|]. exists result.
    repeat (split; [reflexivity|]). split; [exact H|].
    destruct (match_tiers_outcome cert_map norm_name result
                (normalize_name_has_word unidecode _)) as [rec' [Hrec' Hout]].
    cbn [normalized_name result] in *. fold norm_name in Hrec'.
    rewrite H in Hrec'. now injection Hrec' as <-.
Qed.

Lemma process_row_unit (idx : nat) (r : row) (rec : record) :
  process_row unidecode cert_map (dict_keys cert_map) idx r = Ok rec ->
  unit_score (match_confidence rec).
Proof.
  intro H. destruct (process_row_cases idx r rec H)
    as [[_ ->] | [_ (result & _ & _ & _ & _ & _ & H0 & _ & _ & Hout)]].
  - split; discriminate.
  - exact (tier_outcome_unit _ _ _ _ H0 Hout).
Qed.

Lemma process_row_settled (idx : nat) (r : row) (rec : record) :
  process_row unidecode cert_map (dict_keys cert_map) idx r = Ok rec ->
  settled rec.
Proof.
  intro H. destruct (process_row_cases idx r rec H)
    as [[_ ->] | [He (result & Hv & Hce & Hf & _ & Ht & H0 & _ & _ & Hout)]].
  - unfold settled. cbn. repeat split; easy.
  - apply (tier_outcome_settled cert_map (normalized_name result) result);
      try assumption.
    now rewrite Hce.
Qed.

End Rows.

(** X1: the confidence of every record of the report is a number between
    0 and 1. *)
Theorem report_confidence_unit (unidecode : str -> str) (df : list row)
        (cert_map : dict) :
  exists recs,
    validate_data_and_certificates unidecode df cert_map = Ok recs
    /\ Forall (fun rec => unit_score (match_confidence rec)) recs.
Proof.
  apply report_forall. apply process_row_unit.
Qed.

(** X2: every record of the report leaves the loop settled: the status is
    not pending; it is invalid_email exactly when the e-mail is not valid,
    which is exactly when the cleaned e-mail is empty; there is a tier
    exactly when a certificate was found, and confidence 0 when none was;
    the exact tier gives confidence 1 and status matched; the fuzzy tier
    gives status matched exactly from confidence 0.7 on; the partial tier
    gives status matched and a confidence of at least 0.6. *)
Theorem report_records_settled (unidecode : str -> str) (df : list row)
        (cert_map : dict) :
  exists recs,
    validate_data_and_certificates unidecode df cert_map = Ok recs
    /\ Forall settled recs.
Proof.
  apply report_forall. apply process_row_settled.
Qed.

(** X3: against an empty index no row is given a certificate: every record
    has certificate_found false, no filename, no tier, confidence 0 and
    status invalid_email or certificate_not_found. *)
Theorem empty_index_matches_nothing (unidecode : str -> str) (df : list row) :
  exists recs,
    validate_data_and_certificates unidecode df [] = Ok recs
    /\ Forall unmatched recs.
Proof.
  apply report_forall. intros idx r rec H.
  destruct (process_row_outcome unidecode [] idx r)
    as [rec' [Hrec' [_ [(Hc1 & Hc2 & Hc3 & _) Hinv]]]].
  cbn [dict_keys map] in H. cbn [dict_keys map] in Hrec'.
  rewrite H in Hrec'. injection Hrec' as <-.
  pose proof (process_row_settled unidecode [] idx r rec H)
    as (Hs1 & Hs2 & _ & Hs4 & Hs5 & _).
  assert (Hfound : certificate_found rec = false).
  { destruct (certificate_found rec); [|reflexivity].
    destruct (Hc3 eq_refl) as (k & f & _ & Hget). discriminate. }
  unfold unmatched. split; [exact Hfound|].
  split.
  { destruct (certificate_filename rec) eqn:E; [|reflexivity].
    assert (certificate_found rec = true) by (apply Hc1; discriminate).
    congruence. }
  split; [now apply Hs4|]. split; [now apply Hs5|].
  destruct (status rec) eqn:Es; try (now left); try (now right).
  - assert (certificate_found rec = true) by (apply Hc2; now left). congruence.
  - assert (certificate_found rec = true) by (apply Hc2; now right). congruence.
Qed.

End ReportMore.

(** ** The fuzzy and the partial tier *)
Module TierMore.
Import Automation Report Vocabulary PyFacts Tiers ReportFacts ReportMore.

Lemma startswith_contains (s p : str) :
  startswith s p = true -> contains p s = true.
Proof. intro H. destruct s; cbn [contains]; now rewrite H. Qed.

Lemma pair_score_le (p best : Q * str) :
  (fst best <= fst (if Difflib.pair_gtb p best then p else best))%Q
  /\ (fst p <= fst (if Difflib.pair_gtb p best then p else best))%Q.
Proof.
  destruct p as [s1 x1], best as [s2 x2]. unfold Difflib.pair_gtb.
  destruct (Qeq_bool s1 s2) eqn:Eq.
  - apply Qeq_bool_iff in Eq.
    destruct (str_ltb x2 x1); cbn [fst]; split;
      try apply Qle_refl; rewrite Eq; apply Qle_refl.
  - destruct (Qle_bool s1 s2) eqn:El; cbn [negb fst]; split;
      try apply Qle_refl.
    + now apply Qle_bool_iff.
    + apply Qlt_le_weak, Qnot_le_lt. intro H. apply Qle_bool_iff in H. congruence.
Qed.

(** [max] returns an element with the greatest score. *)
Lemma max_from_score (l : list (Q * str)) :
  forall best q, In q (best :: l) -> (fst q <= fst (Difflib.max_from best l))%Q.
Proof.
  induction l as [|p l IH]; intros best q Hq.
  - destruct Hq as [->|[]]. apply Qle_refl.
  - cbn [Difflib.max_from].
    destruct (pair_score_le p best) as [Hb Hp].
    destruct Hq as [->|[->|Hq]].
    + eapply Qle_trans; [exact Hb|]. apply IH. now left.
    + eapply Qle_trans; [exact Hp|]. apply IH. now left.
    + apply IH. now right.
Qed.

Lemma close_matches_scored (word : str) (possibilities : list str) (cutoff : Q)
      (p : Q * str) :
  In p (flat_map (fun x => if passes word cutoff x
                           then [(Difflib.ratio x word, x)] else [])
                 possibilities)
  <-> In (snd p) possibilities /\ passes word cutoff (snd p) = true
      /\ fst p = Difflib.ratio (snd p) word.
Proof.
  rewrite in_flat_map. split.
  - intros [x [Hx Hp]]. destruct (passes word cutoff x) eqn:E; [|easy].
    destruct Hp as [<-|[]]. cbn. now repeat split.
  - intros (Hin & Hpass & Hs). exists (snd p). split; [exact Hin|].
    rewrite Hpass. left. destruct p as [s x]. cbn in *. now subst.
Qed.

(** The first of the close matches is a best one among the candidates that
    pass. *)
Lemma close_matches_best (name : str) (cert_keys : list str) (threshold : Q) :
  match Difflib.close_matches name cert_keys threshold with
  | key :: _ =>
      In key cert_keys
      /\ passes name threshold key = true
      /\ (threshold <= Difflib.ratio key name)%Q
      /\ forall x, In x cert_keys -> passes name threshold x = true ->
                   (Difflib.ratio x name <= Difflib.ratio key name)%Q
  | [] => forall x, In x cert_keys -> passes name threshold x = false
  end.
Proof.
  unfold Difflib.close_matches, Difflib.nlargest1.
  change (flat_map _ cert_keys)
    with (flat_map (fun x => if passes name threshold x
                             then [(Difflib.ratio x name, x)] else [])
                   cert_keys).
  set (result := flat_map _ cert_keys).
  assert (Hres := close_matches_scored name cert_keys threshold).
  fold result in Hres.
  destruct result as [|p l] eqn:E.
  - cbn. intros x Hx. destruct (passes name threshold x) eqn:Ep; [|reflexivity].
    exfalso. apply (proj2 (Hres (Difflib.ratio x name, x))). now repeat split.
  - cbn [map].
    pose proof (max_from_in l p) as Hin. apply Hres in Hin.
    destruct Hin as (Hk & Hpass & Hscore).
    repeat split; try assumption.
    + unfold passes in Hpass. apply andb_true_iff in Hpass.
      destruct Hpass as [_ Hr]. now apply Qgeb_le.
    + intros x Hx Hpx. rewrite <- Hscore.
      change (Difflib.ratio x name) with (fst (Difflib.ratio x name, x)).
      apply max_from_score. apply Hres. now repeat split.
Qed.

(** X4: [fuzzy_match] raises [ValueError] exactly when the threshold is
    outside [0, 1].  Otherwise it returns a candidate of the list that
    passes the three tests at the threshold, so its similarity to the name,
    with the candidate as first sequence, is at least the threshold, and no
    candidate that passes has a greater one; it returns [None] exactly when
    no candidate passes. *)
Theorem fuzzy_match_best (name : str) (cert_keys : list str) (threshold : Q) :
  match fuzzy_match name cert_keys threshold with
  | Ok (Some key) =>
      (0 <= threshold <= 1)%Q
      /\ In key cert_keys
      /\ passes name threshold key = true
      /\ (threshold <= Difflib.ratio key name)%Q
      /\ forall x, In x cert_keys -> passes name threshold x = true ->
                   (Difflib.ratio x name <= Difflib.ratio key name)%Q
  | Ok None =>
      (0 <= threshold <= 1)%Q
      /\ forall x, In x cert_keys -> passes name threshold x = false
  | Raise e => e = ValueError /\ ~ (0 <= threshold <= 1)%Q
  end.
Proof.
  unfold fuzzy_match, Difflib.get_close_matches.
  destruct (Qle_bool 0 threshold && Qle_bool threshold 1) eqn:Hr; cbn [negb].
  - apply andb_true_iff in Hr. destruct Hr as [H0 H1].
    apply Qle_bool_iff in H0, H1.
    pose proof (close_matches_best name cert_keys threshold) as Hbest.
    destruct (Difflib.close_matches name cert_keys threshold) as [|key l];
      (split; [now split | exact Hbest]).
  - split; [reflexivity|]. intros [H0 H1].
    apply Qle_bool_iff in H0, H1. rewrite H0, H1 in Hr. discriminate.
Qed.

Section Partial.

Variable cert_map : dict.

Lemma partial_tier_first_word (norm_name : str) (result rec : record) :
  match_type result = None ->
  normalized_name result = norm_name ->
  match_tiers cert_map (dict_keys cert_map) norm_name result = Ok rec ->
  partial_on_first_word cert_map rec.
Proof.
  intros Ht Hn. unfold match_tiers, dict_mem, subscript, partial_on_first_word.
  destruct (dict_get cert_map norm_name) as [filename|] eqn:Hget.
  { cbn [bind]. intro H. injection H as <-. discriminate. }
  assert (Hpartial :
    forall first_name,
      (norm_name = [] /\ first_name = []
       \/ norm_name <> [] /\ first_name = first_word norm_name) ->
      match
        filter (fun k => startswith k first_name || contains first_name k)
               (dict_keys cert_map)
      with
      | [] => Ok (set_status result certificate_not_found)
      | k0 :: rest =>
          if Difflib.Qgeb
               (Difflib.ratio norm_name
                  (max_by (fun k => Difflib.ratio norm_name k) k0 rest))
               (6 # 10)
          then
            bind (match dict_get cert_map
                          (max_by (fun k => Difflib.ratio norm_name k) k0 rest)
                  with
                  | Some v => Ok v
                  | None => Raise KeyError
                  end)
                 (fun filename =>
                    Ok (set_match result filename partial
                          (Difflib.ratio norm_name
                             (max_by (fun k => Difflib.ratio norm_name k) k0 rest))
                          matched))
          else Ok (set_status result certificate_not_found)
      end = Ok rec ->
      match_type rec = Some partial ->
      normalized_name rec <> []
      /\ dict_get cert_map (normalized_name rec) = None
      /\ exists key filename,
           In key (dict_keys cert_map)
           /\ contains (first_word (normalized_name rec)) key = true
           /\ dict_get cert_map key = Some filename
           /\ certificate_filename rec = Some filename
           /\ match_confidence rec = Difflib.ratio (normalized_name rec) key).
  { intros first_name Hfirst.
    destruct (filter _ (dict_keys cert_map)) as [|k0 rest] eqn:Hfilter.
    { intro H. injection H as <-. cbn. rewrite Ht. discriminate. }
    set (best := max_by _ k0 rest).
    assert (Hbest : In best (k0 :: rest)) by apply max_by_in.
    rewrite <- Hfilter in Hbest. apply filter_In in Hbest.
    destruct Hbest as [Hin Hcond].
    destruct (Difflib.Qgeb _ _) eqn:Hc;
      [| intro H; injection H as <-; cbn; rewrite Ht; discriminate].
    destruct (dict_get cert_map best) as [v|] eqn:Hv; [|discriminate].
    cbn [bind]. intro H. injection H as <-. intros _. cbn. rewrite Hn.
    assert (Hne : norm_name <> []).
    { intros ->. destruct best as [|c best'] eqn:Eb.
      - apply dict_get_in_keys in Hin. destruct Hin as [v' Hv']. congruence.
      - rewrite ratio_empty_below in Hc; easy. }
    split; [exact Hne|]. split; [exact Hget|].
    exists best, v. repeat split; try assumption.
    destruct Hfirst as [[Hnil _]|[_ ->]]; [contradiction|].
    apply orb_true_iff in Hcond. destruct Hcond as [Hs|Hs];
      [now apply startswith_contains | exact Hs]. }
  destruct (fuzzy_match norm_name (dict_keys cert_map) (7 # 10)%Q)
    as [[[|c key]|]|e] eqn:Hfuzzy; cbn [bind];
    [ | | | now apply fuzzy_match_runs in Hfuzzy].
  - destruct norm_name as [|n0 name'].
    + cbn [bind]. apply Hpartial. left. now split.
    + unfold first_word in Hpartial.
      destruct (split (n0 :: name')) as [|w ws] eqn:Hs; [discriminate|].
      cbn [bind]. apply Hpartial. right. split; [discriminate | reflexivity].
  - destruct (dict_get cert_map (c :: key)); [|discriminate].
    cbn [bind]. intro H. injection H as <-. discriminate.
  - destruct norm_name as [|n0 name'].
    + cbn [bind]. apply Hpartial. left. now split.
    + unfold first_word in Hpartial.
      destruct (split (n0 :: name')) as [|w ws] eqn:Hs; [discriminate|].
      cbn [bind]. apply Hpartial. right. split; [discriminate | reflexivity].
Qed.

End Partial.

(** X5: a record of the partial tier rests on a key of the index that
    contains the first word of the normalised name: the name is not empty
    and is no key itself, and the filename and the confidence of the record
    are those of a key in which the first word of the name occurs. *)
Theorem partial_tier_shares_first_word (unidecode : str -> str) (df : list row)
        (cert_map : dict) :
  exists recs,
    validate_data_and_certificates unidecode df cert_map = Ok recs
    /\ Forall (partial_on_first_word cert_map) recs.
Proof.
  apply report_forall. intros idx r rec H.
  destruct (process_row_cases unidecode cert_map idx r rec H)
    as [[_ ->] | [_ (result & _ & _ & _ & _ & Ht & _ & _ & Hm & _)]].
  - unfold partial_on_first_word. cbn. discriminate.
  - exact (partial_tier_first_word cert_map _ result rec Ht eq_refl Hm).
Qed.

End TierMore.

(** ** The fuzzy tier and the status low_confidence_match *)
Module FuzzyTier.
Import Automation Report Vocabulary PyFacts AsciiInput Tiers ReportFacts
       ReportMore TierMore.

Lemma fuzzy_match_close (name : str) (cert_keys : list str) (key : str) :
  fuzzy_match name cert_keys (7 # 10)%Q = Ok (Some key) ->
  In key cert_keys
  /\ passes name (7 # 10)%Q key = true
  /\ (7 # 10 <= Difflib.ratio key name)%Q
  /\ forall x, In x cert_keys -> passes name (7 # 10)%Q x = true ->
               (Difflib.ratio x name <= Difflib.ratio key name)%Q.
Proof.
  unfold fuzzy_match, Difflib.get_close_matches.
  change (negb (Qle_bool 0 (7 # 10) && Qle_bool (7 # 10) 1)) with false.
  cbv iota.
  pose proof (close_matches_best name cert_keys (7 # 10)%Q) as Hbest.
  destruct (Difflib.close_matches name cert_keys (7 # 10)) as [|k l];
    [discriminate|].
  intro H. injection H as <-. exact Hbest.
Qed.

Lemma fuzzy_status (q : Q) :
  ((if Difflib.Qgeb q (7 # 10) then matched else low_confidence_match)
   = low_confidence_match <-> (q < 7 # 10)%Q)
  /\ ((if Difflib.Qgeb q (7 # 10) then matched else low_confidence_match)
      = matched <-> (7 # 10 <= q)%Q).
Proof.
  unfold Difflib.Qgeb. destruct (Qle_bool (7 # 10) q) eqn:E.
  - apply Qle_bool_iff in E. split; split; try easy.
    intro H. exfalso. exact (Qlt_not_le _ _ H E).
  - assert (Hlt : (q < 7 # 10)%Q).
    { apply Qnot_le_lt. intro H. apply Qle_bool_iff in H. congruence. }
    split; split; try easy.
    intro H. exfalso. exact (Qlt_not_le _ _ Hlt H).
Qed.

Lemma tier_outcome_fuzzy (cert_map : dict) (result rec : record) :
  match_type result = None ->
  tier_outcome cert_map (normalized_name result) result rec ->
  fuzzy_on_close_match cert_map rec.
Proof.
  intros Ht H. unfold fuzzy_on_close_match.
  destruct H as [f Hf | k f Hn Hk Hf | k f Hn Hin Hf Hq | Hn]; cbn;
    rewrite ?Ht.
  - split; discriminate.
  - split; [|reflexivity]. intros _. split; [exact Hn|].
    destruct (fuzzy_match_close _ _ _ Hk) as (Hin & Hpass & Hle & Hbest).
    destruct (fuzzy_status (Difflib.ratio (normalized_name result) k))
      as [Hlow Hmatched].
    exists k, f. repeat split; try assumption;
      try apply Hlow; try apply Hmatched.
  - split; discriminate.
  - split; discriminate.
Qed.

Section Rows.

Variable unidecode : str -> str.
Variable cert_map : dict.

Lemma process_row_fuzzy (idx : nat) (r : row) (rec : record) :
  process_row unidecode cert_map (dict_keys cert_map) idx r = Ok rec ->
  fuzzy_on_close_match cert_map rec.
Proof.
  intro H. destruct (process_row_cases unidecode cert_map idx r rec H)
    as [[_ ->] | [He (result & _ & _ & _ & _ & Ht & _ & _ & _ & Hout)]].
  - unfold fuzzy_on_close_match. cbn. split; discriminate.
  - now apply (tier_outcome_fuzzy cert_map result).
Qed.

(** A close match that scores below 0.7 from the name is reported. *)
Lemma low_confidence_kept (idx : nat) (r : row) (key : str) :
  clean_email (snd r) <> [] ->
  dict_get cert_map (normalize_name unidecode (Text (strip (str_of (fst r)))))
  = None ->
  fuzzy_match (normalize_name unidecode (Text (strip (str_of (fst r)))))
              (dict_keys cert_map) (7 # 10)%Q = Ok (Some key) ->
  key <> [] ->
  (Difflib.ratio (normalize_name unidecode (Text (strip (str_of (fst r))))) key
   < 7 # 10)%Q ->
  exists rec filename,
    process_row unidecode cert_map (dict_keys cert_map) idx r = Ok rec
    /\ dict_get cert_map key = Some filename
    /\ match_type rec = Some fuzzy
    /\ status rec = low_confidence_match
    /\ match_confidence rec
       = Difflib.ratio (normalize_name unidecode (Text (strip (str_of (fst r)))))
                       key
    /\ certificate_found rec = true
    /\ certificate_filename rec = Some filename.
Proof.
  intros He Hget Hfuzzy Hkey Hlow. unfold process_row.
  set (n := normalize_name unidecode (Text (strip (str_of (fst r))))) in *.
  destruct (clean_email (snd r)) as [|e0 e] eqn:E; [congruence|].
  cbn [valid_email negb]. unfold match_tiers, dict_mem, subscript.
  rewrite Hget, Hfuzzy. cbn [bind].
  destruct key as [|c key]; [now elim Hkey|].
  destruct (dict_get_in_keys _ _ (fuzzy_match_in _ _ _ _ Hfuzzy)) as [v Hv].
  rewrite Hv. cbn [bind]. eexists. exists v. split; [reflexivity|].
  split; [reflexivity|]. cbn.
  destruct (fuzzy_status (Difflib.ratio n (c :: key))) as [Hl _].
  repeat split. now apply Hl.
Qed.

End Rows.

Section Transliteration.

Variable unidecode : str -> str.
Hypothesis unidecode_ascii : ascii_fixed unidecode.

(** C1, as the code has it.  In every report a record has tier fuzzy only
    through a key that [get_close_matches] proposes at the cutoff 0.7: a
    key whose similarity to the name, with the key as first sequence, is at
    least 0.7 and the greatest among such keys; the confidence reported is
    the similarity with the name as first sequence, the status is
    low_confidence_match exactly when that confidence is below 0.7 and
    matched otherwise, and no other tier gives low_confidence_match.
    Conversely a row with a usable address whose name is no key and has
    such a close match scoring below 0.7 from the name is kept, with tier
    fuzzy, status low_confidence_match and that score as confidence.  Such
    rows exist, since the similarity depends on the order of its
    arguments: against the folder holding "Certificate_Anna_pg001.pdf" the
    row ("Nana", "nana@example.com") is given Anna's certificate with
    confidence one half, and a second pair of names is reported with
    confidence 0.65. *)
Theorem fuzzy_low_confidence_reported :
  (forall df cert_map,
      exists recs,
        validate_data_and_certificates unidecode df cert_map = Ok recs
        /\ Forall (fuzzy_on_close_match cert_map) recs)
  /\ (forall cert_map idx r key,
        clean_email (snd r) <> [] ->
        dict_get cert_map
                 (normalize_name unidecode (Text (strip (str_of (fst r)))))
        = None ->
        fuzzy_match (normalize_name unidecode (Text (strip (str_of (fst r)))))
                    (dict_keys cert_map) (7 # 10)%Q = Ok (Some key) ->
        key <> [] ->
        (Difflib.ratio
           (normalize_name unidecode (Text (strip (str_of (fst r))))) key
         < 7 # 10)%Q ->
        exists rec filename,
          process_row unidecode cert_map (dict_keys cert_map) idx r = Ok rec
          /\ dict_get cert_map key = Some filename
          /\ match_type rec = Some fuzzy
          /\ status rec = low_confidence_match
          /\ match_confidence rec
             = Difflib.ratio
                 (normalize_name unidecode (Text (strip (str_of (fst r))))) key
          /\ certificate_found rec = true
          /\ certificate_filename rec = Some filename)
  /\ (exists r,
        validate_data_and_certificates unidecode nana_roster
          (build_cert_map unidecode (Some anna_files)) = Ok [r]
        /\ normalized_name r = py "nana"
        /\ match_type r = Some fuzzy
        /\ status r = low_confidence_match
        /\ certificate_found r = true
        /\ certificate_filename r = Some (py "Certificate_Anna_pg001.pdf")
        /\ match_confidence r = Difflib.ratio (py "nana") (py "anna")
        /\ (match_confidence r == 1 # 2)%Q
        /\ (match_confidence r < 7 # 10)%Q)
  /\ (exists r,
        validate_data_and_certificates unidecode roster_065
          (build_cert_map unidecode (Some files_065)) = Ok [r]
        /\ normalized_name r = name_065
        /\ match_type r = Some fuzzy
        /\ status r = low_confidence_match
        /\ certificate_found r = true
        /\ match_confidence r = Difflib.ratio name_065 key_065
        /\ (match_confidence r == 65 # 100)%Q).
Proof.
  split; [|split].
  - intros df cert_map. apply report_forall. apply process_row_fuzzy.
  - intros cert_map idx r key. apply low_confidence_kept.
  - rewrite !(build_cert_map_ascii unidecode unidecode_ascii) by reflexivity.
    rewrite !(validate_ascii unidecode unidecode_ascii) by reflexivity.
    split; (eexists; split; [vm_compute; reflexivity|]); repeat split;
      reflexivity.
Qed.

End Transliteration.

Lemma fuzzy_low_confidence_reported_witness :
  (forall df cert_map,
      exists recs,
        validate_data_and_certificates unidecode_ascii_range df cert_map = Ok recs
        /\ Forall (fuzzy_on_close_match cert_map) recs)
  /\ (forall cert_map idx r key,
        clean_email (snd r) <> [] ->
        dict_get cert_map
                 (normalize_name unidecode_ascii_range
                                 (Text (strip (str_of (fst r)))))
        = None ->
        fuzzy_match (normalize_name unidecode_ascii_range
                                    (Text (strip (str_of (fst r)))))
                    (dict_keys cert_map) (7 # 10)%Q = Ok (Some key) ->
        key <> [] ->
        (Difflib.ratio
           (normalize_name unidecode_ascii_range
                           (Text (strip (str_of (fst r))))) key
         < 7 # 10)%Q ->
        exists rec filename,
          process_row unidecode_ascii_range cert_map (dict_keys cert_map) idx r
          = Ok rec
          /\ dict_get cert_map key = Some filename
          /\ match_type rec = Some fuzzy
          /\ status rec = low_confidence_match
          /\ match_confidence rec
             = Difflib.ratio
                 (normalize_name unidecode_ascii_range
                                 (Text (strip (str_of (fst r))))) key
          /\ certificate_found rec = true
          /\ certificate_filename rec = Some filename)
  /\ (exists r,
        validate_data_and_certificates unidecode_ascii_range nana_roster
          (build_cert_map unidecode_ascii_range (Some anna_files)) = Ok [r]
        /\ normalized_name r = py "nana"
        /\ match_type r = Some fuzzy
        /\ status r = low_confidence_match
        /\ certificate_found r = true
        /\ certificate_filename r = Some (py "Certificate_Anna_pg001.pdf")
        /\ match_confidence r = Difflib.ratio (py "nana") (py "anna")
        /\ (match_confidence r == 1 # 2)%Q
        /\ (match_confidence r < 7 # 10)%Q)
  /\ (exists r,
        validate_data_and_certificates unidecode_ascii_range roster_065
          (build_cert_map unidecode_ascii_range (Some files_065)) = Ok [r]
        /\ normalized_name r = name_065
        /\ match_type r = Some fuzzy
        /\ status r = low_confidence_match
        /\ certificate_found r = true
        /\ match_confidence r = Difflib.ratio name_065 key_065
        /\ (match_confidence r == 65 # 100)%Q).
Proof.
  apply (fuzzy_low_confidence_reported unidecode_ascii_range).
  exact Claims.unidecode_ascii_range_fixed.
Defined.

Lemma floor_report :
  validate_data_and_certificates unidecode_ascii_range floor_roster floor_index
  = Ok [floor_record].
Proof. vm_compute. reflexivity. Qed.

Lemma floor_similarity :
  nearest_similarity floor_index (normalized_name floor_record) (13 # 20)%Q.
Proof.
  unfold nearest_similarity. cbn [floor_index dict_keys map fst
                                   normalized_name floor_record].
  assert (H1 : Difflib.ratio (py "abcdefghijklmnopqrst")
                             (py "abcdefghijklmuvwxyzz") = (26 # 40)%Q)
    by (vm_compute; reflexivity).
  assert (H2 : Difflib.ratio (py "abcdefghijklmuvwxyzz")
                             (py "abcdefghijklmnopqrst") = (26 # 40)%Q)
    by (vm_compute; reflexivity).
  split.
  - exists (py "abcdefghijklmuvwxyzz"). split; [now left|].
    rewrite H1, H2. split; reflexivity.
  - intros k [<-|[]]. rewrite H1, H2. split; discriminate.
Qed.

(** C1 as stated fails: a name whose nearest key is at similarity 0.65,
    whichever way the similarity is taken, is not given tier fuzzy and
    status low_confidence_match.  The name "abcdefghijklmnopqrst" has
    similarity thirteen twentieths to the only key
    "abcdefghijklmuvwxyzz"; [get_close_matches] drops the key at the
    cutoff 0.7 and the record is certificate_not_found, without tier and
    with confidence 0. *)
Lemma below_floor_not_fuzzy :
  ~ (forall unidecode, ascii_fixed unidecode ->
     forall df cert_map recs,
       validate_data_and_certificates unidecode df cert_map = Ok recs ->
       forall r s,
         In r recs -> valid_email r = true ->
         nearest_similarity cert_map (normalized_name r) s ->
         (0 < s)%Q -> (s < 7 # 10)%Q ->
         match_type r = Some fuzzy
         /\ status r = low_confidence_match
         /\ (match_confidence r == s)%Q).
Proof.
  intro H.
  destruct (H unidecode_ascii_range Claims.unidecode_ascii_range_fixed
              floor_roster floor_index _ floor_report floor_record (13 # 20)%Q)
    as [Ht _]; try easy.
  - now left.
  - exact floor_similarity.
Qed.

End FuzzyTier.

(** ** More on the index *)
Module IndexMore.
Import Automation Report Vocabulary PyFacts Tiers IndexFacts.

Section Index.

Variable unidecode : str -> str.

Lemma cert_key_pdf (f k : str) :
  cert_key unidecode f = Some k -> endswith (lower f) (py ".pdf") = true.
Proof.
  unfold cert_key. destruct (endswith (lower f) (py ".pdf")); [easy|].
  discriminate.
Qed.

Lemma last_filed_some (k f : str) (files : list str) :
  last_filed (cert_key unidecode) k files = Some f ->
  In f files /\ cert_key unidecode f = Some k.
Proof.
  unfold last_filed. intro H. apply find_some in H. destruct H as [Hin Hk].
  split; [now apply in_rev|].
  destruct (cert_key unidecode f) as [k'|]; [|discriminate].
  apply str_eqb_eq in Hk. now subst.
Qed.

Lemma index_binding_key (files : list str) (k f : str) :
  dict_get (build_cert_map unidecode (Some files)) k = Some f ->
  In f files /\ cert_key unidecode f = Some k.
Proof.
  rewrite build_cert_map_fold, fold_file_entry_get. cbn [dict_get].
  destruct (last_filed (cert_key unidecode) k files) as [f'|] eqn:E;
    [|discriminate].
  intro H. injection H as <-. now apply last_filed_some in E.
Qed.

(** X6: what the built index holds comes from the listing: the value under
    a key is an entry of the listing whose name ends, whatever the case, in
    ".pdf", and that entry is filed under this very key. *)
Theorem index_bindings_from_listing (files : list str) (k f : str) :
  dict_get (build_cert_map unidecode (Some files)) k = Some f ->
  In f files
  /\ endswith (lower f) (py ".pdf") = true
  /\ cert_key unidecode f = Some k.
Proof.
  intro H. apply index_binding_key in H.
  destruct H as [Hin Hk]. repeat split; try assumption.
  exact (cert_key_pdf _ _ Hk).
Qed.

(** X7: no certificate file is left out of the index: every entry of the
    listing that has a key finds this key in the index, bound to an entry
    of the listing with the same key. *)
Theorem index_covers_listing (files : list str) (f k : str) :
  In f files ->
  cert_key unidecode f = Some k ->
  exists f',
    dict_get (build_cert_map unidecode (Some files)) k = Some f'
    /\ In f' files
    /\ cert_key unidecode f' = Some k.
Proof.
  intros Hin Hk. rewrite build_cert_map_fold, fold_file_entry_get.
  destruct (last_filed (cert_key unidecode) k files) as [f'|] eqn:E.
  - exists f'. split; [reflexivity|]. now apply last_filed_some.
  - exfalso. unfold last_filed in E.
    pose proof (find_none _ _ E f (proj1 (in_rev files f) Hin)) as Hf.
    cbn in Hf. rewrite Hk, str_eqb_refl in Hf. discriminate.
Qed.

(** X8: every key of a built index is a name key in normal form: one or
    more words of lower-case ASCII letters joined by single spaces. *)
Theorem index_keys_normal_form (listing : option (list str)) (k : str) :
  In k (dict_keys (build_cert_map unidecode listing)) ->
  exists ws,
    ws <> [] /\ k = join_sp ws /\ forallb lower_word ws = true.
Proof.
  intro Hin.
  destruct listing as [files|]; [|easy].
  destruct (dict_get_in_keys _ _ Hin) as [f Hf].
  apply index_binding_key in Hf. destruct Hf as (_ & Hk).
  pose proof (cert_key_nonempty unidecode f k Hk) as Hne.
  unfold cert_key in Hk. destruct (negb _); [discriminate|].
  destruct (Titles.normalize_name_shape unidecode
              (Text (strip
                       (Re.sub (Re.lit_digits_end (py "_")) []
                          (Re.sub (Re.lit_digits_end (py "_pg")) []
                             (Re.sub (Re.anchored_nocase_then (py "certificate")
                                        separator_char) []
                                     (fst (Os.splitext f))))))))
    as [ws [Hshape Hws]].
  rewrite Hshape in Hk.
  destruct (join_sp ws) eqn:Ej; [discriminate|]. injection Hk as <-.
  exists ws. repeat split; [|now rewrite Ej|exact Hws].
  intros ->. discriminate.
Qed.

End Index.

Lemma index_bindings_from_listing_witness :
  In (py "Harsha_1.pdf") twice_harsha
  /\ endswith (lower (py "Harsha_1.pdf")) (py ".pdf") = true
  /\ cert_key unidecode_ascii_range (py "Harsha_1.pdf") = Some (py "harsha").
Proof.
  apply (index_bindings_from_listing unidecode_ascii_range twice_harsha
           (py "harsha") (py "Harsha_1.pdf")).
  reflexivity.
Defined.

Lemma index_covers_listing_witness :
  exists f',
    dict_get (build_cert_map unidecode_ascii_range (Some twice_harsha))
             (py "harsha") = Some f'
    /\ In f' twice_harsha
    /\ cert_key unidecode_ascii_range f' = Some (py "harsha").
Proof.
  apply (index_covers_listing unidecode_ascii_range twice_harsha
           (py "Certificate_Harsha_pg001.pdf") (py "harsha")).
  - left. reflexivity.
  - reflexivity.
Defined.

Lemma index_keys_normal_form_witness :
  exists ws,
    ws <> [] /\ py "amit kumar" = join_sp ws /\ forallb lower_word ws = true.
Proof.
  apply (index_keys_normal_form unidecode_ascii_range (Some twice_harsha)
           (py "amit kumar")).
  replace (dict_keys (build_cert_map unidecode_ascii_range (Some twice_harsha)))
    with [py "harsha"; py "amit kumar"] by (vm_compute; reflexivity).
  right. left. reflexivity.
Defined.

End IndexMore.

(** ** The first and the last word of a name *)
Module TokensMore.
Import Automation Vocabulary PyFacts Words Spacing.

Lemma last_token (ws : list str) (w : str) :
  forallb is_token (w :: ws) = true -> is_token (last (w :: ws) []) = true.
Proof.
  revert w. induction ws as [|v ws IH]; intros w H.
  - cbn in *. now rewrite andb_true_r in H.
  - change (last (w :: v :: ws) []) with (last (v :: ws) []).
    apply IH. cbn [forallb] in H. now apply andb_true_iff in H.
Qed.

Lemma two_ends_tokens (ws : list str) :
  forallb is_token ws = true -> forallb is_token (two_ends ws) = true.
Proof.
  destruct ws as [|w [|v ws]]; intro H; try exact H.
  cbn [two_ends forallb]. rewrite (last_token _ _ H).
  cbn [forallb] in H. apply andb_true_iff in H. destruct H as [-> _].
  reflexivity.
Qed.

Lemma two_ends_idempotent (ws : list str) : two_ends (two_ends ws) = two_ends ws.
Proof. destruct ws as [|w [|v ws]]; reflexivity. Qed.

Lemma extract_join (name : str) :
  extract_first_last_tokens name = join_sp (two_ends (split name)).
Proof.
  unfold extract_first_last_tokens.
  destruct (split name) as [|w [|v ws]]; reflexivity.
Qed.

(** X9: [extract_first_last_tokens] keeps the first and the last word of a
    name, joined by one space (the only word of a one-word name, nothing of
    a name without words): the words of its result are these, and applying
    it twice is the same as applying it once. *)
Theorem extract_first_last_tokens_ends (name : str) :
  extract_first_last_tokens name = join_sp (two_ends (split name))
  /\ split (extract_first_last_tokens name) = two_ends (split name)
  /\ extract_first_last_tokens (extract_first_last_tokens name)
     = extract_first_last_tokens name.
Proof.
  pose proof (two_ends_tokens _ (split_tokens name)) as Htok.
  assert (Hsplit : split (extract_first_last_tokens name) = two_ends (split name))
    by (rewrite extract_join; now apply split_join_sp).
  split; [apply extract_join|]. split; [exact Hsplit|].
  rewrite (extract_join (extract_first_last_tokens name)), Hsplit.
  now rewrite two_ends_idempotent, <- extract_join.
Qed.

End TokensMore.

(** ** The e-mail pattern and the repair *)
Module EmailMore.
Import Automation Vocabulary PyFacts Words SubFacts Spacing.

Lemma takewhile_dropwhile {A} (p : A -> bool) (l : list A) :
  l = takewhile p l ++ dropwhile p l.
Proof.
  induction l as [|x l IH]; [reflexivity|]. cbn.
  destruct (p x); [cbn; now f_equal | reflexivity].
Qed.

Lemma forallb_takewhile {A} (p : A -> bool) (l : list A) :
  forallb p (takewhile p l) = true.
Proof.
  induction l as [|x l IH]; [reflexivity|]. cbn.
  destruct (p x) eqn:E; [cbn; now rewrite E | reflexivity].
Qed.

Lemma takewhile_all {A} (p : A -> bool) (l1 l2 : list A) :
  forallb p l1 = true -> takewhile p (l1 ++ l2) = l1 ++ takewhile p l2.
Proof.
  induction l1 as [|x l1 IH]; [reflexivity|]. cbn. intro H.
  apply andb_true_iff in H. destruct H as [Hx Hl]. rewrite Hx. now rewrite IH.
Qed.

Lemma firstn_takewhile {A} (p : A -> bool) (k : nat) (l : list A) :
  k <= length (takewhile p l) -> forallb p (firstn k l) = true.
Proof.
  revert k. induction l as [|x l IH]; intros k H.
  - now destruct k.
  - destruct k as [|k]; [reflexivity|]. cbn [takewhile] in H. cbn [firstn forallb].
    destruct (p x) eqn:E; cbn [length] in H; [|lia].
    cbn [andb]. apply IH. lia.
Qed.

Lemma at_end_cases (s : str) :
  Re.at_end s = true <-> s = [] \/ s = ["010"%char].
Proof.
  destruct s as [|c [|d s]]; cbn; split; try tauto; try discriminate.
  - intro H. right. f_equal. apply Nat.eqb_eq in H.
    unfold code in H. rewrite <- (ascii_nat_embedding c), H. reflexivity.
  - intros [H|H]; [discriminate|]. now injection H as ->.
  - intros [H|H]; discriminate.
Qed.

(** The e-mail pattern accepts exactly the strings [local@domain.tld],
    possibly followed by one newline. *)
Lemma email_re_match_shape (s : str) :
  email_re_match s = true <->
  exists local domain tld nl,
    s = address local domain tld ++ nl
    /\ well_formed_parts local domain tld
    /\ (nl = [] \/ nl = ["010"%char]).
Proof.
  unfold email_re_match. split.
  - intro H. apply andb_true_iff in H. destruct H as [Hlen H].
    apply Nat.ltb_lt in Hlen.
    destruct (dropwhile local_char s) as [|c r] eqn:Erest; [discriminate|].
    apply andb_true_iff in H. destruct H as [Hat H].
    apply existsb_exists in H. destruct H as [k [Hk Htld]].
    apply in_rev, in_seq in Hk.
    destruct (skipn k r) as [|d u] eqn:Eskip; [discriminate|].
    cbn [tld_end] in Htld. apply andb_true_iff in Htld.
    destruct Htld as [Hdot Htld]. apply andb_true_iff in Htld.
    destruct Htld as [Hlen2 Hend]. apply Nat.leb_le in Hlen2.
    apply at_end_cases in Hend.
    exists (takewhile local_char s), (firstn k r),
      (takewhile is_ascii_letter u), (dropwhile is_ascii_letter u).
    assert (Hc : c = "@"%char).
    { apply Nat.eqb_eq in Hat. unfold code in Hat.
      rewrite <- (ascii_nat_embedding c), Hat. reflexivity. }
    assert (Hd : d = "."%char).
    { apply Nat.eqb_eq in Hdot. unfold code in Hdot.
      rewrite <- (ascii_nat_embedding d), Hdot. reflexivity. }
    subst c d.
    pose proof (takewhile_dropwhile local_char s) as Hs.
    pose proof (takewhile_dropwhile is_ascii_letter u) as Hu.
    split; [|split; [|exact Hend]].
    + unfold address. rewrite <- !app_assoc. cbn [py list_ascii_of_string app].
      rewrite <- Hu, <- Eskip, firstn_skipn, <- Erest. exact Hs.
    + unfold well_formed_parts.
      assert (Hl : length s = length (takewhile local_char s)
                              + length (dropwhile local_char s))
        by (rewrite Hs at 1; apply length_app).
      assert (Hlu : length u = length (takewhile is_ascii_letter u)
                               + length (dropwhile is_ascii_letter u))
        by (rewrite Hu at 1; apply length_app).
      repeat split.
      * intro E. rewrite E, Erest in Hl. cbn [length] in Hl, Hlen. lia.
      * apply forallb_takewhile.
      * intro E. apply (f_equal (@length _)) in E.
        assert (Hkr : k <= length r).
        { pose proof (takewhile_dropwhile domain_char r) as Hr.
          apply (f_equal (@length _)) in Hr. rewrite length_app in Hr. lia. }
        rewrite length_firstn in E. cbn in E. lia.
      * apply firstn_takewhile. lia.
      * lia.
      * apply forallb_takewhile.
  - intros (local & domain & tld & nl & -> & Hwf & Hnl).
    destruct Hwf as (Hl1 & Hl2 & Hd1 & Hd2 & Ht1 & Ht2).
    unfold address. rewrite <- !app_assoc. cbn [py list_ascii_of_string app].
    rewrite (dropwhile_all local_char local _ Hl2). cbn [dropwhile].
    change (local_char "@") with false. cbn iota.
    apply andb_true_iff. split.
    { apply Nat.ltb_lt. rewrite length_app. cbn [length].
      destruct local; [now elim Hl1 | cbn; lia]. }
    cbn [code]. change (nat_of_ascii "@" =? 64) with true. cbn [andb].
    apply existsb_exists. exists (length domain). split.
    + apply -> in_rev. apply in_seq.
      rewrite (takewhile_all domain_char domain _ Hd2), length_app.
      destruct domain; [now elim Hd1 | cbn; lia].
    + rewrite skipn_app, skipn_all, Nat.sub_diag. cbn [app skipn tld_end].
      change (code "." =? 46) with true. cbn [andb].
      rewrite (dropwhile_all is_ascii_letter tld nl Ht2).
      assert (Hnl' : dropwhile is_ascii_letter nl = nl)
        by (destruct Hnl as [->| ->]; reflexivity).
      rewrite Hnl', length_app.
      apply andb_true_iff. split; [apply Nat.leb_le; lia|].
      now apply at_end_cases.
Qed.

Lemma strip_no_trailing_space (s x : str) (c : ascii) :
  strip s = x ++ [c] -> is_space c = false.
Proof.
  unfold strip, rstrip. intro H.
  apply (f_equal (@rev _)) in H. rewrite rev_involutive, rev_app_distr in H.
  cbn in H. exact (Tiers.dropwhile_head _ _ _ _ H).
Qed.

Lemma lower_char_newline (c : ascii) :
  lower_char c = "010"%char -> is_space c = true.
Proof. each_char c. Qed.

(** An accepted value has the three parts: the final newline that [$]
    allows cannot be there after [strip]. *)
Lemma valid_email_parts (e : str) :
  is_valid_email (Text e) = true ->
  exists local domain tld,
    lower (strip e) = address local domain tld
    /\ well_formed_parts local domain tld.
Proof.
  cbn [is_valid_email]. rewrite email_re_match_shape.
  intros (local & domain & tld & nl & Hs & Hwf & [->| ->]).
  - rewrite app_nil_r in Hs. now exists local, domain, tld.
  - exfalso. unfold lower in Hs.
    assert (Hrev : rev (map lower_char (strip e))
                   = "010"%char :: rev (address local domain tld))
      by (rewrite Hs, rev_app_distr; reflexivity).
    rewrite <- map_rev in Hrev.
    destruct (rev (strip e)) as [|c t] eqn:Et; [discriminate|].
    cbn [map] in Hrev. injection Hrev as Hc _.
    apply lower_char_newline in Hc.
    apply (f_equal (@rev _)) in Et. rewrite rev_involutive in Et. cbn in Et.
    apply strip_no_trailing_space in Et. congruence.
Qed.

(** X10: [is_valid_email] accepts exactly the values that, trimmed and in
    lower case, read [local@domain.tld]: a non-empty local part of letters,
    digits and [._%+-], a non-empty domain of letters, digits, dots and
    hyphens, then a dot and at least two letters. *)
Theorem is_valid_email_shape (e : str) :
  is_valid_email (Text e) = true <->
  exists local domain tld,
    lower (strip e) = address local domain tld
    /\ well_formed_parts local domain tld.
Proof.
  split; [apply valid_email_parts|].
  cbn [is_valid_email]. rewrite email_re_match_shape.
  intros (local & domain & tld & Hs & Hwf).
  exists local, domain, tld, []. rewrite app_nil_r. auto.
Qed.

(** Substituting nothing for the runs of whitespace deletes the
    whitespace. *)
Lemma sub_spaces_nil_from (s : str) :
  forall prev skip,
    skip <= length (takewhile is_space s) ->
    Re.sub_from (Re.class_plus is_space) [] prev skip s = without_spaces s.
Proof.
  unfold without_spaces.
  induction s as [|c s IH]; intros prev skip Hskip; [reflexivity|].
  cbn [Re.sub_from filter]. cbn [takewhile] in Hskip.
  destruct (is_space c) eqn:Ec; cbn [negb length] in *.
  - destruct skip as [|n]; [|apply IH; lia].
    unfold Re.class_plus at 1. cbn [takewhile]. rewrite Ec. cbn [length app].
    now apply IH.
  - destruct skip as [|n]; [|lia].
    unfold Re.class_plus at 1. cbn [takewhile]. rewrite Ec. cbn [length].
    f_equal. apply IH. lia.
Qed.

Lemma sub_spaces_nil (s : str) : sub_spaces [] s = without_spaces s.
Proof. unfold sub_spaces, Re.sub. apply sub_spaces_nil_from. lia. Qed.

Lemma lower_char_idempotent (c : ascii) : lower_char (lower_char c) = lower_char c.
Proof. each_char c. Qed.

Lemma lower_char_space (c : ascii) : is_space (lower_char c) = is_space c.
Proof. each_char c. Qed.

Lemma without_spaces_lower (s : str) :
  without_spaces (lower s) = lower (without_spaces s).
Proof.
  unfold without_spaces, lower. induction s as [|c s IH]; [reflexivity|].
  cbn [map filter]. rewrite lower_char_space.
  destruct (is_space c); cbn [negb map]; now rewrite IH.
Qed.

Lemma without_spaces_dropwhile (s : str) :
  without_spaces (dropwhile is_space s) = without_spaces s.
Proof.
  unfold without_spaces. induction s as [|c s IH]; [reflexivity|].
  cbn [dropwhile]. destruct (is_space c) eqn:E; cbn [filter]; rewrite E;
    cbn [negb]; [exact IH | reflexivity].
Qed.

Lemma without_spaces_rev (s : str) :
  without_spaces (rev s) = rev (without_spaces s).
Proof.
  unfold without_spaces. induction s as [|c s IH]; [reflexivity|].
  cbn [rev filter]. rewrite filter_app, IH. cbn [filter].
  destruct (negb (is_space c)); [reflexivity | now rewrite app_nil_r].
Qed.

Lemma without_spaces_strip (s : str) :
  without_spaces (strip s) = without_spaces s.
Proof.
  unfold strip, rstrip, lstrip.
  rewrite without_spaces_rev, without_spaces_dropwhile, without_spaces_rev,
    rev_involutive.
  apply without_spaces_dropwhile.
Qed.

Lemma without_spaces_idempotent (s : str) :
  without_spaces (without_spaces s) = without_spaces s.
Proof.
  unfold without_spaces. induction s as [|c s IH]; [reflexivity|].
  cbn [filter]. destruct (is_space c) eqn:E; cbn [negb filter]; [exact IH|].
  rewrite E. cbn [negb]. now rewrite IH.
Qed.

(** The text the corrections are applied to. *)
Lemma clean_email_first_stage (e : str) :
  Re.sub (Re.class_plus is_space) [] (lower (strip e))
  = lower (without_spaces e).
Proof.
  change (Re.sub (Re.class_plus is_space) []) with (sub_spaces []).
  now rewrite sub_spaces_nil, without_spaces_lower, without_spaces_strip.
Qed.

Lemma clean_email_unfold (e : str) :
  clean_email (Text e)
  = let email :=
      fold_left (fun email '(pattern, repl) => Re.sub pattern repl email)
                corrections (lower (without_spaces e)) in
    if is_valid_email (Text email) then email else [].
Proof. unfold clean_email. now rewrite clean_email_first_stage. Qed.

(** X11: the repair looks at neither the case of the letters nor the
    whitespace of an address: an address, the address in lower case and
    the address with every whitespace character taken out are repaired to
    the same result. *)
Theorem clean_email_case_and_space (e : str) :
  clean_email (Text (lower e)) = clean_email (Text e)
  /\ clean_email (Text (without_spaces e)) = clean_email (Text e).
Proof.
  rewrite !clean_email_unfold. split.
  - replace (lower (without_spaces (lower e))) with (lower (without_spaces e));
      [reflexivity|].
    rewrite without_spaces_lower. unfold lower. rewrite map_map.
    apply map_ext. intro c. now rewrite lower_char_idempotent.
  - now rewrite without_spaces_idempotent.
Qed.

Lemma plain_lower_without_spaces (e : str) :
  forallb plain_char (lower (without_spaces e)) = true.
Proof.
  unfold lower, without_spaces, plain_char.
  induction e as [|c e IH]; [reflexivity|]. cbn [filter].
  destruct (is_space c) eqn:E; cbn [negb map forallb]; [exact IH|].
  rewrite lower_char_idempotent, char_eqb_refl, lower_char_space, E, IH.
  reflexivity.
Qed.

Lemma plain_fixed (s : str) :
  forallb plain_char s = true -> lower (strip s) = s.
Proof.
  intro H.
  assert (Hstrip : strip s = s).
  { assert (Hns : forall t, forallb plain_char t = true ->
                            dropwhile is_space t = t).
    { intros [|c t] Ht; [reflexivity|]. cbn in *.
      apply andb_true_iff in Ht. destruct Ht as [Hc _].
      unfold plain_char in Hc. apply andb_true_iff in Hc.
      destruct Hc as [_ Hc]. apply negb_true_iff in Hc. now rewrite Hc. }
    unfold strip, rstrip, lstrip. rewrite (Hns s H).
    rewrite Hns by now rewrite forallb_rev. apply rev_involutive. }
  rewrite Hstrip. unfold lower. rewrite <- (map_id s) at 2.
  apply map_ext_in. intros c Hc. rewrite forallb_forall in H.
  specialize (H c Hc). unfold plain_char in H. apply andb_true_iff in H.
  destruct H as [H _]. now apply char_eqb_eq in H.
Qed.

(** X12: the repair returns the empty string or a well-formed address:
    [local@domain.tld] with the parts the pattern asks for, in lower case
    and without whitespace, which [is_valid_email] accepts. *)
Theorem clean_email_well_formed (x : cell) :
  clean_email x = []
  \/ exists local domain tld,
       clean_email x = address local domain tld
       /\ well_formed_parts local domain tld
       /\ forallb plain_char (clean_email x) = true
       /\ is_valid_email (Text (clean_email x)) = true.
Proof.
  destruct x as [|e]; [now left|].
  rewrite clean_email_unfold. cbv zeta.
  set (email := fold_left _ corrections _).
  assert (Hplain : forallb plain_char email = true).
  { subst email. unfold corrections. cbn [fold_left].
    repeat (apply forallb_sub; [reflexivity|]).
    apply plain_lower_without_spaces. }
  destruct (is_valid_email (Text email)) eqn:Hv; [right | now left].
  pose proof Hv as Hshape. apply valid_email_parts in Hshape.
  destruct Hshape as (local & domain & tld & Hs & Hwf).
  rewrite (plain_fixed email Hplain) in Hs.
  exists local, domain, tld.
  split; [exact Hs | split; [exact Hwf | split; assumption]].
Qed.

End EmailMore.

(** ** The names taken from a page and their file names *)
Module RenameMore.
Import Vocabulary PyFacts Words SubFacts Spacing Rename.

(** [re.sub] of a one-character class by one character is a map. *)
Lemma sub_class_map (cls : ascii -> bool) (r : ascii) (s : str) :
  forall prev,
    Re.sub_from (Re.char_class cls) [r] prev 0 s
    = map (fun c => if cls c then r else c) s.
Proof.
  induction s as [|c s IH]; intro prev; [reflexivity|].
  cbn [Re.sub_from Re.char_class map].
  destruct (cls c); cbn [app]; now rewrite IH.
Qed.

Lemma filter_all {A} (f : A -> bool) (l : list A) :
  forallb f l = true -> filter f l = l.
Proof.
  induction l as [|x l IH]; [reflexivity|]. cbn. intro H.
  apply andb_true_iff in H. destruct H as [Hx Hl]. rewrite Hx. now rewrite IH.
Qed.

Lemma in_join_sp (c : ascii) (ws : list str) :
  In c (join_sp ws) -> c = " "%char \/ exists w, In w ws /\ In c w.
Proof.
  induction ws as [|w ws IH]; [easy|].
  destruct ws as [|v ws].
  - cbn [join_sp]. intro H. right. exists w. split; [now left | exact H].
  - rewrite join_sp_cons. intro H. apply in_app_or in H. destruct H as [H|H].
    + right. exists w. split; [now left | exact H].
    + change (py " " ++ join_sp (v :: ws)) with (" "%char :: join_sp (v :: ws)) in H.
      destruct H as [H|H]; [now left|].
      destruct (IH H) as [E|(u & Hu & Hc)]; [now left|].
      right. exists u. split; [now right | exact Hc].
Qed.

Lemma join_sp_in (c : ascii) (w : str) (ws : list str) :
  In w ws -> In c w -> In c (join_sp ws).
Proof.
  induction ws as [|v ws IH]; [easy|]. intros Hw Hc.
  destruct ws as [|u ws].
  - destruct Hw as [->|[]]. exact Hc.
  - rewrite join_sp_cons. apply in_or_app. destruct Hw as [->|Hw]; [now left|].
    right. apply in_or_app. right. now apply IH.
Qed.

(** A character that is no whitespace lies in a word. *)
Lemma split_covers (s : str) (d : ascii) :
  In d s -> is_space d = false -> exists w, In w (split s) /\ In d w.
Proof.
  intros Hd Hns. induction s as [|c s IH]; [easy|].
  cbn [split]. destruct (is_space c) eqn:Ec.
  - destruct Hd as [->|Hd]; [congruence|]. now apply IH.
  - destruct Hd as [->|Hd].
    + destruct (split s) as [|w ws]; [exists [d]; split; now left|].
      destruct (starts_with_space s).
      * exists [d]. split; now left.
      * exists (d :: w). split; now left.
    + destruct (IH Hd) as (w' & Hw' & Hdw).
      destruct (split s) as [|w ws]; [easy|].
      destruct (starts_with_space s).
      * exists w'. split; [now right | exact Hdw].
      * destruct Hw' as [<-|Hw'].
        -- exists (c :: w). split; [now left | now right].
        -- exists w'. split; [now right | exact Hdw].
Qed.

Lemma in_dropwhile {A} (p : A -> bool) (l : list A) (x : A) :
  In x l -> p x = false -> In x (dropwhile p l).
Proof.
  intros Hx Hp. induction l as [|y l IH]; [easy|]. cbn.
  destruct (p y) eqn:E; [|exact Hx].
  destruct Hx as [->|Hx]; [congruence | now apply IH].
Qed.

Lemma dropwhile_in {A} (p : A -> bool) (l : list A) (x : A) :
  In x (dropwhile p l) -> In x l.
Proof.
  induction l as [|y l IH]; [easy|]. cbn.
  destruct (p y); [intro H; right; now apply IH | easy].
Qed.

Lemma dropwhile_suffix {A} (p : A -> bool) (l : list A) :
  exists pre, l = pre ++ dropwhile p l.
Proof.
  induction l as [|y l [pre IH]]; [now exists []|]. cbn.
  destruct (p y); [|now exists []].
  exists (y :: pre). cbn. now rewrite <- IH.
Qed.

Lemma dropwhile_fixed {A} (p : A -> bool) (x : A) (l : list A) :
  p x = false -> dropwhile p (x :: l) = x :: l.
Proof. intro H. cbn. now rewrite H. Qed.

(** *** [strip(chars)] *)

Lemma strip_chars_head (chars s : str) (c : ascii) (rest : str) :
  strip_chars chars s = c :: rest -> existsb (char_eqb c) chars = false.
Proof.
  unfold strip_chars.
  set (drop := fun c => existsb (char_eqb c) chars).
  intro H. apply (f_equal (@rev _)) in H. rewrite rev_involutive in H.
  destruct (dropwhile_suffix drop (rev (dropwhile drop s))) as [pre Hpre].
  rewrite H in Hpre. apply (f_equal (@rev _)) in Hpre.
  rewrite rev_involutive, rev_app_distr, rev_involutive in Hpre.
  cbn [app] in Hpre.
  exact (Tiers.dropwhile_head drop _ _ _ Hpre).
Qed.

Lemma strip_chars_in (chars s : str) (c : ascii) :
  In c (strip_chars chars s) -> In c s.
Proof.
  unfold strip_chars. intro H. rewrite <- in_rev in H.
  apply dropwhile_in in H. rewrite <- in_rev in H. now apply dropwhile_in in H.
Qed.

Lemma in_strip_chars (chars s : str) (c : ascii) :
  In c s -> existsb (char_eqb c) chars = false -> In c (strip_chars chars s).
Proof.
  unfold strip_chars. intros H Hc. rewrite <- in_rev.
  apply (in_dropwhile (fun c => existsb (char_eqb c) chars)); [|exact Hc].
  rewrite <- in_rev.
  now apply (in_dropwhile (fun c => existsb (char_eqb c) chars)).
Qed.

Lemma strip_chars_fixed (chars s : str) (c d : ascii) (s1 s2 : str) :
  s = c :: s1 -> s = s2 ++ [d] ->
  existsb (char_eqb c) chars = false -> existsb (char_eqb d) chars = false ->
  strip_chars chars s = s.
Proof.
  intros E1 E2 Hc Hd. unfold strip_chars.
  rewrite E1 at 1.
  rewrite (dropwhile_fixed (fun c => existsb (char_eqb c) chars)) by exact Hc.
  rewrite <- E1. rewrite E2 at 1. rewrite rev_app_distr. cbn [rev app].
  rewrite (dropwhile_fixed (fun c => existsb (char_eqb c) chars)) by exact Hd.
  change (d :: rev s2) with (rev [d] ++ rev s2).
  now rewrite <- rev_app_distr, rev_involutive.
Qed.

(** *** Character classes *)

Lemma alnum_not_reserved (c : ascii) :
  alnum c = true -> reserved_char c = false.
Proof. each_char c. Qed.

Lemma alnum_not_unsafe (c : ascii) :
  alnum c = true -> unsafe_char c = false.
Proof. each_char c. Qed.

Lemma alnum_no_space (c : ascii) :
  alnum c = true -> is_space c = false.
Proof. each_char c. Qed.

Lemma alnum_no_edge (c : ascii) :
  alnum c = true -> edge_char c = false.
Proof. each_char c. Qed.

Lemma safe_inner_alnum (c : ascii) :
  safe_char c = true -> edge_char c = false -> alnum c = true.
Proof. each_char c. Qed.

Lemma kept_safe (c : ascii) :
  unsafe_char c = false -> is_space c = false -> safe_char c = true.
Proof. each_char c. Qed.

Lemma letter_no_space (c : ascii) :
  is_ascii_letter c = true -> is_space c = false.
Proof. each_char c. Qed.

Lemma letter_alnum (c : ascii) :
  is_ascii_letter c = true -> alnum c = true.
Proof. each_char c. Qed.

Lemma letter_kept (c : ascii) :
  is_ascii_letter c = true -> not_ascii_letter_or_space c = false.
Proof. each_char c. Qed.

Lemma blank_letter (c : ascii) :
  is_space (if not_ascii_letter_or_space c then " "%char else c) = false ->
  is_ascii_letter (if not_ascii_letter_or_space c then " "%char else c) = true.
Proof. each_char c. Qed.

Lemma letter_word_token (w : str) : letter_word w = true -> is_token w = true.
Proof.
  destruct w as [|c w]; [easy|]. unfold letter_word, is_token, no_space.
  intro H. apply forallb_forall. intros d Hd.
  rewrite forallb_forall in H. apply negb_true_iff, letter_no_space. now apply H.
Qed.

Lemma letter_words_tokens (ws : list str) :
  forallb letter_word ws = true -> forallb is_token ws = true.
Proof.
  intro H. apply forallb_forall. intros w Hw. apply letter_word_token.
  rewrite forallb_forall in H. now apply H.
Qed.

(** The characters of letter words joined by spaces. *)
Lemma letter_words_chars (ws : list str) (c : ascii) :
  forallb letter_word ws = true -> In c (join_sp ws) ->
  c = " "%char \/ is_ascii_letter c = true.
Proof.
  intros H Hc. destruct (in_join_sp _ _ Hc) as [E|(w & Hw & Hcw)]; [now left|].
  right. rewrite forallb_forall in H. specialize (H w Hw).
  destruct w as [|d w]; [easy|]. unfold letter_word in H.
  rewrite forallb_forall in H. now apply H.
Qed.

(** *** [clean_line] *)

Lemma clean_line_join (line : str) :
  clean_line line
  = join_sp (split (map (fun c => if not_ascii_letter_or_space c
                                  then " "%char else c) line)).
Proof.
  unfold clean_line.
  change (Re.sub (Re.class_plus is_space) (py " ")) with (sub_spaces (py " ")).
  rewrite strip_sub_spaces. unfold Re.sub. change (py " ") with [" "%char].
  now rewrite sub_class_map.
Qed.

Lemma blanked_words_letters (line : str) :
  forallb letter_word
    (split (map (fun c => if not_ascii_letter_or_space c
                          then " "%char else c) line)) = true.
Proof.
  set (t := map _ line).
  pose proof (split_tokens t) as Htok. rewrite forallb_forall in Htok.
  apply forallb_forall. intros w Hw. specialize (Htok w Hw).
  pose proof (token_no_space w Htok) as Hns.
  assert (Hall : forallb is_ascii_letter w = true).
  { apply forallb_forall. intros d Hd.
    pose proof (split_chars t w d Hw Hd) as Hin.
    unfold t in Hin. apply in_map_iff in Hin. destruct Hin as (c & <- & _).
    apply blank_letter. unfold no_space in Hns. rewrite forallb_forall in Hns.
    apply negb_true_iff. now apply Hns. }
  destruct w as [|c0 w0]; [discriminate | exact Hall].
Qed.

Lemma clean_line_words (line : str) :
  forallb letter_word (split (clean_line line)) = true
  /\ clean_line line = join_sp (split (clean_line line)).
Proof.
  pose proof (blanked_words_letters line) as Hl.
  pose proof (letter_words_tokens _ Hl) as Htok.
  rewrite clean_line_join. rewrite (split_join_sp _ Htok). now split.
Qed.

Lemma letter_words_clean (ws : list str) :
  forallb letter_word ws = true -> clean_line (join_sp ws) = join_sp ws.
Proof.
  intro H. rewrite clean_line_join.
  replace (map (fun c => if not_ascii_letter_or_space c then " "%char else c)
               (join_sp ws)) with (join_sp ws).
  - now rewrite split_join_sp by now apply letter_words_tokens.
  - rewrite <- (map_id (join_sp ws)) at 1. apply map_ext_in. intros c Hc.
    destruct (letter_words_chars ws c H Hc) as [->|Hl]; [reflexivity|].
    now rewrite (letter_kept c Hl).
Qed.

(** X13: what [extract_participant_name_from_page] makes of a line, with
    its two substitutions and its [strip], is a sequence of words of ASCII
    letters joined by single spaces, and cleaning it again changes nothing. *)
Theorem clean_line_letter_words (line : str) :
  forallb letter_word (split (clean_line line)) = true
  /\ clean_line line = join_sp (split (clean_line line))
  /\ clean_line (clean_line line) = clean_line line.
Proof.
  destruct (clean_line_words line) as [Hl Hj].
  split; [exact Hl|]. split; [exact Hj|].
  rewrite Hj at 1 2. now apply letter_words_clean.
Qed.

(** *** [sanitize_filename] *)

Lemma sanitize_steps (name : str) :
  sanitize_filename name
  = match strip_chars (py " ._-")
            (join_sp (split (filter (fun c => negb (unsafe_char c))
               (map (fun c => if reserved_char c then "_"%char else c) name))))
    with
    | [] => ValueError
    | c :: rest => Return (firstn 50 (c :: rest))
    end.
Proof.
  unfold sanitize_filename.
  change (Re.sub (Re.class_plus is_space) (py " ")) with (sub_spaces (py " ")).
  rewrite strip_sub_spaces. unfold Re.sub. change (py "_") with ["_"%char].
  rewrite sub_class_map, sub_class_filter.
  now destruct (strip_chars _ _).
Qed.

(** X14: [sanitize_filename] raises exactly on the names without a letter
    or digit; otherwise it returns between 1 and 50 characters, each a word
    character, a space or a hyphen, the first of them a letter or digit. *)
Theorem sanitize_filename_outcome (name : str) :
  match sanitize_filename name with
  | Return n =>
      existsb alnum name = true
      /\ 1 <= length n <= 50
      /\ forallb safe_char n = true
      /\ exists c rest, n = c :: rest /\ alnum c = true
  | ValueError => existsb alnum name = false
  end.
Proof.
  rewrite sanitize_steps.
  set (t1 := map _ name). set (t2 := filter _ t1). set (t3 := join_sp (split t2)).
  assert (Hsafe : forall c, In c t3 -> safe_char c = true).
  { intros c Hc. destruct (in_join_sp _ _ Hc) as [->|(w & Hw & Hcw)];
      [reflexivity|].
    pose proof (split_tokens t2) as Htok. rewrite forallb_forall in Htok.
    pose proof (token_no_space w (Htok w Hw)) as Hns.
    unfold no_space in Hns. rewrite forallb_forall in Hns.
    pose proof (split_chars t2 w c Hw Hcw) as Hin.
    unfold t2 in Hin. apply filter_In in Hin. destruct Hin as [_ Hu].
    apply kept_safe; [now apply negb_true_iff|].
    apply negb_true_iff. now apply Hns. }
  assert (Hfrom : forall c, In c t3 -> alnum c = true -> In c name).
  { intros c Hc Ha. destruct (in_join_sp _ _ Hc) as [->|(w & Hw & Hcw)];
      [discriminate|].
    pose proof (split_chars t2 w c Hw Hcw) as Hin.
    unfold t2 in Hin. apply filter_In in Hin. destruct Hin as [Hin _].
    unfold t1 in Hin. apply in_map_iff in Hin. destruct Hin as (c0 & E & Hin).
    destruct (reserved_char c0); [now subst c | now subst c0]. }
  assert (Hto : forall c, In c name -> alnum c = true ->
                          In c (strip_chars (py " ._-") t3)).
  { intros c Hc Ha. apply in_strip_chars; [|exact (alnum_no_edge c Ha)].
    assert (Hin : In c t2).
    { unfold t2. apply filter_In. split.
      - unfold t1. apply in_map_iff. exists c.
        now rewrite (alnum_not_reserved c Ha).
      - now rewrite (alnum_not_unsafe c Ha). }
    destruct (split_covers t2 c Hin (alnum_no_space c Ha)) as (w & Hw & Hcw).
    now apply (join_sp_in c w). }
  destruct (strip_chars (py " ._-") t3) as [|c rest] eqn:E.
  - destruct (existsb alnum name) eqn:Ex; [|reflexivity].
    apply existsb_exists in Ex. destruct Ex as (c & Hin & Hc).
    destruct (Hto c Hin Hc).
  - assert (Hsub : forall d, In d (c :: rest) -> In d t3)
      by (intros d Hd; rewrite <- E in Hd; now apply strip_chars_in in Hd).
    assert (Hc : alnum c = true).
    { apply safe_inner_alnum; [apply Hsafe, Hsub; now left|].
      exact (strip_chars_head _ _ _ _ E). }
    split; [|split; [|split]].
    + apply existsb_exists. exists c. split; [|exact Hc].
      apply Hfrom; [apply Hsub; now left | exact Hc].
    + split; [cbn; lia | apply firstn_le_length].
    + apply forallb_firstn. apply forallb_forall. intros d Hd.
      now apply Hsafe, Hsub.
    + exists c, (firstn 49 rest). split; [reflexivity | exact Hc].
Qed.

(** The last character of a non-empty string. *)
Lemma last_char (s : str) : s <> [] -> exists s2 d, s = s2 ++ [d].
Proof.
  intro H. destruct (exists_last H) as (s2 & d & E). now exists s2, d.
Qed.

Lemma strip_head_no_space (s : str) (c : ascii) (rest : str) :
  strip s = c :: rest -> is_space c = false.
Proof.
  unfold strip, rstrip. intro E.
  apply (f_equal (@rev _)) in E. rewrite rev_involutive in E.
  destruct (dropwhile_suffix is_space (rev (lstrip s))) as [pre Hpre].
  rewrite E in Hpre. apply (f_equal (@rev _)) in Hpre.
  rewrite rev_involutive, rev_app_distr, rev_involutive in Hpre.
  cbn [app] in Hpre. unfold lstrip in Hpre.
  exact (Tiers.dropwhile_head is_space _ _ _ Hpre).
Qed.

(** A name of letter words joined by single spaces needs no repair. *)
Lemma sanitize_letter_words (ws : list str) :
  ws <> [] -> forallb letter_word ws = true ->
  sanitize_filename (join_sp ws) = Return (firstn 50 (join_sp ws)).
Proof.
  intros Hne H. rewrite sanitize_steps.
  pose proof (letter_words_tokens ws H) as Htok.
  assert (Hchars : forall c, In c (join_sp ws) ->
                             c = " "%char \/ is_ascii_letter c = true)
    by (intros c Hc; now apply (letter_words_chars ws)).
  replace (map (fun c => if reserved_char c then "_"%char else c) (join_sp ws))
    with (join_sp ws).
  2:{ rewrite <- (map_id (join_sp ws)) at 1. apply map_ext_in. intros c Hc.
      destruct (Hchars c Hc) as [->|Hl]; [reflexivity|].
      now rewrite (alnum_not_reserved c (letter_alnum c Hl)). }
  rewrite filter_all.
  2:{ apply forallb_forall. intros c Hc.
      destruct (Hchars c Hc) as [->|Hl]; [reflexivity|].
      now rewrite (alnum_not_unsafe c (letter_alnum c Hl)). }
  rewrite (split_join_sp ws Htok).
  assert (Hn : join_sp ws <> []).
  { destruct ws as [|w ws]; [easy|]. apply join_sp_nonempty.
    cbn [forallb] in H. apply andb_true_iff in H. destruct H as [Hw _].
    now destruct w. }
  assert (Hstrip : strip (sub_spaces (py " ") (join_sp ws)) = join_sp ws)
    by (rewrite strip_sub_spaces; now rewrite split_join_sp).
  destruct (join_sp ws) as [|c s1] eqn:E; [easy|]. rewrite <- E in *.
  destruct (last_char _ Hn) as (s2 & d & E2).
  assert (Hc : edge_char c = false).
  { destruct (Hchars c) as [->|Hl];
      [rewrite E; now left | | exact (alnum_no_edge c (letter_alnum c Hl))].
    exfalso. rewrite <- Hstrip in E.
    now pose proof (strip_head_no_space _ _ _ E). }
  assert (Hd : edge_char d = false).
  { destruct (Hchars d) as [->|Hl];
      [rewrite E2; apply in_or_app; right; now left | |
       exact (alnum_no_edge d (letter_alnum d Hl))].
    exfalso. rewrite <- Hstrip in E2.
    now pose proof (EmailMore.strip_no_trailing_space _ _ _ E2). }
  rewrite (strip_chars_fixed (py " ._-") (join_sp ws) c d s1 s2 E E2 Hc Hd).
  now rewrite E.
Qed.

(** *** [extract_participant_name_from_page] *)

Lemma first_usable_name_some (lines : list str) (n : str) :
  first_usable_name lines = Some n ->
  exists line,
    In line lines /\ should_skip_line line = false
    /\ n = clean_line line /\ usable_name n = true.
Proof.
  induction lines as [|line lines IH]; [discriminate|]. cbn [first_usable_name].
  destruct (should_skip_line line) eqn:Es.
  - intro H. destruct (IH H) as (l & Hl & Hrest). exists l.
    split; [now right | exact Hrest].
  - destruct (usable_name (clean_line line)) eqn:Eu.
    + intro H. injection H as <-. exists line.
      split; [now left|]. split; [exact Es|]. split; [reflexivity | exact Eu].
    + intro H. destruct (IH H) as (l & Hl & Hrest). exists l.
      split; [now right | exact Hrest].
Qed.

Lemma extract_from_line (text : option str) (ranked : list str) (n : str) :
  extract_participant_name_from_page text ranked = Return n ->
  exists t line,
    text = Some t
    /\ (In line (firstn 3 ranked)
        \/ In line (map strip (split_on "010"%char t)))
    /\ should_skip_line line = false
    /\ n = clean_line line /\ usable_name n = true.
Proof.
  unfold extract_participant_name_from_page.
  destruct text as [t|]; [|discriminate].
  destruct t as [|c t]; [discriminate|].
  set (lines := filter _ _).
  assert (Hlines : forall l, In l lines ->
                             In l (map strip (split_on "010"%char (c :: t))))
    by (intros l Hl; unfold lines in Hl; now apply filter_In in Hl).
  clearbody lines.
  destruct lines as [|l0 ls]; [discriminate|].
  destruct (first_usable_name (firstn 3 ranked)) as [m|] eqn:E1.
  - intro H. injection H as <-.
    destruct (first_usable_name_some _ _ E1) as (line & Hin & Hrest).
    exists (c :: t), line. split; [reflexivity|]. split; [now left | exact Hrest].
  - destruct (first_usable_name (l0 :: ls)) as [m|] eqn:E2; [|discriminate].
    intro H. injection H as <-.
    destruct (first_usable_name_some _ _ E2) as (line & Hin & Hrest).
    exists (c :: t), line. split; [reflexivity|]. split; [|exact Hrest].
    right. now apply Hlines.
Qed.

(** X15: a name returned by [extract_participant_name_from_page] is the
    cleaned text of a line that [should_skip_line] lets through, one of the
    three lines of largest font or a stripped line of the page text; it has
    at least two characters, is not the word name in any case, and is made
    of words of ASCII letters joined by single spaces. *)
Theorem extracted_name_source (text : option str) (ranked : list str) (n : str) :
  extract_participant_name_from_page text ranked = Return n ->
  (exists t line,
     text = Some t
     /\ (In line (firstn 3 ranked)
         \/ In line (map strip (split_on "010"%char t)))
     /\ should_skip_line line = false
     /\ n = clean_line line)
  /\ 2 <= length n
  /\ lower n <> py "name"
  /\ forallb letter_word (split n) = true
  /\ n = join_sp (split n).
Proof.
  intro H.
  destruct (extract_from_line _ _ _ H) as (t & line & Et & Hin & Hs & En & Hu).
  unfold usable_name in Hu. apply andb_true_iff in Hu. destruct Hu as [Hlen Hname].
  apply Nat.leb_le in Hlen. apply negb_true_iff, str_eqb_neq in Hname.
  split; [now exists t, line|]. split; [exact Hlen|]. split; [exact Hname|].
  subst n. apply clean_line_words.
Qed.

Lemma extracted_name_source_witness :
  2 <= length (py "Harsha Vardhan")
  /\ lower (py "Harsha Vardhan") <> py "name".
Proof.
  assert (H : extract_participant_name_from_page
                (Some (py "CERTIFICATE OF MERIT" ++ ["010"%char]
                       ++ py "  Harsha  Vardhan-" ++ ["010"%char] ++ py "2024"))
                [] = Return (py "Harsha Vardhan"))
    by (vm_compute; reflexivity).
  destruct (extracted_name_source _ _ _ H) as (_ & Hlen & Hname & _).
  now split.
Defined.

(** X16: a name returned by [extract_participant_name_from_page] always
    passes [sanitize_filename], which does no more to it than cut it to 50
    characters: a page with a readable name is never skipped for its file
    name. *)
Theorem extracted_name_sanitizes (text : option str) (ranked : list str) (n : str) :
  extract_participant_name_from_page text ranked = Return n ->
  sanitize_filename n = Return (firstn 50 n).
Proof.
  intro H.
  destruct (extract_from_line _ _ _ H) as (t & line & _ & _ & _ & En & Hu).
  destruct (clean_line_words line) as [Hl Hj]. rewrite <- En in Hl, Hj.
  rewrite Hj at 1 2. apply sanitize_letter_words; [|exact Hl].
  intro E. rewrite E in Hj. cbn in Hj. rewrite Hj in Hu. vm_compute in Hu. discriminate Hu.
Qed.

Lemma extracted_name_sanitizes_witness :
  sanitize_filename (py "Harsha Vardhan") = Return (py "Harsha Vardhan").
Proof.
  apply (extracted_name_sanitizes
           (Some (py "CERTIFICATE OF MERIT" ++ ["010"%char]
                  ++ py "  Harsha  Vardhan-" ++ ["010"%char] ++ py "2024")) []).
  vm_compute. reflexivity.
Defined.

(** *** [should_skip_line] *)

Lemma lower_dropwhile_space (s : str) :
  dropwhile is_space (lower s) = lower (dropwhile is_space s).
Proof.
  unfold lower. induction s as [|c s IH]; [reflexivity|]. cbn [map dropwhile].
  rewrite EmailMore.lower_char_space. now destruct (is_space c).
Qed.

Lemma strip_lower (s : str) : strip (lower s) = lower (strip s).
Proof.
  unfold strip, rstrip, lstrip. rewrite lower_dropwhile_space.
  unfold lower at 1. rewrite <- map_rev. fold (lower (rev (dropwhile is_space s))).
  rewrite lower_dropwhile_space. unfold lower. now rewrite map_rev.
Qed.

Lemma dropwhile_nil_all {A} (p : A -> bool) (l : list A) :
  dropwhile p l = [] -> forallb p l = true.
Proof.
  induction l as [|x l IH]; [reflexivity|]. cbn.
  destruct (p x); [exact IH | discriminate].
Qed.

Lemma rstrip_after_token (w rest : str) :
  is_token w = true -> exists rest', rstrip (w ++ rest) = w ++ rest'.
Proof.
  intro Hw. destruct (rstrip rest) as [|c r] eqn:E.
  - exists []. rewrite app_nil_r. apply rstrip_token; [exact Hw|].
    unfold rstrip in E. apply (f_equal (@rev _)) in E.
    rewrite rev_involutive in E. cbn in E. apply dropwhile_nil_all in E.
    unfold all_space. now rewrite <- forallb_rev.
  - exists (c :: r). rewrite <- E. apply rstrip_app. now rewrite E.
Qed.

(** The trimmed line begins with its first word. *)
Lemma strip_first_word (s w : str) (ws : list str) :
  split s = w :: ws -> exists rest, strip s = w ++ rest.
Proof.
  destruct (layout_exists s) as (lead & toks & -> & Hlead & Htoks).
  rewrite split_flatten by assumption.
  destruct toks as [|[w0 sp] toks]; [discriminate|]. cbn [map fst].
  intro H. injection H as -> _.
  pose proof (body_word_start _ Htoks) as Hstart.
  apply well_spaced_head in Htoks. destruct Htoks as (Hw & _).
  unfold strip, lstrip, flatten. fold (body ((w, sp) :: toks)).
  rewrite dropwhile_all by exact Hlead.
  fold (lstrip (body ((w, sp) :: toks))). rewrite lstrip_word_start by exact Hstart.
  unfold body. cbn [map concat fst snd]. rewrite <- app_assoc.
  now apply rstrip_after_token.
Qed.

Lemma startswith_app (p rest : str) : startswith (p ++ rest) p = true.
Proof.
  induction p as [|c p IH]; [now destruct rest|].
  cbn. now rewrite char_eqb_refl.
Qed.

Lemma contains_prefix (p rest : str) : contains p (p ++ rest) = true.
Proof.
  destruct (p ++ rest) as [|c s] eqn:E; cbn [contains]; rewrite <- E;
    now rewrite startswith_app.
Qed.

Lemma str_in_In (x : str) (l : list str) : str_in x l = true <-> In x l.
Proof.
  unfold str_in. rewrite existsb_exists. split.
  - intros (y & Hy & E). apply str_eqb_eq in E. now subst.
  - intro H. exists x. split; [exact H | apply str_eqb_refl].
Qed.

Lemma always_skipped_listed (x : str) :
  str_in x always_skipped_words = true ->
  str_in x administrative_words = true /\ str_in x skip_keywords = true.
Proof.
  intro H. apply str_in_In in H. cbn in H.
  destruct H as [<-|[<-|[<-|[<-|[]]]]]; split; reflexivity.
Qed.

(** X17: a line whose first word is, whatever its case, one of
    certificate, this, participant, congratulations is skipped, whatever
    follows: the exemption of lines made of alphabetic words does not apply
    to it and the word is itself a keyword of the skip list. *)
Theorem first_word_always_skipped (line w : str) (ws : list str) :
  split line = w :: ws ->
  str_in (lower w) always_skipped_words = true ->
  should_skip_line line = true.
Proof.
  intros Hsplit Hw. apply always_skipped_listed in Hw. destruct Hw as [Ha Hk].
  unfold should_skip_line. rewrite Hsplit. cbn [hd]. rewrite Ha.
  cbn [negb]. rewrite andb_false_r.
  apply existsb_exists. exists (lower w). split; [now apply str_in_In|].
  rewrite strip_lower. destruct (strip_first_word _ _ _ Hsplit) as [rest ->].
  unfold lower. rewrite map_app. apply contains_prefix.
Qed.

Lemma first_word_always_skipped_witness :
  should_skip_line (py "Participant Harsha Vardhan") = true.
Proof.
  apply (first_word_always_skipped _ (py "Participant")
                                   [py "Harsha"; py "Vardhan"]);
    reflexivity.
Defined.

End RenameMore.

(** ** The renaming loop never writes over a file *)
Module RenameRun.
Import Vocabulary PyFacts Rename.

Lemma str_of_nat_inj (i j : nat) : str_of_nat i = str_of_nat j -> i = j.
Proof.
  unfold str_of_nat. intro H.
  apply (f_equal string_of_list_ascii) in H.
  rewrite !string_of_list_ascii_of_string in H.
  apply (f_equal DecimalString.NilEmpty.uint_of_string) in H.
  rewrite !DecimalString.NilEmpty.usu in H. injection H as H.
  apply (f_equal Nat.of_uint) in H.
  now rewrite !DecimalNat.Unsigned.of_to in H.
Qed.

Lemma numbered_inj (final_name : str) (i j : nat) :
  numbered final_name i = numbered final_name j -> i = j.
Proof.
  unfold numbered. intro H. apply app_inv_head in H. apply app_inv_head in H.
  apply app_inv_tail in H. now apply str_of_nat_inj.
Qed.

Lemma next_free_some (files : list str) (final_name : str) (fuel : nat) :
  forall counter f,
    next_free files final_name fuel counter = Some f -> ~ In f files.
Proof.
  induction fuel as [|fuel IH]; intros counter f; cbn [next_free];
    [discriminate|].
  destruct (str_in (numbered final_name counter) files) eqn:E.
  - apply IH.
  - intro H. injection H as <-. intro Hin.
    apply RenameMore.str_in_In in Hin. congruence.
Qed.

(** A search that gives up has found every name it tried. *)
Lemma next_free_none (files : list str) (final_name : str) (fuel : nat) :
  forall counter,
    next_free files final_name fuel counter = None ->
    incl (map (numbered final_name) (seq counter fuel)) files.
Proof.
  induction fuel as [|fuel IH]; intros counter; cbn [next_free seq map].
  - intros _ x [].
  - destruct (str_in (numbered final_name counter) files) eqn:E; [|discriminate].
    intros H x [<-|Hx]; [now apply RenameMore.str_in_In|].
    now apply (IH (S counter)).
Qed.

(** One round more than there are names in the folder is enough. *)
Lemma next_free_enough (files : list str) (final_name : str) (counter : nat) :
  next_free files final_name (S (length files)) counter <> None.
Proof.
  intro H. apply next_free_none in H.
  assert (Hnd : NoDup (map (numbered final_name)
                           (seq counter (S (length files))))).
  { apply NoDup_map_NoDup_ForallPairs; [|apply seq_NoDup].
    intros i j _ _. apply numbered_inj. }
  pose proof (NoDup_incl_length Hnd H) as Hlen.
  rewrite length_map, length_seq in Hlen. lia.
Qed.

Lemma free_filename_fresh (files : list str) (final_name : str) :
  exists f, free_filename files final_name = Some f /\ ~ In f files.
Proof.
  unfold free_filename.
  destruct (str_in (final_name ++ py ".pdf") files) eqn:E.
  - destruct (next_free files final_name (S (length files)) 1) as [f|] eqn:En.
    + exists f. split; [reflexivity|]. now apply next_free_some in En.
    + now apply next_free_enough in En.
  - eexists. split; [reflexivity|]. intro H.
    apply RenameMore.str_in_In in H. congruence.
Qed.

Section Loop.

Variable write_page : nat -> str -> writing.

(** One round: a page is counted once, and what is added to the folder is
    at most one name that was not there. *)
Lemma rename_page_round (page_idx : nat) (st : run) (p : page) :
  exists st' added,
    rename_page write_page page_idx st p = Some st'
    /\ folder st' = folder st ++ added
    /\ length added <= 1
    /\ (forall f, In f added -> ~ In f (folder st))
    /\ processed st' + skipped st' = S (processed st + skipped st)
    /\ processed st' <= processed st + length added.
Proof.
  assert (Hskip : forall used,
             exists st' added,
               Some (skip_page st used (folder st)) = Some st'
               /\ folder st' = folder st ++ added
               /\ length added <= 1
               /\ (forall f, In f added -> ~ In f (folder st))
               /\ processed st' + skipped st' = S (processed st + skipped st)
               /\ processed st' <= processed st + length added).
  { intro used. exists (skip_page st used (folder st)), [].
    cbn. rewrite app_nil_r. repeat split; try easy; lia. }
  unfold rename_page. destruct p as [|text ranked]; [apply Hskip|].
  destruct (extract_participant_name_from_page text ranked) as [raw_name|];
    [|apply Hskip].
  destruct (sanitize_filename raw_name) as [name|]; [|apply Hskip].
  destruct (match counts_get (used_names st) name with
            | Some count =>
                (name ++ py "_" ++ str_of_nat (S count),
                 counts_set (used_names st) name (S count))
            | None => (name, counts_set (used_names st) name 0)
            end) as [final_name used].
  destruct (free_filename_fresh (folder st) final_name) as (f & -> & Hf).
  destruct (write_page page_idx f).
  - eexists. exists [f]. split; [reflexivity|]. cbn.
    repeat split; try lia. now intros g [<-|[]].
  - apply Hskip.
  - eexists. exists [f]. split; [reflexivity|]. cbn.
    repeat split; try lia. now intros g [<-|[]].
Qed.

Lemma rename_loop_rounds (pages : list page) :
  forall page_idx st,
  exists st' new,
    rename_loop write_page page_idx st pages = Some st'
    /\ folder st' = folder st ++ new
    /\ NoDup new
    /\ (forall f, In f new -> ~ In f (folder st))
    /\ processed st' + skipped st' = processed st + skipped st + length pages
    /\ processed st' <= processed st + length new
    /\ length new <= length pages.
Proof.
  induction pages as [|p pages IH]; intros page_idx st.
  - exists st, []. cbn. rewrite app_nil_r.
    repeat split; try easy; try lia. constructor.
  - cbn [rename_loop].
    destruct (rename_page_round page_idx st p)
      as (st1 & added & -> & Hf1 & Hlen1 & Hnew1 & Hsum1 & Hp1).
    destruct (IH (S page_idx) st1)
      as (st' & new & -> & Hf & Hnd & Hnew & Hsum & Hp & Hlen).
    exists st', (added ++ new). split; [reflexivity|].
    split; [now rewrite Hf, Hf1, app_assoc|].
    split; [|split; [|split; [|split]]].
    + apply NoDup_app; [| exact Hnd |].
      * destruct added as [|a [|b added]]; [constructor | | cbn in Hlen1; lia].
        constructor; [easy | constructor].
      * intros a Ha Hin. apply (Hnew a Hin). rewrite Hf1.
        apply in_or_app. now right.
    + intros f Hin. apply in_app_or in Hin. destruct Hin as [Hin|Hin].
      * now apply Hnew1.
      * intro Hold. apply (Hnew f Hin). rewrite Hf1. apply in_or_app. now left.
    + cbn [length]. lia.
    + rewrite length_app. lia.
    + rewrite length_app. cbn [length]. lia.
Qed.

End Loop.

(** X18: the renaming loop always comes to an end, whatever the pages, the
    folder and the outcome of each write: the search for a free file name
    stops within one round more than the folder has names.  Every page is
    counted once, as processed or as skipped; the names the loop adds to the
    folder are pairwise distinct and none of them was in the folder before,
    so that no file, old or new, is written over; and every processed page
    has a file of its own. *)
Theorem rename_loop_writes_fresh (write_page : nat -> str -> writing)
        (pages : list page) (files : list str) :
  exists st new,
    rename_loop write_page 0 (fresh_run files) pages = Some st
    /\ processed st + skipped st = length pages
    /\ folder st = files ++ new
    /\ NoDup new
    /\ (forall f, In f new -> ~ In f files)
    /\ processed st <= length new <= length pages.
Proof.
  destruct (rename_loop_rounds write_page pages 0 (fresh_run files))
    as (st & new & H & Hf & Hnd & Hnew & Hsum & Hp & Hlen).
  exists st, new. cbn in Hf, Hnew, Hsum, Hp. now repeat split.
Qed.

End RenameRun.

(** ** The sending loop writes only to repaired addresses *)
Module SendRun.
Import Automation Report Sender Vocabulary PyFacts ReportFacts.

Lemma clean_email_valid (x : cell) :
  clean_email x = [] \/ is_valid_email (Text (clean_email x)) = true.
Proof.
  destruct x as [|e]; [now left|]. unfold clean_email.
  set (email := fold_left _ corrections _).
  destruct (is_valid_email (Text email)) eqn:E; [now right | now left].
Qed.

Lemma process_row_sendable (unidecode : str -> str) (cert_map : dict)
      (idx : nat) (r : row) (rec : record) :
  process_row unidecode cert_map (dict_keys cert_map) idx r = Ok rec ->
  sendable cert_map rec.
Proof.
  intros H Hw.
  destruct (process_row_outcome unidecode cert_map idx r)
    as (rec' & Hrec' & Hrow & (_ & Hc2 & Hc3 & _) & Hinv).
  rewrite H in Hrec'. injection Hrec' as <-.
  destruct Hrow as (_ & _ & _ & Hmail & _).
  assert (Hst : status rec = matched \/ status rec = low_confidence_match)
    by (unfold with_certificate in Hw; destruct (status rec);
        try discriminate; auto).
  split.
  - destruct (clean_email_valid (snd r)) as [E|E]; [|now rewrite Hmail].
    exfalso. destruct (valid_email rec) eqn:Ev.
    + unfold process_row in H. rewrite E in H. cbn in H.
      injection H as <-. cbn in Hst. destruct Hst; discriminate.
    + specialize (Hinv eq_refl). rewrite Hinv in Hst. destruct Hst; discriminate.
  - apply Hc2 in Hst. destruct (Hc3 Hst) as (k & f & Hf & Hk).
    now exists f, k.
Qed.

Section Loop.

Variable cert_map : dict.
Variable cert_folder : str.
Variable path_exists : nat -> str -> bool.
Variable send_certificate : nat -> str -> str -> str -> str -> sending.

Lemma send_row_round (pos : nat) (t : tally) (row : record) :
  sendable cert_map row ->
  exists t' made,
    send_row cert_folder path_exists send_certificate pos t row = Finished t'
    /\ successful t' + failed t' + skipped t'
       = S (successful t + failed t + skipped t)
    /\ skipped t' = skipped t + (if with_certificate row then 0 else 1)
    /\ length (log t') = S (length (log t))
    /\ calls t' = calls t ++ made
    /\ Forall (deliverable cert_map cert_folder) made
    /\ successful t' <= successful t + length made.
Proof.
  intro Hs. unfold send_row, sendable, with_certificate in *.
  assert (Hskip : forall st,
    exists t' made,
      Finished {| successful := successful t; failed := failed t;
                  skipped := S (skipped t);
                  log := log t ++ [SKIPPED (cleaned_email row)
                                           (original_name row) st];
                  calls := calls t |} = Finished t'
      /\ successful t' + failed t' + skipped t'
         = S (successful t + failed t + skipped t)
      /\ skipped t' = skipped t + 1
      /\ length (log t') = S (length (log t))
      /\ calls t' = calls t ++ made
      /\ Forall (deliverable cert_map cert_folder) made
      /\ successful t' <= successful t + length made).
  { intro st. eexists. exists []. split; [reflexivity|]. cbn.
    rewrite length_app, app_nil_r. cbn. repeat split; try lia. constructor. }
  assert (Hsend : with_certificate row = true ->
    exists t' made,
      match certificate_filename row with
      | None => TypeError
      | Some filename =>
          let path := Os.join cert_folder filename in
          if negb (path_exists pos path) then
            Finished {| successful := successful t;
                        failed := S (failed t);
                        skipped := skipped t;
                        log := log t ++ [FAILED (cleaned_email row)
                                                (original_name row) file_missing];
                        calls := calls t |}
          else
            let made :=
              calls t ++ [mk_call (original_name row) (cleaned_email row)
                                  path filename] in
            match send_certificate pos (original_name row) (cleaned_email row)
                                   path filename with
            | returns_true =>
                Finished {| successful := S (successful t);
                            failed := failed t;
                            skipped := skipped t;
                            log := log t ++ [SUCCESS (cleaned_email row)
                                                     (original_name row) filename];
                            calls := made |}
            | returns_false =>
                Finished {| successful := successful t;
                            failed := S (failed t);
                            skipped := skipped t;
                            log := log t ++ [FAILED (cleaned_email row)
                                                    (original_name row) send_failed];
                            calls := made |}
            | raises =>
                Finished {| successful := successful t;
                            failed := S (failed t);
                            skipped := skipped t;
                            log := log t ++ [FAILED (cleaned_email row)
                                                    (original_name row) exception];
                            calls := made |}
            end
      end = Finished t'
      /\ successful t' + failed t' + skipped t'
         = S (successful t + failed t + skipped t)
      /\ skipped t' = skipped t + 0
      /\ length (log t') = S (length (log t))
      /\ calls t' = calls t ++ made
      /\ Forall (deliverable cert_map cert_folder) made
      /\ successful t' <= successful t + length made).
  { intro Hw. unfold with_certificate in Hw.
    assert (Hs' := Hs). clear Hs.
    assert (Hok : is_valid_email (Text (cleaned_email row)) = true
                  /\ exists filename k,
                       certificate_filename row = Some filename
                       /\ dict_get cert_map k = Some filename)
      by (apply Hs'; exact Hw).
    destruct Hok as (Hmail & filename & k & -> & Hk). cbv zeta.
    assert (Hd : Forall (deliverable cert_map cert_folder)
                        [mk_call (original_name row) (cleaned_email row)
                                 (Os.join cert_folder filename) filename]).
    { constructor; [|constructor]. unfold deliverable. cbn.
      split; [exact Hmail|]. split; [reflexivity | now exists k]. }
    destruct (negb (path_exists pos (Os.join cert_folder filename))).
    - eexists. exists []. split; [reflexivity|]. cbn.
      rewrite length_app, app_nil_r. cbn. repeat split; try lia. constructor.
    - destruct (send_certificate pos (original_name row) (cleaned_email row)
                                 (Os.join cert_folder filename) filename);
        eexists; eexists; (split; [reflexivity|]); cbn;
        rewrite length_app; cbn; repeat split; cbn; try lia; exact Hd. }
  destruct (status row) eqn:Est; try apply Hskip;
    apply Hsend; unfold with_certificate; now rewrite Est.
Qed.

Lemma send_loop_rounds (rows : list record) :
  Forall (sendable cert_map) rows ->
  forall pos t,
  exists t' made,
    send_loop cert_folder path_exists send_certificate pos t rows = Finished t'
    /\ successful t' + failed t' + skipped t'
       = successful t + failed t + skipped t + length rows
    /\ skipped t'
       = skipped t + length (filter (fun r => negb (with_certificate r)) rows)
    /\ length (log t') = length (log t) + length rows
    /\ calls t' = calls t ++ made
    /\ Forall (deliverable cert_map cert_folder) made
    /\ successful t' <= successful t + length made.
Proof.
  induction 1 as [|row rows Hrow _ IH]; intros pos t.
  - exists t, []. cbn. rewrite app_nil_r. repeat split; try lia. constructor.
  - cbn [send_loop].
    destruct (send_row_round pos t row Hrow)
      as (t1 & made1 & -> & Hsum1 & Hsk1 & Hlog1 & Hc1 & Hd1 & Hs1).
    destruct (IH (S pos) t1)
      as (t' & made & -> & Hsum & Hsk & Hlog & Hc & Hd & Hs).
    exists t', (made1 ++ made). split; [reflexivity|].
    cbn [filter length].
    split; [lia|]. split.
    { rewrite Hsk, Hsk1. destruct (with_certificate row); cbn [negb length]; lia. }
    split; [lia|]. split; [now rewrite Hc, Hc1, app_assoc|].
    split; [now apply Forall_app|]. rewrite length_app. lia.
Qed.

End Loop.

(** X19: the sending loop, run on the report of
    [validate_data_and_certificates], never raises on a missing file name,
    and counts every record once: successful + failed + skipped is the
    number of records, with one log line each; the skipped ones are the
    records without a certificate.  [send_certificate] is only called with
    an address that [is_valid_email] accepts and a file name that is a
    value of the index, under the certificate folder; in particular never
    for a row whose address could not be repaired. *)
Theorem sending_is_accounted (unidecode : str -> str) (df : list row)
        (cert_map : dict) (cert_folder : str)
        (path_exists : nat -> str -> bool)
        (send_certificate : nat -> str -> str -> str -> str -> sending) :
  exists recs t,
    validate_data_and_certificates unidecode df cert_map = Ok recs
    /\ send_loop cert_folder path_exists send_certificate 0 start recs
       = Finished t
    /\ successful t + failed t + skipped t = length recs
    /\ skipped t = length (filter (fun r => negb (with_certificate r)) recs)
    /\ length (log t) = length recs
    /\ Forall (deliverable cert_map cert_folder) (calls t)
    /\ successful t <= length (calls t).
Proof.
  destruct (ReportMore.report_forall unidecode cert_map (sendable cert_map)
              (process_row_sendable unidecode cert_map) df)
    as (recs & Hv & Hall).
  destruct (send_loop_rounds cert_map cert_folder path_exists send_certificate
              recs Hall 0 start)
    as (t & made & Hloop & Hsum & Hsk & Hlog & Hc & Hd & Hs).
  exists recs, t. cbn in Hsum, Hsk, Hlog, Hc, Hs. subst made.
  now repeat split.
Qed.

End SendRun.

(** ** From the files of [rename.py] to the keys of the index *)
Module RenamedIndex.
Import Automation Vocabulary PyFacts SubFacts Spacing Rename.

(** *** [str(n)] *)

Lemma uint_digits (d : Decimal.uint) :
  forallb is_digit
    (list_ascii_of_string (DecimalString.NilEmpty.string_of_uint d)) = true.
Proof.
  induction d; cbn [DecimalString.NilEmpty.string_of_uint list_ascii_of_string
                    forallb]; [reflexivity | rewrite IHd; reflexivity ..].
Qed.

Lemma str_of_nat_digits (n : nat) : forallb is_digit (str_of_nat n) = true.
Proof. apply uint_digits. Qed.

Lemma str_of_nat_nonempty (n : nat) : str_of_nat n <> [].
Proof.
  unfold str_of_nat. intro H.
  pose proof (DecimalString.NilEmpty.usu (Nat.to_uint n)) as Hu.
  destruct (DecimalString.NilEmpty.string_of_uint (Nat.to_uint n)) eqn:E;
    [|discriminate].
  cbn in Hu. injection Hu as Hu.
  pose proof (DecimalNat.Unsigned.of_to n) as Hn. rewrite <- Hu in Hn.
  cbn in Hn. subst n. discriminate.
Qed.

(** *** [os.path.splitext] of a name followed by ".pdf" *)

Lemma rfind_from_absent (c : ascii) (s : str) :
  forallb (fun d => negb (char_eqb d c)) s = true ->
  forall i found, Os.rfind_from c s i found = found.
Proof.
  induction s as [|d s IH]; [reflexivity|]. cbn [forallb Os.rfind_from].
  intros H i found. apply andb_true_iff in H. destruct H as [Hd Hs].
  apply negb_true_iff in Hd. rewrite Hd. now apply IH.
Qed.

Lemma rfind_from_app (c : ascii) (a b : str) :
  forall i found,
    Os.rfind_from c (a ++ b) i found
    = Os.rfind_from c b (i + length a) (Os.rfind_from c a i found).
Proof.
  induction a as [|d a IH]; intros i found; cbn [app Os.rfind_from length].
  - now rewrite Nat.add_0_r.
  - rewrite IH. now rewrite Nat.add_succ_r.
Qed.

Lemma splitext_pdf (x : str) (c : ascii) (x' : str) :
  x = c :: x' ->
  forallb (fun d => negb (char_eqb d "."%char)) x = true ->
  forallb (fun d => negb (char_eqb d "/"%char)) x = true ->
  Os.splitext (x ++ py ".pdf") = (x, py ".pdf").
Proof.
  intros Ex Hdot Hsep. unfold Os.splitext, Os.rfind.
  rewrite !rfind_from_app.
  rewrite (rfind_from_absent _ _ Hdot), (rfind_from_absent _ _ Hsep).
  change (Os.rfind_from "/" (py ".pdf") (0 + length x) None) with (@None nat).
  change (Os.rfind_from "." (py ".pdf") (0 + length x) None)
    with (Some (0 + length x)).
  cbn [Nat.add Nat.leb andb skipn]. rewrite Nat.sub_0_r.
  rewrite firstn_app, firstn_all, Nat.sub_diag. cbn [firstn]. rewrite app_nil_r.
  rewrite skipn_app, skipn_all, Nat.sub_diag. cbn [skipn app].
  replace (existsb (fun c0 => negb (char_eqb c0 ".")) x) with true; [reflexivity|].
  rewrite Ex in *. cbn [forallb existsb] in *.
  apply andb_true_iff in Hdot. destruct Hdot as [-> _]. reflexivity.
Qed.

Lemma endswith_app (a b : str) : endswith (a ++ b) b = true.
Proof. unfold endswith. rewrite rev_app_distr. apply RenameMore.startswith_app. Qed.

Lemma endswith_lower_pdf (x : str) :
  endswith (lower (x ++ py ".pdf")) (py ".pdf") = true.
Proof. unfold lower. rewrite map_app. apply endswith_app. Qed.

(** *** The three substitutions of [build_cert_map] *)

(** After the first character an anchored pattern matches nowhere. *)
Lemma anchored_later (lit : str) (cls : ascii -> bool) (s : str) :
  forall d,
    Re.sub_from (Re.anchored_nocase_then lit cls) [] (Some d) 0 s = s.
Proof.
  induction s as [|c s IH]; intro d; [reflexivity|].
  cbn [Re.sub_from Re.anchored_nocase_then]. now rewrite IH.
Qed.

Lemma anchored_skip (lit : str) (cls : ascii -> bool) (l rest : str) :
  forall d,
    Re.sub_from (Re.anchored_nocase_then lit cls) [] (Some d) (length l)
                (l ++ rest) = rest.
Proof.
  induction l as [|x l IH]; intro d; [apply anchored_later|].
  cbn [length app]. destruct rest as [|r rest'].
  - cbn [Re.sub_from]. apply IH.
  - cbn [Re.sub_from]. apply IH.
Qed.

Lemma strip_prefix_nocase_split (lit s rest : str) :
  Re.strip_prefix_nocase lit s = Some rest ->
  exists pre, s = pre ++ rest /\ length pre = length lit.
Proof.
  revert s. induction lit as [|d lit IH]; intros s H.
  - cbn in H. injection H as <-. now exists [].
  - destruct s as [|c s]; [discriminate|]. cbn [Re.strip_prefix_nocase] in H.
    destruct (char_eqb (lower_char c) d); [|discriminate].
    destruct (IH s H) as (pre & -> & Hlen).
    exists (c :: pre). cbn. now rewrite Hlen.
Qed.

(** [re.sub(r'^lit[cls]*', '', s, flags=re.IGNORECASE)] *)
Lemma sub_anchored (lit : str) (cls : ascii -> bool) (s : str) :
  lit <> [] ->
  Re.sub (Re.anchored_nocase_then lit cls) [] s
  = match Re.strip_prefix_nocase lit s with
    | Some rest => dropwhile cls rest
    | None => s
    end.
Proof.
  intro Hlit. unfold Re.sub. destruct s as [|c s].
  - destruct lit; [now elim Hlit | reflexivity].
  - cbn [Re.sub_from]. unfold Re.anchored_nocase_then at 1.
    destruct (Re.strip_prefix_nocase lit (c :: s)) as [rest|] eqn:E.
    + destruct (strip_prefix_nocase_split _ _ _ E) as (pre & Hs & Hlen).
      destruct (RenameMore.dropwhile_suffix cls rest) as [mid Hmid].
      destruct pre as [|p pre];
        [destruct lit; [now elim Hlit | discriminate]|].
      cbn [app] in Hs. injection Hs as <- Hs.
      assert (Hlen' : length (c :: s)
                      - length (dropwhile cls rest) = S (length (pre ++ mid))).
      { rewrite Hs. rewrite Hmid at 1. cbn [length]. rewrite !length_app. lia. }
      rewrite Hlen'. cbn [app].
      rewrite Hs. rewrite Hmid at 1. rewrite app_assoc. apply anchored_skip.
    + now rewrite anchored_later.
Qed.

Lemma strip_prefix_nocase_app (lit n x : str) :
  forallb (fun d => negb (char_eqb "_"%char d)) lit = true ->
  Re.strip_prefix_nocase lit (n ++ "_"%char :: x)
  = option_map (fun r => r ++ "_"%char :: x) (Re.strip_prefix_nocase lit n).
Proof.
  revert n. induction lit as [|d lit IH]; intros n H; [reflexivity|].
  cbn [forallb] in H. apply andb_true_iff in H. destruct H as [Hd Hlit].
  apply negb_true_iff in Hd.
  destruct n as [|c n]; cbn [app Re.strip_prefix_nocase option_map].
  - change (lower_char "_") with "_"%char. now rewrite Hd.
  - destruct (char_eqb (lower_char c) d); [now apply IH | reflexivity].
Qed.

Lemma strip_prefix_nocase_all (lit s : str) :
  Re.strip_prefix_nocase lit s = Some [] -> lower s = lit.
Proof.
  revert s. induction lit as [|d lit IH]; intros s H.
  - cbn in H. now injection H as ->.
  - destruct s as [|c s]; [discriminate|]. cbn [Re.strip_prefix_nocase] in H.
    destruct (char_eqb (lower_char c) d) eqn:E; [|discriminate].
    apply char_eqb_eq in E. cbn. rewrite E. f_equal. now apply IH.
Qed.

Lemma lit_digits_end_ignores_prev (lit : str) :
  ignores_prev (Re.lit_digits_end lit).
Proof. intros prev prev' s. reflexivity. Qed.

(** No match begins at a character other than the first of the literal. *)
Lemma lit_digits_end_other (l0 : ascii) (lit : str) (c : ascii) (t : str)
      (prev : option ascii) :
  char_eqb c l0 = false -> Re.lit_digits_end (l0 :: lit) prev (c :: t) = None.
Proof. intro H. unfold Re.lit_digits_end. cbn [Re.strip_prefix]. now rewrite H. Qed.

Lemma sub_lit_digits_copy (l0 : ascii) (lit y rest : str) :
  forallb (fun c => negb (char_eqb c l0)) y = true ->
  forall prev,
    Re.sub_from (Re.lit_digits_end (l0 :: lit)) [] prev 0 (y ++ rest)
    = y ++ Re.sub_from (Re.lit_digits_end (l0 :: lit)) [] prev 0 rest.
Proof.
  induction y as [|c y IH]; intros H prev; [reflexivity|].
  cbn [forallb] in H. apply andb_true_iff in H. destruct H as [Hc Hy].
  apply negb_true_iff in Hc.
  cbn [app Re.sub_from]. rewrite (lit_digits_end_other _ _ _ _ _ Hc).
  f_equal. rewrite (IH Hy).
  f_equal. apply sub_from_ignores_prev, lit_digits_end_ignores_prev.
Qed.

Lemma sub_lit_digits_none (l0 : ascii) (lit y : str) :
  forallb (fun c => negb (char_eqb c l0)) y = true ->
  Re.sub (Re.lit_digits_end (l0 :: lit)) [] y = y.
Proof.
  intro H. unfold Re.sub. rewrite <- (app_nil_r y) at 1.
  rewrite (sub_lit_digits_copy _ _ _ _ H). cbn [Re.sub_from].
  apply app_nil_r.
Qed.

Lemma sub_from_skip_all (p : Re.pattern) (repl l : str) :
  forall prev, Re.sub_from p repl prev (length l) l = [].
Proof.
  induction l as [|x l IH]; intro prev; [reflexivity|].
  cbn [length Re.sub_from]. apply IH.
Qed.

Lemma dropwhile_all_nil {A} (p : A -> bool) (l : list A) :
  forallb p l = true -> dropwhile p l = [].
Proof.
  induction l as [|x l IH]; [reflexivity|]. cbn. intro H.
  apply andb_true_iff in H. destruct H as [-> Hl]. now apply IH.
Qed.

Lemma digit_not_underscore (c : ascii) :
  is_digit c = true -> char_eqb c "_"%char = false.
Proof. each_char c. Qed.

Lemma digit_not_p (c : ascii) :
  is_digit c = true -> char_eqb c "p"%char = false.
Proof. each_char c. Qed.

Lemma digits_no_underscore (digits : str) :
  forallb is_digit digits = true ->
  forallb (fun c => negb (char_eqb c "_"%char)) digits = true.
Proof.
  intro H. apply forallb_forall. intros c Hc. rewrite forallb_forall in H.
  apply negb_true_iff, digit_not_underscore. now apply H.
Qed.

(** [_pg\d+$] finds nothing in a name followed by [_] and digits. *)
Lemma sub_pg_numbered (y digits : str) :
  forallb (fun c => negb (char_eqb c "_"%char)) y = true ->
  digits <> [] -> forallb is_digit digits = true ->
  Re.sub (Re.lit_digits_end (py "_pg")) [] (y ++ "_"%char :: digits)
  = y ++ "_"%char :: digits.
Proof.
  intros Hy Hne Hd. unfold Re.sub.
  change (py "_pg") with ("_"%char :: py "pg").
  rewrite (sub_lit_digits_copy _ _ _ _ Hy). f_equal.
  assert (Hnone : Re.lit_digits_end ("_"%char :: py "pg") None
                                    ("_"%char :: digits) = None).
  { destruct digits as [|d0 digits]; [now elim Hne|].
    cbn [forallb] in Hd. apply andb_true_iff in Hd. destruct Hd as [Hd0 _].
    unfold Re.lit_digits_end. cbn [Re.strip_prefix py list_ascii_of_string].
    change (char_eqb "_" "_") with true. cbv iota.
    now rewrite (digit_not_p d0 Hd0). }
  cbn [Re.sub_from]. rewrite Hnone. f_equal.
  rewrite <- (app_nil_r digits) at 1.
  rewrite (sub_lit_digits_copy _ _ _ _ (digits_no_underscore _ Hd)).
  cbn [Re.sub_from]. apply app_nil_r.
Qed.

(** [_\d+$] takes [_] and the digits off the end. *)
Lemma sub_number_numbered (y digits : str) :
  forallb (fun c => negb (char_eqb c "_"%char)) y = true ->
  digits <> [] -> forallb is_digit digits = true ->
  Re.sub (Re.lit_digits_end (py "_")) [] (y ++ "_"%char :: digits) = y.
Proof.
  intros Hy Hne Hd. unfold Re.sub.
  change (py "_") with ["_"%char].
  rewrite (sub_lit_digits_copy _ _ _ _ Hy).
  rewrite <- (app_nil_r y) at 2. f_equal.
  cbn [Re.sub_from]. unfold Re.lit_digits_end at 1.
  cbn [Re.strip_prefix]. change (char_eqb "_" "_") with true. cbv iota zeta.
  rewrite (dropwhile_all_nil _ _ Hd). cbn [length Re.at_end].
  destruct digits as [|d0 digits]; [now elim Hne|].
  cbn [length Nat.ltb Nat.leb andb Nat.sub app].
  apply (sub_from_skip_all _ _ (d0 :: digits)).
Qed.

Lemma letter_or_space_plain (c : ascii) :
  c = " "%char \/ is_ascii_letter c = true ->
  char_eqb c "_"%char = false /\ char_eqb c "."%char = false
  /\ char_eqb c "/"%char = false.
Proof.
  intros [->|H]; [now repeat split|]. revert H. each_char c.
Qed.

Lemma letter_no_separator (c : ascii) :
  is_ascii_letter c = true -> separator_char c = false.
Proof. each_char c. Qed.

Section Key.

Variable unidecode : str -> str.

(** The part of [cert_key] after the three substitutions. *)
Lemma cert_key_steps (x : str) (c : ascii) (x' : str) :
  x = c :: x' ->
  forallb (fun d => negb (char_eqb d "."%char)) x = true ->
  forallb (fun d => negb (char_eqb d "/"%char)) x = true ->
  cert_key unidecode (x ++ py ".pdf")
  = let cleaned :=
      Re.sub (Re.lit_digits_end (py "_")) []
        (Re.sub (Re.lit_digits_end (py "_pg")) []
           (match Re.strip_prefix_nocase (py "certificate") x with
            | Some rest => dropwhile separator_char rest
            | None => x
            end)) in
    match normalize_name unidecode (Text (strip cleaned)) with
    | [] => None
    | norm_key => Some norm_key
    end.
Proof.
  intros Ex Hdot Hsep. unfold cert_key.
  rewrite endswith_lower_pdf. cbn [negb].
  rewrite (splitext_pdf x c x' Ex Hdot Hsep). cbn [fst].
  rewrite sub_anchored by discriminate.
  cbv zeta. now destruct (normalize_name unidecode _).
Qed.

(** A name of letter words, with or without a number after it, is filed
    under one key. *)
Lemma numbered_key (ws : list str) (digits : str) :
  ws <> [] -> forallb letter_word ws = true ->
  lower (join_sp ws) <> py "certificate" ->
  digits <> [] -> forallb is_digit digits = true ->
  cert_key unidecode (join_sp ws ++ py "_" ++ digits ++ py ".pdf")
  = cert_key unidecode (join_sp ws ++ py ".pdf").
Proof.
  intros Hne Hws Hcert Hdne Hd.
  set (n := join_sp ws) in *.
  assert (Hchars : forall c, In c n -> c = " "%char \/ is_ascii_letter c = true)
    by (intros c Hc; now apply (RenameMore.letter_words_chars ws)).
  assert (Hplain : forall s, (forall c, In c s -> In c n) ->
             forallb (fun c => negb (char_eqb c "_"%char)) s = true
             /\ forallb (fun c => negb (char_eqb c "."%char)) s = true
             /\ forallb (fun c => negb (char_eqb c "/"%char)) s = true).
  { intros s Hs. repeat split; apply forallb_forall; intros c Hc;
      destruct (letter_or_space_plain c (Hchars c (Hs c Hc))) as (H1 & H2 & H3);
      now apply negb_true_iff. }
  destruct (Hplain n (fun c H => H)) as (Hn_ & Hndot & Hnsep).
  assert (Hn : n <> []).
  { unfold n. destruct ws as [|w ws]; [easy|]. apply join_sp_nonempty.
    cbn [forallb] in Hws. apply andb_true_iff in Hws. destruct Hws as [Hw _].
    now destruct w. }
  destruct n as [|c0 n0] eqn:En; [easy|]. rewrite <- En in *.
  (* the last character is a letter *)
  assert (Hlast : exists n2 z, n = n2 ++ [z] /\ is_ascii_letter z = true).
  { destruct (RenameMore.last_char n Hn) as (n2 & z & E2).
    exists n2, z. split; [exact E2|].
    destruct (Hchars z) as [->|Hz];
      [rewrite E2; apply in_or_app; right; now left | | exact Hz].
    exfalso.
    assert (Hstrip : strip (sub_spaces (py " ") n) = n).
    { unfold n. rewrite strip_sub_spaces.
      now rewrite split_join_sp by now apply RenameMore.letter_words_tokens. }
    rewrite <- Hstrip in E2.
    now pose proof (EmailMore.strip_no_trailing_space _ _ _ E2). }
  (* the numbered name *)
  assert (Ex2 : n ++ py "_" ++ digits ++ py ".pdf"
                = (n ++ "_"%char :: digits) ++ py ".pdf")
    by now rewrite <- app_assoc.
  rewrite Ex2.
  assert (Hd_ := digits_no_underscore _ Hd).
  assert (Hddot : forallb (fun c => negb (char_eqb c "."%char)) digits = true).
  { apply forallb_forall. intros c Hc. rewrite forallb_forall in Hd.
    specialize (Hd c Hc). revert Hd. clear. each_char c. }
  assert (Hdsep : forallb (fun c => negb (char_eqb c "/"%char)) digits = true).
  { apply forallb_forall. intros c Hc. rewrite forallb_forall in Hd.
    specialize (Hd c Hc). revert Hd. clear. each_char c. }
  rewrite (cert_key_steps (n ++ "_"%char :: digits) c0 (n0 ++ "_"%char :: digits)).
  2:{ now rewrite En. }
  2:{ rewrite forallb_app, Hndot. cbn [forallb]. now rewrite Hddot. }
  2:{ rewrite forallb_app, Hnsep. cbn [forallb]. now rewrite Hdsep. }
  rewrite (cert_key_steps n c0 n0 En Hndot Hnsep).
  rewrite strip_prefix_nocase_app by reflexivity.
  destruct (Re.strip_prefix_nocase (py "certificate") n) as [rest|] eqn:Ep;
    cbn [option_map].
  - destruct (strip_prefix_nocase_split _ _ _ Ep) as (pre & Hpre & _).
    assert (Hrest : dropwhile separator_char rest <> []).
    { destruct rest as [|r0 rest'] eqn:Er.
      - apply strip_prefix_nocase_all in Ep. contradiction.
      - rewrite <- Er in *. intro Hnil.
        apply RenameMore.dropwhile_nil_all in Hnil.
        destruct Hlast as (n2 & z & E2 & Hz).
        assert (Hzin : In z rest).
        { destruct (RenameMore.last_char rest) as (r2 & z' & Er2);
            [rewrite Er; discriminate|].
          rewrite Er2 in Hpre. rewrite E2, app_assoc in Hpre.
          apply app_inj_tail in Hpre. destruct Hpre as [_ ->].
          rewrite Er2. apply in_or_app. right. now left. }
        rewrite forallb_forall in Hnil. specialize (Hnil z Hzin).
        rewrite (letter_no_separator z Hz) in Hnil. discriminate. }
    rewrite (dropwhile_keeps _ _ _ Hrest).
    assert (Hy : forall c, In c (dropwhile separator_char rest) -> In c n).
    { intros c Hc. apply RenameMore.dropwhile_in in Hc. rewrite Hpre.
      apply in_or_app. now right. }
    destruct (Hplain _ Hy) as (Hy_ & _ & _).
    rewrite (sub_pg_numbered _ _ Hy_ Hdne Hd).
    rewrite (sub_number_numbered _ _ Hy_ Hdne Hd).
    change (py "_pg") with ("_"%char :: py "pg").
    change (py "_") with ["_"%char].
    now rewrite !(sub_lit_digits_none _ _ _ Hy_).
  - rewrite (sub_pg_numbered _ _ Hn_ Hdne Hd).
    rewrite (sub_number_numbered _ _ Hn_ Hdne Hd).
    change (py "_pg") with ("_"%char :: py "pg").
    change (py "_") with ["_"%char].
    now rewrite !(sub_lit_digits_none _ _ _ Hn_).
Qed.

(** X20: the number that [rename.py] puts after a name that is already
    taken is invisible to the index of [automation.py]: for a name of words
    of ASCII letters joined by single spaces, other than the word
    certificate itself, the files [name.pdf] and [name_N.pdf] have one and
    the same key. *)
Theorem numbered_copy_same_key (ws : list str) (counter : nat) :
  ws <> [] -> forallb letter_word ws = true ->
  lower (join_sp ws) <> py "certificate" ->
  cert_key unidecode (numbered (join_sp ws) counter)
  = cert_key unidecode (join_sp ws ++ py ".pdf").
Proof.
  intros Hne Hws Hcert. unfold numbered.
  apply numbered_key; try assumption.
  - apply str_of_nat_nonempty.
  - apply str_of_nat_digits.
Qed.

End Key.

Lemma numbered_copy_same_key_witness :
  cert_key unidecode_ascii_range (py "Harsha Vardhan_1.pdf")
  = cert_key unidecode_ascii_range (py "Harsha Vardhan.pdf").
Proof.
  apply (numbered_copy_same_key unidecode_ascii_range
           [py "Harsha"; py "Vardhan"] 1).
  - discriminate.
  - reflexivity.
  - vm_compute. discriminate.
Defined.

End RenamedIndex.

(** ** From a page to the record of its participant *)
Module EndToEnd.
Import Automation Report Vocabulary PyFacts IndexFacts Spacing Rename.

Lemma strip_prefix_nocase_none (lit s : str) :
  startswith (lower s) lit = false -> Re.strip_prefix_nocase lit s = None.
Proof.
  revert s. induction lit as [|d lit IH]; intros s H.
  - now destruct (lower s).
  - destruct s as [|c s]; [reflexivity|].
    unfold lower in H. cbn [map startswith] in H.
    cbn [Re.strip_prefix_nocase].
    destruct (char_eqb (lower_char c) d); [now apply IH | reflexivity].
Qed.

(** A name of letter words begins and ends with a letter. *)
Lemma letter_words_ends (ws : list str) :
  ws <> [] -> forallb letter_word ws = true ->
  exists c0 n0 n2 z,
    join_sp ws = c0 :: n0 /\ join_sp ws = n2 ++ [z]
    /\ is_ascii_letter c0 = true /\ is_ascii_letter z = true.
Proof.
  intros Hne Hws. set (n := join_sp ws).
  assert (Hchars : forall c, In c n -> c = " "%char \/ is_ascii_letter c = true)
    by (intros c Hc; now apply (RenameMore.letter_words_chars ws)).
  assert (Hn : n <> []).
  { unfold n. destruct ws as [|w ws]; [easy|]. apply join_sp_nonempty.
    cbn [forallb] in Hws. apply andb_true_iff in Hws. destruct Hws as [Hw _].
    now destruct w. }
  assert (Hstrip : strip (sub_spaces (py " ") n) = n).
  { unfold n. rewrite strip_sub_spaces.
    now rewrite split_join_sp by now apply RenameMore.letter_words_tokens. }
  destruct n as [|c0 n0] eqn:En; [easy|]. rewrite <- En in *.
  destruct (RenameMore.last_char n Hn) as (n2 & z & E2).
  exists c0, n0, n2, z. split; [exact En|]. split; [exact E2|]. split.
  - destruct (Hchars c0) as [->|H]; [rewrite En; now left | | exact H].
    exfalso. rewrite <- Hstrip in En.
    now pose proof (RenameMore.strip_head_no_space _ _ _ En).
  - destruct (Hchars z) as [->|H];
      [rewrite E2; apply in_or_app; right; now left | | exact H].
    exfalso. rewrite <- Hstrip in E2.
    now pose proof (EmailMore.strip_no_trailing_space _ _ _ E2).
Qed.

Lemma strip_fixed (s : str) (c : ascii) (s1 s2 : str) (d : ascii) :
  s = c :: s1 -> s = s2 ++ [d] -> is_space c = false -> is_space d = false ->
  strip s = s.
Proof.
  intros E1 E2 Hc Hd. unfold strip, rstrip, lstrip.
  rewrite E1 at 1. rewrite (RenameMore.dropwhile_fixed is_space c s1 Hc).
  rewrite <- E1. rewrite E2 at 1. rewrite rev_app_distr. cbn [rev app].
  rewrite (RenameMore.dropwhile_fixed is_space d (rev s2) Hd).
  change (d :: rev s2) with (rev [d] ++ rev s2).
  now rewrite <- rev_app_distr, rev_involutive.
Qed.

Lemma ascii_lower_char (c : ascii) : is_ascii c = true -> is_ascii (lower_char c) = true.
Proof. SubFacts.each_char c. Qed.

Section Pipeline.

Variable unidecode : str -> str.

(** The key of the file written for a name is the key of the name. *)
Lemma plain_file_key (ws : list str) :
  ws <> [] -> forallb letter_word ws = true ->
  startswith (lower (join_sp ws)) (py "certificate") = false ->
  normalize_name unidecode (Text (join_sp ws)) <> [] ->
  cert_key unidecode (join_sp ws ++ py ".pdf")
  = Some (normalize_name unidecode (Text (join_sp ws))).
Proof.
  intros Hne Hws Hcert Hkey.
  destruct (letter_words_ends ws Hne Hws) as (c0 & n0 & n2 & z & E1 & E2 & Hc0 & Hz).
  set (n := join_sp ws) in *.
  assert (Hplain : forallb (fun c => negb (char_eqb c "_"%char)) n = true
                   /\ forallb (fun c => negb (char_eqb c "."%char)) n = true
                   /\ forallb (fun c => negb (char_eqb c "/"%char)) n = true).
  { repeat split; apply forallb_forall; intros c Hc;
      destruct (RenamedIndex.letter_or_space_plain c
                  (RenameMore.letter_words_chars ws c Hws Hc)) as (H1 & H2 & H3);
      now apply negb_true_iff. }
  destruct Hplain as (Hn_ & Hndot & Hnsep).
  rewrite (RenamedIndex.cert_key_steps unidecode n c0 n0 E1 Hndot Hnsep).
  rewrite (strip_prefix_nocase_none _ _ Hcert). cbv zeta.
  change (py "_pg") with ("_"%char :: py "pg").
  change (py "_") with ["_"%char].
  rewrite !(RenamedIndex.sub_lit_digits_none _ _ _ Hn_).
  rewrite (strip_fixed n c0 n0 n2 z E1 E2
             (RenameMore.letter_no_space c0 Hc0) (RenameMore.letter_no_space z Hz)).
  destruct (normalize_name unidecode (Text n)); [now elim Hkey | reflexivity].
Qed.

Lemma listing_key_bound (files : list str) (f k : str) :
  In f files ->
  cert_key unidecode f = Some k ->
  exists f',
    dict_get (build_cert_map unidecode (Some files)) k = Some f'
    /\ In f' files
    /\ cert_key unidecode f' = Some k.
Proof.
  intros Hin Hk. rewrite build_cert_map_fold, fold_file_entry_get.
  destruct (last_filed (cert_key unidecode) k files) as [f'|] eqn:E.
  - exists f'. split; [reflexivity|]. now apply IndexMore.last_filed_some.
  - exfalso. unfold last_filed in E.
    pose proof (find_none _ _ E f (proj1 (in_rev files f) Hin)) as Hf.
    cbn in Hf. rewrite Hk, str_eqb_refl in Hf. discriminate.
Qed.

(** X21: the two programs meet.  When the certificate folder holds the
    file [name.pdf] that [rename.py] writes for a name of words of ASCII
    letters joined by single spaces (not beginning with the word
    certificate, and with a non-empty key), a roster row with this name and
    a usable address is matched by the exact tier, with confidence 1 and
    status matched, to a file of the folder that has the key of
    [name.pdf]. *)
Theorem page_name_finds_certificate (ws : list str) (files : list str)
        (idx : nat) (email : cell) :
  ws <> [] -> forallb letter_word ws = true ->
  startswith (lower (join_sp ws)) (py "certificate") = false ->
  normalize_name unidecode (Text (join_sp ws)) <> [] ->
  In (join_sp ws ++ py ".pdf") files ->
  clean_email email <> [] ->
  exists rec f,
    process_row unidecode (build_cert_map unidecode (Some files))
                (dict_keys (build_cert_map unidecode (Some files)))
                idx (Text (join_sp ws), email) = Ok rec
    /\ match_type rec = Some exact
    /\ match_confidence rec = 1%Q
    /\ status rec = matched
    /\ certificate_filename rec = Some f
    /\ In f files
    /\ cert_key unidecode f = cert_key unidecode (join_sp ws ++ py ".pdf").
Proof.
  intros Hne Hws Hcert Hkey Hin Hmail.
  pose proof (plain_file_key ws Hne Hws Hcert Hkey) as Hk.
  destruct (listing_key_bound files _ _ Hin Hk) as (f & Hget & Hf & Hfk).
  destruct (letter_words_ends ws Hne Hws) as (c0 & n0 & n2 & z & E1 & E2 & Hc0 & Hz).
  assert (Hstrip : strip (join_sp ws) = join_sp ws)
    by exact (strip_fixed _ c0 n0 n2 z E1 E2
                (RenameMore.letter_no_space c0 Hc0)
                (RenameMore.letter_no_space z Hz)).
  unfold process_row. cbn [fst snd str_of]. rewrite Hstrip.
  destruct (clean_email email) as [|e0 e] eqn:E; [congruence|].
  cbn [valid_email negb]. unfold match_tiers, dict_mem, subscript.
  rewrite Hget. cbn [bind]. eexists. exists f.
  do 5 (split; [reflexivity|]).
  split; [exact Hf | now rewrite Hfk, Hk].
Qed.

(** X22: for names written in ASCII the key does not depend on the case
    of the letters: a name and the same name in lower case have one key. *)
Theorem normalize_name_ignores_case (s : str) :
  ascii_fixed unidecode -> ascii_str s = true ->
  normalize_name unidecode (Text (lower s)) = normalize_name unidecode (Text s).
Proof.
  intros Hu Hs.
  assert (H1 : forallb is_ascii (strip s) = true) by now apply forallb_strip.
  assert (H2 : forallb is_ascii (lower (strip s)) = true).
  { unfold lower. rewrite forallb_forall in H1. apply forallb_forall.
    intros c Hc. apply in_map_iff in Hc. destruct Hc as (c' & <- & Hc').
    apply ascii_lower_char. now apply H1. }
  assert (Heq : lower (unidecode (strip (lower s))) = lower (unidecode (strip s))).
  { rewrite RenameMore.strip_lower, (Hu _ H1), (Hu _ H2).
    unfold lower. rewrite map_map. apply map_ext. intro c.
    apply EmailMore.lower_char_idempotent. }
  unfold normalize_name. now rewrite Heq.
Qed.

Lemma values_bound (d : dict) (f : str) :
  NoDup (dict_keys d) -> In f (map snd d) -> exists k, dict_get d k = Some f.
Proof.
  induction d as [|[k0 v0] d IH]; [easy|]. cbn [dict_keys map fst snd].
  intros Hnd [<-|Hin].
  - exists k0. cbn [dict_get]. now rewrite str_eqb_refl.
  - apply NoDup_cons_iff in Hnd. destruct Hnd as [Hk0 Hnd].
    destruct (IH Hnd Hin) as [k Hk]. exists k. cbn [dict_get].
    destruct (str_eqb k0 k) eqn:E; [|exact Hk].
    apply str_eqb_eq in E. subst k. elim Hk0.
    exact (dict_get_some_in _ _ _ Hk).
Qed.

(** X23: of the certificates [name.pdf] and [name_N.pdf] that [rename.py]
    writes for two pages with one name, the index holds at most one,
    whatever else the folder contains.  (The name is made of words of ASCII
    letters joined by single spaces and is not the word certificate
    itself.) *)
Theorem namesakes_share_one_certificate (ws : list str) (counter : nat)
        (files : list str) :
  ws <> [] -> forallb letter_word ws = true ->
  lower (join_sp ws) <> py "certificate" ->
  ~ (In (join_sp ws ++ py ".pdf")
        (map snd (build_cert_map unidecode (Some files)))
     /\ In (numbered (join_sp ws) counter)
           (map snd (build_cert_map unidecode (Some files)))).
Proof.
  intros Hne Hws Hcert [H1 H2].
  assert (Hnd : NoDup (dict_keys (build_cert_map unidecode (Some files)))).
  { rewrite build_cert_map_fold. apply fold_file_entry_nodup. constructor. }
  destruct (values_bound _ _ Hnd H1) as [k1 Hk1].
  destruct (values_bound _ _ Hnd H2) as [k2 Hk2].
  pose proof (IndexMore.index_binding_key unidecode _ _ _ Hk1) as [_ Hc1].
  pose proof (IndexMore.index_binding_key unidecode _ _ _ Hk2) as [_ Hc2].
  unfold numbered in Hc2, Hk2.
  rewrite (RenamedIndex.numbered_key unidecode ws (str_of_nat counter)
             Hne Hws Hcert (RenamedIndex.str_of_nat_nonempty counter)
             (RenamedIndex.str_of_nat_digits counter)) in Hc2.
  rewrite Hc1 in Hc2. injection Hc2 as <-.
  rewrite Hk1 in Hk2. injection Hk2 as Hk2.
  apply app_inv_head in Hk2. discriminate.
Qed.

End Pipeline.

Lemma namesakes_share_one_certificate_witness :
  ~ (In (py "Harsha Vardhan.pdf")
        (map snd (build_cert_map unidecode_ascii_range
                    (Some [py "Harsha Vardhan.pdf"; py "Harsha Vardhan_1.pdf"])))
     /\ In (py "Harsha Vardhan_1.pdf")
           (map snd (build_cert_map unidecode_ascii_range
                       (Some [py "Harsha Vardhan.pdf";
                              py "Harsha Vardhan_1.pdf"])))).
Proof.
  apply (namesakes_share_one_certificate unidecode_ascii_range
           [py "Harsha"; py "Vardhan"] 1
           [py "Harsha Vardhan.pdf"; py "Harsha Vardhan_1.pdf"]).
  - discriminate.
  - reflexivity.
  - vm_compute. discriminate.
Defined.

Lemma page_name_finds_certificate_witness :
  exists rec f,
    process_row unidecode_ascii_range
                (build_cert_map unidecode_ascii_range
                                (Some [py "Harsha Vardhan.pdf"]))
                (dict_keys (build_cert_map unidecode_ascii_range
                                           (Some [py "Harsha Vardhan.pdf"])))
                0 (Text (join_sp [py "Harsha"; py "Vardhan"]),
                   Text (py "harsha@example.com")) = Ok rec
    /\ match_type rec = Some exact
    /\ match_confidence rec = 1%Q
    /\ status rec = matched
    /\ certificate_filename rec = Some f
    /\ In f [py "Harsha Vardhan.pdf"]
    /\ cert_key unidecode_ascii_range f
       = cert_key unidecode_ascii_range
                  (join_sp [py "Harsha"; py "Vardhan"] ++ py ".pdf").
Proof.
  apply (page_name_finds_certificate unidecode_ascii_range
           [py "Harsha"; py "Vardhan"] [py "Harsha Vardhan.pdf"] 0
           (Text (py "harsha@example.com"))).
  - discriminate.
  - reflexivity.
  - reflexivity.
  - vm_compute. discriminate.
  - left. reflexivity.
  - vm_compute. discriminate.
Defined.

Lemma normalize_name_ignores_case_witness :
  normalize_name unidecode_ascii_range (Text (lower (py "Dr. HARSHA Vardhan")))
  = normalize_name unidecode_ascii_range (Text (py "Dr. HARSHA Vardhan")).
Proof.
  apply (normalize_name_ignores_case unidecode_ascii_range).
  - exact Claims.unidecode_ascii_range_fixed.
  - reflexivity.
Defined.

End EndToEnd.
